(** * Segre: a shallow embedding of the file organizer and its undo log

    The development follows the JavaScript sources module by module:
    [categories.js] (category lookup), [utils.js] (unique destination
    names, ignore patterns), [logger.js] (the operation log),
    [config.js] (category configuration) and [organizer.js] (discovery,
    the move loop, undo and directory pruning).

    Node's [path] and [fs/promises] modules are not part of the
    repository; they are modelled first, on a flat map from absolute,
    normalised paths to nodes.  Every asynchronous function of the source
    is awaited at once by its caller, so the control flow is sequential
    and is written here in a state-and-exception monad. *)

From Stdlib Require Import Ascii.
From stdpp Require Import gmap strings list fin_maps pretty.


(** ** JavaScript strings (the operations the sources use) *)

Module Js.

(** [String.prototype.toLowerCase], on the ASCII letters. *)
Definition lower_ascii (a : Ascii.ascii) : Ascii.ascii :=
  let n := Ascii.N_of_ascii a in
  if bool_decide (65 ≤ n ∧ n ≤ 90)%N then Ascii.ascii_of_N (n + 32) else a.

Fixpoint toLowerCase (s : string) : string :=
  match s with
  | "" => ""
  | String a s' => String (lower_ascii a) (toLowerCase s')
  end.

(** [s.startsWith(p)] *)
Definition startsWith (s p : string) : bool := String.prefix p s.

(** [s.endsWith(p)] *)
Definition endsWith (s p : string) : bool :=
  String.prefix (String.rev p) (String.rev s).

(** [s.includes(p)] *)
Fixpoint includes (s p : string) : bool :=
  String.prefix p s ||
  match s with
  | "" => false
  | String _ s' => includes s' p
  end.

(** [s.slice(1)] *)
Definition slice1 (s : string) : string :=
  match s with
  | "" => ""
  | String _ s' => s'
  end.

(** [s.trim()], on the ASCII white space. *)
Fixpoint trimStart (s : string) : string :=
  match s with
  | "" => ""
  | String a s' => if Ascii.is_space a then trimStart s' else s
  end.

Definition trim (s : string) : string :=
  String.rev (trimStart (String.rev (trimStart s))).

(** [s.split(sep)] for a one-character separator. *)
Fixpoint split_go (sep : Ascii.ascii) (cur : string) (s : string) : list string :=
  match s with
  | "" => [String.rev cur]
  | String a s' =>
      if Ascii.eqb a sep then String.rev cur :: split_go sep "" s'
      else split_go sep (String a cur) s'
  end.

Definition split (sep : Ascii.ascii) (s : string) : list string := split_go sep "" s.

(** [xs.includes(x)] on an array of strings. *)
Definition arr_includes (xs : list string) (x : string) : bool :=
  bool_decide (x ∈ xs).

(** Template-literal rendering of a non-negative integer counter. *)
Definition show_nat (n : nat) : string := pretty n.

End Js.

(** ** Node's [path] module (POSIX flavour)

    An absolute, normalised path is the list of its components from the
    root; [[]] is the root directory.  A segment handed to [join] is one
    name: the sources only ever join directory entries, category names,
    a year and a month abbreviation.  Segments holding a separator are
    outside the model. *)

Abbreviation path := (list string).

Module Path.

(** [path.join(dir, seg)]: join and normalise. *)
Definition join (dir : path) (seg : string) : path :=
  if bool_decide (seg = "" ∨ seg = ".") then dir
  else if bool_decide (seg = "..") then removelast dir
  else dir ++ [seg].

(** [path.dirname(p)] *)
Definition dirname (p : path) : path := removelast p.

(** The last component, [""] for the root. *)
Definition lastname (p : path) : string := List.last p "".

(** Cut a name at its last dot: [Some (stem, ext)] with [ext] starting
    at that dot. *)
Fixpoint cut_last_dot (s : string) : option (string * string) :=
  match s with
  | "" => None
  | String a s' =>
      match cut_last_dot s' with
      | Some (stem, ext) => Some (String a stem, ext)
      | None => if Ascii.eqb a "."%char then Some ("", s) else None
      end
  end.

(** [path.extname(p)]: from the last dot of the last component; empty
    when there is no dot, when the only dot leads the name, and for
    [".."]. *)
Definition extname_of (name : string) : string :=
  match cut_last_dot name with
  | Some (stem, ext) =>
      if bool_decide (stem = "" ∨ name = "..") then "" else ext
  | None => ""
  end.

Definition extname (p : path) : string := extname_of (lastname p).

(** [s] without the trailing [suffix], when it ends with it. *)
Fixpoint strip_suffix (suffix s : string) : option string :=
  if bool_decide (s = suffix) then Some ""
  else match s with
       | "" => None
       | String a s' => String a <$> strip_suffix suffix s'
       end.

(** [path.basename(p, suffix)]: the last component, without [suffix]
    unless that would leave nothing. *)
Definition basename (p : path) (suffix : string) : string :=
  let b := lastname p in
  match strip_suffix suffix b with
  | Some "" | None => b
  | Some stem => stem
  end.

(** [path.resolve(s)] from the working directory [cwd]. *)
Definition resolve (cwd : path) (s : string) : path :=
  fold_left join (Js.split "/"%char s)
    (if Js.startsWith s "/" then [] else cwd).

(** The text of a path, as the sources see it. *)
Definition to_string (p : path) : string :=
  match p with
  | [] => "/"
  | _ => foldr (λ c acc, "/" +:+ c +:+ acc) "" p
  end.

End Path.

(** ** categories.js *)

(** A category object, in [Object.entries] order. *)
Abbreviation CategoryMap := (list (string * list string)).

Definition defaultCategories : CategoryMap :=
  [ ("Archives", [".zip"; ".tar"; ".gz"; ".rar"; ".7z"; ".bz2"; ".xz"]);
    ("Audio", [".mp3"; ".wav"; ".flac"; ".aac"; ".ogg"; ".wma"; ".m4a"]);
    ("Code", [".js"; ".ts"; ".css"; ".html"; ".py"; ".java"; ".cpp"; ".c";
              ".h"; ".jsx"; ".tsx"; ".vue"; ".rb"; ".go"; ".rs"; ".php";
              ".swift"; ".kt"]);
    ("Documents", [".pdf"; ".doc"; ".docx"; ".xls"; ".xlsx"; ".ppt"; ".pptx";
                   ".txt"; ".rtf"; ".odt"; ".ods"; ".odp"; ".md"; ".csv"]);
    ("Images", [".jpg"; ".jpeg"; ".png"; ".gif"; ".bmp"; ".tiff"; ".svg";
                ".webp"; ".ico"; ".raw"; ".psd"; ".ai"]);
    ("Videos", [".mp4"; ".mkv"; ".avi"; ".mov"; ".wmv"; ".flv"; ".webm";
                ".m4v"; ".mpeg"; ".mpg"]);
    ("Executables", [".exe"; ".msi"; ".dmg"; ".app"; ".deb"; ".rpm"; ".sh";
                     ".bat"; ".cmd"]);
    ("Fonts", [".ttf"; ".otf"; ".woff"; ".woff2"; ".eot"]);
    ("Others", []) ].

(** The [for ... of Object.entries(categories)] loop of [getCategory],
    with its early [return]. *)
Fixpoint getCategory_loop (extension : string) (entries : CategoryMap) : string :=
  match entries with
  | [] => "Others"
  | (category, extensions) :: rest =>
      if Js.arr_includes extensions (Js.toLowerCase extension) then category
      else getCategory_loop extension rest
  end.

(** [getCategory(extension, categories)]; [None] is a [null] or
    [undefined] extension. *)
Definition getCategory (extension : option string) (categories : CategoryMap) : string :=
  match extension with
  | None | Some "" => "Others"
  | Some e => getCategory_loop e categories
  end.

(** [Object.keys(categories)] *)
Definition Object_keys (categories : CategoryMap) : list string := categories.*1.

(** ** What is stored on disk *)

(** One recorded move, and one organize run's batch of them
    ([{ original, movedTo }] and [{ timestamp, operations }]). *)
Record MoveOperation := { original : path; movedTo : path }.
Record Batch := { timestamp : string; operations : list MoveOperation }.

(** The text of a file, by what [JSON.parse] makes of it: nothing (the
    parser throws), an array of batches, or an object of string arrays.
    JSON documents of another shape are outside the model. *)
Inductive content :=
  | Data (text : string)
  | LogJson (log : list Batch)
  | ConfigJson (cfg : CategoryMap).

(** [stats.mtime], as far as [getFullYear] and [getMonth] read it. *)
Record Date := { fullYear : Z; monthIndex : nat }.

Inductive node :=
  | File (body : content) (mtime : Date)
  | Dir.

Global Instance MoveOperation_eq_dec : EqDecision MoveOperation.
Proof. solve_decision. Defined.
Global Instance Batch_eq_dec : EqDecision Batch.
Proof. solve_decision. Defined.
Global Instance content_eq_dec : EqDecision content.
Proof. solve_decision. Defined.
Global Instance Date_eq_dec : EqDecision Date.
Proof. solve_decision. Defined.
Global Instance node_eq_dec : EqDecision node.
Proof. solve_decision. Defined.

(** One call of [fs.rename], as the journal of the world keeps it:
    source, destination, whether the destination was free when the call
    was made, and whether the call succeeded. *)
Record Move := { mv_src : path; mv_dst : path; mv_fresh : bool; mv_done : bool }.

(** The world a run executes in: the disk, the paths the operating
    system refuses to rename (a permission error), the journal of
    rename calls, the working directory and the clock. *)
Record World := {
  disk : gmap path node;
  locked : gset path;
  journal : list Move;
  cwd : path;
  clock : Date;
  clock_iso : string
}.

Definition with_disk (σ : gmap path node) (w : World) : World :=
  {| disk := σ; locked := locked w; journal := journal w; cwd := cwd w;
     clock := clock w; clock_iso := clock_iso w |}.

Definition with_move (m : Move) (w : World) : World :=
  {| disk := disk w; locked := locked w; journal := journal w ++ [m];
     cwd := cwd w; clock := clock w; clock_iso := clock_iso w |}.

(** ** Sequential effects: state, exceptions and unbounded loops *)

(** A computation returns, throws an [Error] (its message), or is cut
    off by the bound put on a loop of the source that has none. *)
Inductive outcome (A : Type) :=
  | Ok (a : A)
  | Throw (msg : string)
  | Spin.
Global Arguments Ok {A} a.
Global Arguments Throw {A} msg.
Global Arguments Spin {A}.

Definition M (A : Type) : Type := World → outcome A * World.

Global Instance M_ret : MRet M := λ A a w, (Ok a, w).

Global Instance M_bind : MBind M := λ A B f m w,
  match m w with
  | (Ok a, w') => f a w'
  | (Throw e, w') => (Throw e, w')
  | (Spin, w') => (Spin, w')
  end.

Definition throw {A} (msg : string) : M A := λ w, (Throw msg, w).

(** [try { body } catch { handler }]: the handler runs in the world the
    body left behind. *)
Definition try_catch {A} (body : M A) (handler : string → M A) : M A := λ w,
  match body w with
  | (Throw e, w') => handler e w'
  | r => r
  end.

(** ** Node's [fs/promises] *)

Module Fs.

(** The node at a path; the root is always a directory. *)
Definition node_at (σ : gmap path node) (p : path) : option node :=
  match p with
  | [] => Some Dir
  | _ => σ !! p
  end.

Definition is_dir (σ : gmap path node) (p : path) : bool :=
  match node_at σ p with
  | Some Dir => true
  | _ => false
  end.

Definition exists_at (σ : gmap path node) (p : path) : bool :=
  bool_decide (is_Some (node_at σ p)).

(** The names directly under [d], in the order the map lists them
    (the sources rely on no order). *)
Definition children (σ : gmap path node) (d : path) : list string :=
  Path.lastname <$>
    filter (λ k : path, k ≠ [] ∧ removelast k = d) (map_to_list σ).*1.

(** [fs.access(p)] *)
Definition access (p : path) : M unit := λ w,
  if exists_at (disk w) p then (Ok (), w) else (Throw "ENOENT", w).

(** [fs.stat(p)] *)
Definition stat (p : path) : M node := λ w,
  match node_at (disk w) p with
  | Some n => (Ok n, w)
  | None => (Throw "ENOENT", w)
  end.

(** [fs.readdir(d)] *)
Definition readdir (d : path) : M (list string) := λ w,
  match node_at (disk w) d with
  | Some Dir => (Ok (children (disk w) d), w)
  | Some (File _ _) => (Throw "ENOTDIR", w)
  | None => (Throw "ENOENT", w)
  end.

(** [fs.mkdir(d, { recursive: true })]: walk down from the root,
    creating what is missing; a file in the way is an error. *)
Fixpoint mkdir_walk (base : path) (rest : list string) (σ : gmap path node)
  : bool * gmap path node :=
  match rest with
  | [] => (true, σ)
  | c :: rest' =>
      let p := base ++ [c] in
      match σ !! p with
      | Some (File _ _) => (false, σ)
      | Some Dir => mkdir_walk p rest' σ
      | None => mkdir_walk p rest' (<[p := Dir]> σ)
      end
  end.

Definition mkdir_p (d : path) : M unit := λ w,
  match mkdir_walk [] d (disk w) with
  | (true, σ') => (Ok (), with_disk σ' w)
  | (false, σ') => (Throw "EEXIST", with_disk σ' w)
  end.

(** Moving a directory moves everything below it. *)
Definition rebase (src dst k : path) : path :=
  if bool_decide (src `prefix_of` k) then dst ++ drop (length src) k else k.

Definition move_tree (src dst : path) (σ : gmap path node) : gmap path node :=
  list_to_map (prod_map (rebase src dst) id <$> map_to_list σ).

(** What [rename(2)] does to the disk, or the error it fails with. *)
Definition rename_disk (lk : gset path) (src dst : path) (σ : gmap path node)
  : string + gmap path node :=
  match src, σ !! src with
  | [], _ => inl "EBUSY"
  | _, None => inl "ENOENT"
  | _, Some n =>
      if negb (is_dir σ (Path.dirname dst)) then inl "ENOENT"
      else if bool_decide (dst = []) then inl "EBUSY"
      else if bool_decide (src ∈ lk) then inl "EPERM"
      else if bool_decide (src = dst) then inr σ
      else match n, σ !! dst with
           | File _ _, Some Dir => inl "EISDIR"
           | File _ _, _ => inr (<[dst := n]> (delete src σ))
           | Dir, Some (File _ _) => inl "ENOTDIR"
           | Dir, Some Dir =>
               if bool_decide (children σ dst = []) then
                 inr (move_tree src dst (delete dst σ))
               else inl "ENOTEMPTY"
           | Dir, None =>
               if bool_decide (src `prefix_of` dst) then inl "EINVAL"
               else inr (move_tree src dst σ)
           end
  end.

(** [fs.rename(src, dst)]; every call is entered in the journal. *)
Definition rename (src dst : path) : M unit := λ w,
  let fresh := negb (exists_at (disk w) dst) in
  match rename_disk (locked w) src dst (disk w) with
  | inr σ' =>
      (Ok (), with_move {| mv_src := src; mv_dst := dst;
                           mv_fresh := fresh; mv_done := true |}
                (with_disk σ' w))
  | inl e =>
      (Throw e, with_move {| mv_src := src; mv_dst := dst;
                             mv_fresh := fresh; mv_done := false |} w)
  end.

(** [fs.readFile(p, 'utf-8')] *)
Definition readFile (p : path) : M content := λ w,
  match node_at (disk w) p with
  | Some (File body _) => (Ok body, w)
  | Some Dir => (Throw "EISDIR", w)
  | None => (Throw "ENOENT", w)
  end.

(** [fs.writeFile(p, text)] *)
Definition writeFile (p : path) (body : content) : M unit := λ w,
  if negb (is_dir (disk w) (Path.dirname p)) then (Throw "ENOENT", w)
  else match node_at (disk w) p with
       | Some Dir => (Throw "EISDIR", w)
       | _ => (Ok (), with_disk (<[p := File body (clock w)]> (disk w)) w)
       end.

(** [fs.unlink(p)] *)
Definition unlink (p : path) : M unit := λ w,
  match node_at (disk w) p with
  | Some (File _ _) => (Ok (), with_disk (delete p (disk w)) w)
  | Some Dir => (Throw "EISDIR", w)
  | None => (Throw "ENOENT", w)
  end.

(** [fs.rmdir(p)] *)
Definition rmdir (p : path) : M unit := λ w,
  match p, node_at (disk w) p with
  | [], _ => (Throw "EBUSY", w)
  | _, Some Dir =>
      if bool_decide (children (disk w) p = []) then
        (Ok (), with_disk (delete p (disk w)) w)
      else (Throw "ENOTEMPTY", w)
  | _, Some (File _ _) => (Throw "ENOTDIR", w)
  | _, None => (Throw "ENOENT", w)
  end.

End Fs.

(** What [JSON.parse] returns on the texts of the model. *)
Inductive json :=
  | JArr (log : list Batch)
  | JObj (cfg : CategoryMap).

Definition JSON_parse (body : content) : M json :=
  match body with
  | Data _ => throw "SyntaxError"
  | LogJson log => mret (JArr log)
  | ConfigJson cfg => mret (JObj cfg)
  end.

(** Reading the world: the working directory, the clock, and the bound
    put on loops the source leaves unbounded. *)
Definition get_world : M World := λ w, (Ok w, w).

Definition spin {A} : M A := λ w, (Spin, w).

(** [for (const x of xs) { ... }] with the variables the body updates
    gathered in [acc]. *)
Fixpoint for_of {A B} (xs : list A) (acc : B) (body : B → A → M B) : M B :=
  match xs with
  | [] => mret acc
  | x :: rest => acc' ← body acc x; for_of rest acc' body
  end.

(** ** utils.js *)

(** The name tried at the [counter]-th conflict. *)
Definition numbered (targetPath : path) (counter : nat) : path :=
  let dir := Path.dirname targetPath in
  let ext := Path.extname targetPath in
  let baseName := Path.basename targetPath ext in
  Path.join dir (baseName +:+ "(" +:+ Js.show_nat counter +:+ ")" +:+ ext).

(** The [while (true)] loop of [getUniqueFilePath]: [Some next] stands
    for another turn, [None] for the [break] of the [catch]. *)
Fixpoint getUniqueFilePath_loop (fuel : nat) (targetPath uniquePath : path)
    (counter : nat) : M path :=
  match fuel with
  | 0 => spin
  | S fuel' =>
      turn ← try_catch
        (Fs.access uniquePath;;
         mret (Some (numbered targetPath counter)))
        (λ _, mret None);
      match turn with
      | Some next => getUniqueFilePath_loop fuel' targetPath next (S counter)
      | None => mret uniquePath
      end
  end.

(** [getUniqueFilePath(targetPath)].  The loop has no bound in the
    source; here it gets two turns more than there are entries on disk. *)
Definition getUniqueFilePath (targetPath : path) : M path :=
  w ← get_world;
  getUniqueFilePath_loop (2 + size (disk w)) targetPath targetPath 1.

Definition months : list string :=
  ["Jan"; "Feb"; "Mar"; "Apr"; "May"; "Jun";
   "Jul"; "Aug"; "Sep"; "Oct"; "Nov"; "Dec"].

(** [getMonthName(date)]; [getMonth()] is below twelve. *)
Definition getMonthName (date : Date) : string :=
  default "" (months !! monthIndex date).

(** [shouldIgnore(filePath, ignorePatterns)] *)
Definition shouldIgnore (filePath : path) (ignorePatterns : list string) : bool :=
  if bool_decide (length ignorePatterns = 0) then false
  else
    let fileName := Path.lastname filePath in
    existsb (λ pattern,
      if Js.startsWith pattern "*." then
        Js.endsWith fileName (Js.slice1 pattern)
      else
        bool_decide (fileName = pattern)
        || Js.includes (Path.to_string filePath) pattern) ignorePatterns.

(** ** logger.js *)

Definition LOG_FILE_NAME : string := ".segre-log.json".

(** [saveLog(targetDir, operations)] *)
Definition saveLog (targetDir : path) (ops : list MoveOperation) : M unit :=
  let logPath := Path.join targetDir LOG_FILE_NAME in
  existingLog ← try_catch
    (content ← Fs.readFile logPath; JSON_parse content)
    (λ _, mret (JArr []));
  w ← get_world;
  let newLog := {| timestamp := clock_iso w; operations := ops |} in
  match existingLog with
  | JArr batches => Fs.writeFile logPath (LogJson (batches ++ [newLog]))
  | JObj _ => throw "TypeError: existingLog.push is not a function"
  end.

(** [readLog(targetDir)]; [None] is [null]. *)
Definition readLog (targetDir : path) : M (option json) :=
  let logPath := Path.join targetDir LOG_FILE_NAME in
  try_catch
    (content ← Fs.readFile logPath; v ← JSON_parse content; mret (Some v))
    (λ _, mret None).

(** [updateLog(targetDir, log)] *)
Definition updateLog (targetDir : path) (log : list Batch) : M unit :=
  let logPath := Path.join targetDir LOG_FILE_NAME in
  if bool_decide (0 < length log) then Fs.writeFile logPath (LogJson log)
  else Fs.unlink logPath.

(** ** config.js *)

(** [{ ...base, ...over }]: a key of [over] replaces the value of the
    same key of [base] in place, a new key goes to the end. *)
Fixpoint assign (acc : CategoryMap) (key : string) (value : list string) : CategoryMap :=
  match acc with
  | [] => [(key, value)]
  | (k, v) :: rest =>
      if bool_decide (k = key) then (k, value) :: rest
      else (k, v) :: assign rest key value
  end.

Definition spread (base over : CategoryMap) : CategoryMap :=
  fold_left (λ acc kv, assign acc kv.1 kv.2) over base.

(** [loadConfig(configPath)]; the operating system resolves the path
    from the working directory. *)
Definition loadConfig (configPath : string) : M CategoryMap :=
  if bool_decide (configPath = "") then
    throw "Config path must be a non-empty string"
  else
    w ← get_world;
    configContent ← Fs.readFile (Path.resolve (cwd w) configPath);
    customCategories ← JSON_parse configContent;
    match customCategories with
    | JArr _ => throw "Config must be a valid JSON object"
    | JObj custom => mret (spread defaultCategories custom)
    end.

(** The object [generateSampleConfig] writes. *)
Definition sampleConfig : CategoryMap :=
  [ ("Images", [".jpg"; ".jpeg"; ".png"; ".gif"; ".bmp"; ".svg"; ".webp"]);
    ("Documents", [".pdf"; ".doc"; ".docx"; ".txt"; ".md"]);
    ("Audio", [".mp3"; ".wav"; ".flac"; ".aac"]);
    ("Videos", [".mp4"; ".mkv"; ".avi"; ".mov"]);
    ("Code", [".js"; ".ts"; ".py"; ".java"; ".cpp"; ".html"; ".css"]);
    ("Archives", [".zip"; ".rar"; ".7z"; ".tar"; ".gz"]);
    ("Others", []) ].

(** [generateSampleConfig(outputPath)] *)
Definition generateSampleConfig (outputPath : string) : M CategoryMap :=
  if bool_decide (outputPath = "") then
    throw "Output path must be a non-empty string"
  else
    w ← get_world;
    Fs.writeFile (Path.resolve (cwd w) outputPath) (ConfigJson sampleConfig);;
    mret sampleConfig.

(** ** organizer.js *)

(** The [targetDir] argument as JavaScript passes it: [null] or
    [undefined], a value that is not a string, or a string. *)
Inductive Arg :=
  | Nullish
  | NonString
  | Str (s : string).

(** The options object of the command line. *)
Record Options := {
  config : option string;
  dryRun : bool;
  interactive : bool;
  byDate : bool;
  ignore : option string;
  verbose : bool;
  recursive : bool
}.

(** [{ name, path, stats }], with the one field of [stats] the move
    loop reads. *)
Record FileEntry := { name : string; fpath : path; mtime_of : Date }.

(** The variables the move loop updates. *)
Record Tally := {
  moved : list MoveOperation;
  processedCount : nat;
  skippedCount : nat
}.

(** What a run of [organizeDirectory] found and did. *)
Record Report := { filesToProcess : list FileEntry; tally : Tally }.

(** What a run of [undoOrganize] did. *)
Inductive UndoReport :=
  | NothingToUndo
  | NoOperations
  | Undone (restoredCount errorCount : nat).

(** The longest path on disk bounds every descent into directories. *)
Definition depth (σ : gmap path node) : nat :=
  max_list (length <$> (map_to_list σ).*1).

(** One turn of the loop of [collectFilesRecursively]; [descend] is the
    recursive call. *)
Definition collect_entry (descend : path → M (list FileEntry))
    (dir baseDir : path) (categoryFolders ignorePatterns : list string)
    (options : Options) (files : list FileEntry) (entry : string)
    : M (list FileEntry) :=
  let entryPath := Path.join dir entry in
  if bool_decide (entry = LOG_FILE_NAME) then mret files
  else if shouldIgnore entryPath ignorePatterns then mret files
  else if bool_decide (dir = baseDir) && Js.arr_includes categoryFolders entry
  then mret files
  else
    stats ← Fs.stat entryPath;
    match stats with
    | File _ mtime =>
        mret (files ++ [{| name := entry; fpath := entryPath; mtime_of := mtime |}])
    | Dir =>
        if recursive options then
          if Js.arr_includes categoryFolders entry then mret files
          else
            subFiles ← descend entryPath;
            mret (files ++ subFiles)
        else mret files
    end.

(** [collectFilesRecursively(dir, baseDir, categoryFolders,
    ignorePatterns, options)] *)
Fixpoint collectFilesRecursively (fuel : nat) (dir baseDir : path)
    (categoryFolders ignorePatterns : list string) (options : Options)
    : M (list FileEntry) :=
  match fuel with
  | 0 => spin
  | S fuel' =>
      entries ← Fs.readdir dir;
      for_of entries []
        (collect_entry
           (λ sub, collectFilesRecursively fuel' sub baseDir
                     categoryFolders ignorePatterns options)
           dir baseDir categoryFolders ignorePatterns options)
  end.

(** One turn of the loop of [cleanupEmptyDirectories]. *)
Definition cleanup_entry (descend : path → M unit) (dir : path)
    (categoryFolders : list string) (_ : unit) (entry : string) : M unit :=
  let entryPath := Path.join dir entry in
  if Js.arr_includes categoryFolders entry then mret ()
  else
    try_catch
      (stats ← Fs.stat entryPath;
       match stats with
       | Dir =>
           descend entryPath;;
           contents ← Fs.readdir entryPath;
           if bool_decide (length contents = 0) then Fs.rmdir entryPath
           else mret ()
       | File _ _ => mret ()
       end)
      (λ _, mret ()).

(** [cleanupEmptyDirectories(dir, categoryFolders)] *)
Fixpoint cleanupEmptyDirectories (fuel : nat) (dir : path)
    (categoryFolders : list string) : M unit :=
  match fuel with
  | 0 => spin
  | S fuel' =>
      entries ← Fs.readdir dir;
      for_of entries ()
        (cleanup_entry (λ sub, cleanupEmptyDirectories fuel' sub categoryFolders)
           dir categoryFolders)
  end.

(** One turn of the loop that reads the directory when the run is not
    recursive. *)
Definition scan_entry (targetDir : path)
    (categoryFolders ignorePatterns : list string)
    (filesToProcess : list FileEntry) (file : string) : M (list FileEntry) :=
  let filePath := Path.join targetDir file in
  if bool_decide (file = LOG_FILE_NAME) then mret filesToProcess
  else if shouldIgnore filePath ignorePatterns then mret filesToProcess
  else if Js.arr_includes categoryFolders file then mret filesToProcess
  else
    stats ← Fs.stat filePath;
    match stats with
    | File _ mtime =>
        mret (filesToProcess ++
              [{| name := file; fpath := filePath; mtime_of := mtime |}])
    | Dir => mret filesToProcess
    end.

(** The [if (options.recursive) ... else ...] of [organizeDirectory]
    that fills [filesToProcess]. *)
Definition discover (targetDir : path)
    (categoryFolders ignorePatterns : list string) (options : Options)
    : M (list FileEntry) :=
  if recursive options then
    w ← get_world;
    collectFilesRecursively (S (depth (disk w))) targetDir targetDir
      categoryFolders ignorePatterns options
  else
    files ← Fs.readdir targetDir;
    for_of files [] (scan_entry targetDir categoryFolders ignorePatterns).

(** Where a file goes: [targetDir/year/month] or [targetDir/category]. *)
Definition targetSubDir_of (targetDir : path) (categories : CategoryMap)
    (options : Options) (file : FileEntry) : path :=
  let ext := Js.toLowerCase (Path.extname_of (name file)) in
  if byDate options then
    let fileDate := mtime_of file in
    let year := pretty (fullYear fileDate) in
    let month := getMonthName fileDate in
    Path.join (Path.join targetDir year) month
  else
    let category := getCategory (Some ext) categories in
    Path.join targetDir category.

(** One turn of the move loop of [organizeDirectory]; [prompt] is the
    answer to the confirmation of interactive mode. *)
Definition organize_file (prompt : path → path → bool) (targetDir : path)
    (categories : CategoryMap) (options : Options)
    (t : Tally) (file : FileEntry) : M Tally :=
  let targetSubDir := targetSubDir_of targetDir categories options file in
  newFilePath ← getUniqueFilePath (Path.join targetSubDir (name file));
  if dryRun options then mret t
  else if interactive options && negb (prompt (fpath file) newFilePath) then
    mret {| moved := moved t; processedCount := processedCount t;
            skippedCount := S (skippedCount t) |}
  else
    Fs.mkdir_p targetSubDir;;
    try_catch
      (Fs.rename (fpath file) newFilePath;;
       mret {| moved := moved t ++
                 [{| original := fpath file; movedTo := newFilePath |}];
               processedCount := S (processedCount t);
               skippedCount := skippedCount t |})
      (λ _, mret t).

(** The rest of [organizeDirectory] once [filesToProcess] is known:
    the move loop, the log, the pruning of emptied directories. *)
Definition process_files (prompt : path → path → bool) (targetDir : path)
    (categories : CategoryMap) (options : Options)
    (filesToProcess : list FileEntry) : M Report :=
  let nothing := {| moved := []; processedCount := 0; skippedCount := 0 |} in
  if bool_decide (length filesToProcess = 0) then
    mret {| filesToProcess := filesToProcess; tally := nothing |}
  else
    t ← for_of filesToProcess nothing
          (organize_file prompt targetDir categories options);
    (if bool_decide (0 < length (moved t)) && negb (dryRun options)
     then saveLog targetDir (moved t) else mret ());;
    (if recursive options && negb (dryRun options)
        && bool_decide (0 < length (moved t))
     then
       w ← get_world;
       cleanupEmptyDirectories (S (depth (disk w))) targetDir
         (Object_keys categories)
     else mret ());;
    mret {| filesToProcess := filesToProcess; tally := t |}.

Definition blank (targetDir : Arg) : bool :=
  match targetDir with
  | Str s => bool_decide (Js.trim s = "")
  | _ => true
  end.

Definition arg_string (targetDir : Arg) : string :=
  match targetDir with
  | Str s => s
  | _ => ""
  end.

(** [organizeDirectory(targetDir, options)] *)
Definition organizeDirectory (prompt : path → path → bool)
    (targetDir : Arg) (options : Options) : M Report :=
  if blank targetDir then throw "Target directory must be a non-empty string"
  else
    try_catch
      (w ← get_world;
       let targetDir := Path.resolve (cwd w) (arg_string targetDir) in
       try_catch (Fs.access targetDir)
         (λ _, throw "Directory does not exist");;
       dirStats ← Fs.stat targetDir;
       match dirStats with
       | File _ _ => throw "Path is not a directory"
       | Dir =>
           categories ← match config options with
                        | None | Some "" => mret defaultCategories
                        | Some configPath => loadConfig configPath
                        end;
           let categoryFolders := Object_keys categories in
           let ignorePatterns :=
             match ignore options with
             | None | Some "" => []
             | Some patterns => Js.trim <$> Js.split "," patterns
             end in
           filesToProcess ←
             discover targetDir categoryFolders ignorePatterns options;
           process_files prompt targetDir categories options filesToProcess
       end)
      (λ error, throw error).

(** One turn of the loop of [undoOrganize]: the pair counts restored
    files and errors. *)
Definition undo_operation (counts : nat * nat) (op : MoveOperation) : M (nat * nat) :=
  try_catch
    (Fs.access (movedTo op);;
     restorePath ← getUniqueFilePath (original op);
     Fs.rename (movedTo op) restorePath;;
     mret (S counts.1, counts.2))
    (λ _, mret (counts.1, S counts.2)).

(** The sweep over the category folders at the end of [undoOrganize]. *)
Definition sweep_category (targetDir : path) (_ : unit) (category : string) : M unit :=
  let categoryDir := Path.join targetDir category in
  try_catch
    (files ← Fs.readdir categoryDir;
     if bool_decide (length files = 0) then Fs.rmdir categoryDir else mret ())
    (λ _, mret ()).

(** [undoOrganize(targetDir)] *)
Definition undoOrganize (targetDir : Arg) : M UndoReport :=
  if blank targetDir then throw "Target directory must be a non-empty string"
  else
    try_catch
      (w ← get_world;
       let targetDir := Path.resolve (cwd w) (arg_string targetDir) in
       log ← readLog targetDir;
       match log with
       | None => mret NothingToUndo
       | Some (JObj _) => throw "TypeError: log.pop is not a function"
       | Some (JArr log) =>
           match last log with
           | None => mret NoOperations
           | Some lastBatch =>
               let log := removelast log in
               counts ← for_of (operations lastBatch) (0, 0) undo_operation;
               updateLog targetDir log;;
               for_of (Object_keys defaultCategories) ()
                 (sweep_category targetDir);;
               mret (Undone counts.1 counts.2)
           end
       end)
      (λ error, throw error).

(** * Vocabulary of the statements *)

Fixpoint has_char (c : Ascii.ascii) (s : string) : bool :=
  match s with
  | "" => false
  | String a s' => Ascii.eqb a c || has_char c s'
  end.

(** A name that is kept as it is by [path.join]. *)
Definition plain (n : string) : Prop := n ≠ "" ∧ n ≠ "." ∧ n ≠ "..".

Definition numbered_name (p : path) (k : nat) : string :=
  Path.basename p (Path.extname p)
    +:+ "(" +:+ Js.show_nat k +:+ ")" +:+ Path.extname p.

(** The sequence the claim speaks of: the path itself, then the path
    with [(1)], [(2)], ... put between the base name and the extension
    of its last component. *)
Definition candidate (p : path) (k : nat) : path :=
  match k with
  | 0 => p
  | S _ =>
      Path.dirname p ++
        [Path.basename p (Path.extname p)
           +:+ "(" +:+ pretty k +:+ ")" +:+ Path.extname p]
  end.

(** What [readLog] returns, read off the node at the log path. *)
Definition log_view (n : option node) : option json :=
  match n with
  | Some (File (LogJson log) _) => Some (JArr log)
  | Some (File (ConfigJson cfg) _) => Some (JObj cfg)
  | _ => None
  end.

(** Names a directory entry can have. *)
Definition valid_nameb (n : string) : bool :=
  negb (bool_decide (n = "" ∨ n = "." ∨ n = "..")) && negb (has_char "/" n).

(** A disk is tree shaped when every entry has a valid name and sits in
    a directory. *)
Definition tree_shapedb (σ : gmap path node) : bool :=
  forallb (λ k : path,
             match k with
             | [] => true
             | _ => valid_nameb (Path.lastname k) && Fs.is_dir σ (removelast k)
             end) (map_to_list σ).*1.

Definition tree_shaped (σ : gmap path node) : Prop := tree_shapedb σ = true.

(** The content of the file at a path, if a file is there. *)
Definition file_at (σ : gmap path node) (p : path) : option content :=
  match σ !! p with
  | Some (File body _) => Some body
  | _ => None
  end.

(** ** Sample worlds *)

Module Sample.

Definition march : Date := {| fullYear := 2024; monthIndex := 2 |}.

Definition file (text : string) : node := File (Data text) march.

Definition world (entries : list (path * node)) (lk : list path) : World :=
  {| disk := list_to_map entries; locked := list_to_set lk; journal := [];
     cwd := ["home"]; clock := march;
     clock_iso := "2024-03-01T00:00:00.000Z" |}.

Definition plainly : Options :=
  {| config := None; dryRun := false; interactive := false; byDate := false;
     ignore := None; verbose := false; recursive := false |}.

Definition recursively : Options :=
  {| config := None; dryRun := false; interactive := false; byDate := false;
     ignore := None; verbose := false; recursive := true |}.

Definition yes (src dst : path) : bool := true.

(** A home directory with three files to sort. *)
Definition desk : World :=
  world [ (["home"], Dir);
          (["home"; "photo.jpg"], file "p");
          (["home"; "doc.pdf"], file "d");
          (["home"; "song.mp3"], file "s") ] [].

(** The same, where the operating system refuses to move [doc.pdf]. *)
Definition desk_locked : World :=
  world [ (["home"], Dir);
          (["home"; "photo.jpg"], file "p");
          (["home"; "doc.pdf"], file "d") ] [ ["home"; "doc.pdf"] ].

(** The desk with the photo only. *)
Definition desk_photo : World :=
  world [ (["home"], Dir);
          (["home"; "photo.jpg"], file "p") ] [].

Definition dry : Options :=
  {| config := None; dryRun := true; interactive := false; byDate := false;
     ignore := None; verbose := false; recursive := false |}.

Definition nothing : Tally :=
  {| moved := []; processedCount := 0; skippedCount := 0 |}.

Definition doc : FileEntry :=
  {| name := "doc.pdf"; fpath := ["home"; "doc.pdf"]; mtime_of := march |}.

(** A file in a sub-directory. *)
Definition nested : World :=
  world [ (["home"], Dir);
          (["home"; "sub"], Dir);
          (["home"; "sub"; "old.txt"], file "o") ] [].

(** A plain file named like a category, below the root of the run. *)
Definition namesake : World :=
  world [ (["home"], Dir);
          (["home"; "sub"], Dir);
          (["home"; "sub"; "Images"], file "i") ] [].

(** Conflicting names. *)
Definition crowd : World :=
  world [ (["home"], Dir);
          (["home"; "a.txt"], file "0");
          (["home"; "a(1).txt"], file "1") ] [].

(** A log of one batch, an empty log, and a log that is not JSON. *)
Definition batch : Batch :=
  {| timestamp := "2024-02-29T12:00:00.000Z";
     operations := [ {| original := ["home"; "doc.pdf"];
                        movedTo := ["home"; "Documents"; "doc.pdf"] |} ] |}.

Definition logged : World :=
  world [ (["home"], Dir);
          (["home"; "Documents"], Dir);
          (["home"; "Documents"; "doc.pdf"], file "d");
          (["home"; ".segre-log.json"], File (LogJson [batch]) march) ] [].

Definition corrupt : World :=
  world [ (["home"], Dir);
          (["home"; ".segre-log.json"], file "{ not json") ] [].

End Sample.

(** The operations a list of rename calls stands for: one per call that
    succeeded, in order. *)
Definition done_moves (js : list Move) : list MoveOperation :=
  (λ m, {| original := mv_src m; movedTo := mv_dst m |})
    <$> filter (λ m, mv_done m = true) js.

(** The tally after a declined move, and after a move. *)
Definition skipped_one (t : Tally) : Tally :=
  {| moved := moved t; processedCount := processedCount t;
     skippedCount := S (skippedCount t) |}.

Definition moved_one (t : Tally) (src dst : path) : Tally :=
  {| moved := moved t ++ [{| original := src; movedTo := dst |}];
     processedCount := S (processedCount t);
     skippedCount := skippedCount t |}.

(** A computation keeps a relation between the world it starts in and
    the world it ends in. *)
Definition keeps (R : relation World) {A} (m : M A) : Prop :=
  ∀ w, R w (m w).2.

(** Nothing was renamed. *)
Definition same_journal (w w' : World) : Prop := journal w' = journal w.

(** Nothing was renamed, and every file is where it was, as it was. *)
Definition same_files (w w' : World) : Prop :=
  journal w' = journal w ∧ ∀ q, file_at (disk w') q = file_at (disk w) q.

(** What discovery promises of a file it hands to the move loop when
    the run is not recursive: it is a file directly under [targetDir],
    named neither like the log nor like a category. *)
Definition found_flat (σ : gmap path node) (targetDir : path)
    (categoryFolders : list string) (f : FileEntry) : Prop :=
  plain (name f)
  ∧ name f ≠ LOG_FILE_NAME
  ∧ (name f ∉ categoryFolders)
  ∧ fpath f = targetDir ++ [name f]
  ∧ (∃ body, σ !! fpath f = Some (File body (mtime_of f))).

(** And when the run is recursive: it is a file below [baseDir], not
    named like the log; no directory on the way down to it is named like
    the log or like a category; and directly under [baseDir] it is not
    named like a category either. *)
Definition found_deep (σ : gmap path node) (baseDir : path)
    (categoryFolders : list string) (f : FileEntry) : Prop :=
  plain (name f)
  ∧ name f ≠ LOG_FILE_NAME
  ∧ ∃ mid,
      fpath f = baseDir ++ mid ++ [name f]
      ∧ Forall (λ c, c ≠ LOG_FILE_NAME ∧ c ∉ categoryFolders) mid
      ∧ (mid = [] → name f ∉ categoryFolders)
      ∧ (∃ body, σ !! fpath f = Some (File body (mtime_of f))).

(** What a run of organize, from discovery on, leaves behind, in terms
    of the rename calls [js] it made: the journal grew by [js]; the
    report, when there is one, lists exactly the calls that succeeded
    and every source is a discovered file; a dry run changes nothing;
    a run without a successful rename leaves every file as it was; and a
    run that reports moves has put them, as the last batch, in the log
    of [targetDir]. *)
Record accounted (options : Options) (targetDir : path)
    (before : World) (result : outcome Report) (after : World)
    (js : list Move) : Prop := {
  acc_journal : journal after = journal before ++ js;
  acc_report : ∀ rep, result = Ok rep →
    moved (tally rep) = done_moves js
    ∧ processedCount (tally rep) = length (done_moves js)
    ∧ Forall (λ m, ∃ f, f ∈ filesToProcess rep ∧ mv_src m = fpath f) js;
  acc_dry : dryRun options = true → after = before;
  acc_idle : done_moves js = [] →
    ∀ q, file_at (disk after) q = file_at (disk before) q;
  acc_logged : ∀ rep, result = Ok rep → done_moves js ≠ [] →
    dryRun options = false
    ∧ ∃ earlier ts,
        file_at (disk after) (targetDir ++ [LOG_FILE_NAME])
        = Some (LogJson (earlier ++
                  [{| timestamp := ts; operations := done_moves js |}]))
}.

(** Every rename a computation makes goes to a destination that is free
    when the call is made. *)
Definition fresh_only {A} (m : M A) : Prop :=
  ∀ w, ∃ js,
    journal (m w).2 = journal w ++ js ∧ Forall (λ mv, mv_fresh mv = true) js.

(** The log a directory holds before a batch is saved: what is parsed
    from the log file, and nothing when the file is missing or is not
    JSON. *)
Definition prior_log (σ : gmap path node) (targetDir : path) : list Batch :=
  match σ !! (targetDir ++ [LOG_FILE_NAME]) with
  | Some (File (LogJson log) _) => log
  | _ => []
  end.

(** Whether [saveLog] can write: the target is a directory and the log
    path holds neither a directory nor a JSON object. *)
Definition writable_log (σ : gmap path node) (targetDir : path) : bool :=
  Fs.is_dir σ targetDir &&
  match σ !! (targetDir ++ [LOG_FILE_NAME]) with
  | Some Dir | Some (File (ConfigJson _) _) => false
  | _ => true
  end.

(** Between two worlds, nothing was renamed, nothing was added or
    changed, and every file is still there: at most directories are
    gone. *)
Definition only_dirs_removed (w w' : World) : Prop :=
  journal w' = journal w
  ∧ disk w' ⊆ disk w
  ∧ ∀ q body mtime,
      disk w !! q = Some (File body mtime) →
      disk w' !! q = Some (File body mtime).

(** The files discovery is after, below [baseDir] when the run is
    recursive ([deep]) and directly in it otherwise: a file [f] at
    [baseDir/mid/name] that is not the log, with no directory on the
    way named like the log or a category, not named like a category
    when it lies directly in [baseDir], and with no ignored path on the
    way from [baseDir] down to it. *)
Definition wanted (σ : gmap path node) (baseDir : path)
    (categoryFolders ignorePatterns : list string) (deep : bool)
    (f : FileEntry) : Prop :=
  ∃ mid,
    fpath f = baseDir ++ mid ++ [name f]
    ∧ (deep = false → mid = [])
    ∧ (∃ body, σ !! fpath f = Some (File body (mtime_of f)))
    ∧ name f ≠ LOG_FILE_NAME
    ∧ Forall (λ c, c ≠ LOG_FILE_NAME ∧ c ∉ categoryFolders) mid
    ∧ (mid = [] → name f ∉ categoryFolders)
    ∧ ∀ pre, pre ≠ [] → pre `prefix_of` mid ++ [name f] →
        shouldIgnore (baseDir ++ pre) ignorePatterns = false.

(** The category map a run works with: the built-in one, or what
    [loadConfig] makes of the file named by [--config]. *)
Definition chosen_categories (options : Options) (w : World) : CategoryMap :=
  match config options with
  | None | Some "" => defaultCategories
  | Some configPath =>
      match (loadConfig configPath w).1 with
      | Ok categories => categories
      | _ => defaultCategories
      end
  end.

(** The patterns of [--ignore]. *)
Definition chosen_patterns (options : Options) : list string :=
  match ignore options with
  | None | Some "" => []
  | Some patterns => Js.trim <$> Js.split "," patterns
  end.





(** * Properties *)

(** ** The category resolver *)

Section categories.

Lemma lower_ascii_idemp a : Js.lower_ascii (Js.lower_ascii a) = Js.lower_ascii a.
Proof. by destruct a as [[] [] [] [] [] [] [] []]. Qed.

Lemma toLowerCase_idemp s : Js.toLowerCase (Js.toLowerCase s) = Js.toLowerCase s.
Proof. induction s as [|a s IH]; simpl; [done|]. by rewrite lower_ascii_idemp, IH. Qed.

Lemma arr_includes_true xs x : Js.arr_includes xs x = true ↔ x ∈ xs.
Proof. unfold Js.arr_includes. by rewrite bool_decide_eq_true. Qed.

Lemma arr_includes_false xs x : Js.arr_includes xs x = false ↔ x ∉ xs.
Proof. unfold Js.arr_includes. by rewrite bool_decide_eq_false. Qed.

(** The loop returns the category of the first entry that lists the
    lower-cased extension, and the fallback when there is none. *)
Lemma getCategory_loop_first e (categories : CategoryMap) :
  (∃ i exts,
      categories !! i = Some (getCategory_loop e categories, exts)
      ∧ Js.toLowerCase e ∈ exts
      ∧ ∀ j c' exts', j < i → categories !! j = Some (c', exts') →
                      Js.toLowerCase e ∉ exts')
  ∨ (getCategory_loop e categories = "Others"
     ∧ ∀ c exts, (c, exts) ∈ categories → Js.toLowerCase e ∉ exts).
Proof.
  induction categories as [|[c exts] rest IH]; simpl.
  - right. split; [done|]. intros ?? Hin. by apply elem_of_nil in Hin.
  - destruct (Js.arr_includes exts (Js.toLowerCase e)) eqn:Hinc.
    + left. exists 0, exts. apply arr_includes_true in Hinc.
      split_and!; [done|done|]. intros; lia.
    + apply arr_includes_false in Hinc.
      destruct IH as [(i & exts' & Hi & Hin & Hfirst)|[Hothers Hnone]].
      * left. exists (S i), exts'. split_and!; [done|done|].
        intros [|j] c' exts'' Hlt Hj; simplify_eq/=; [done|].
        eapply Hfirst; [|done]. lia.
      * right. split; [done|]. intros c' exts' Hin.
        apply elem_of_cons in Hin as [?|?]; simplify_eq; eauto.
Qed.

Lemma getCategory_loop_lower e categories :
  getCategory_loop (Js.toLowerCase e) categories = getCategory_loop e categories.
Proof.
  induction categories as [|[c exts] rest IH]; simpl; [done|].
  by rewrite toLowerCase_idemp, IH.
Qed.

Lemma getCategory_nonempty e categories :
  e ≠ "" → getCategory (Some e) categories = getCategory_loop e categories.
Proof. by destruct e. Qed.

Lemma getCategory_lower e categories :
  getCategory (Some (Js.toLowerCase e)) categories = getCategory (Some e) categories.
Proof.
  destruct e as [|a e]; [done|].
  rewrite !getCategory_nonempty by done.
  apply getCategory_loop_lower.
Qed.

(** C4. For every extension and every category map, [getCategory]
    lower-cases the extension and walks the map in its own order: the
    result is the category of the first entry whose extensions hold the
    lower-cased extension, or ["Others"] when no entry does; a missing
    or empty extension gives ["Others"]; and an extension resolves as
    its lower-cased form does, so [".JPG"] resolves as [".jpg"]. *)
Theorem getCategory_contract (categories : CategoryMap) :
  (∀ e, e ≠ "" →
     (∃ i exts,
         categories !! i = Some (getCategory (Some e) categories, exts)
         ∧ Js.toLowerCase e ∈ exts
         ∧ ∀ j c' exts', j < i → categories !! j = Some (c', exts') →
                         Js.toLowerCase e ∉ exts')
     ∨ (getCategory (Some e) categories = "Others"
        ∧ ∀ c exts, (c, exts) ∈ categories → Js.toLowerCase e ∉ exts))
  ∧ getCategory None categories = "Others"
  ∧ getCategory (Some "") categories = "Others"
  ∧ (∀ e, getCategory (Some (Js.toLowerCase e)) categories
          = getCategory (Some e) categories)
  ∧ getCategory (Some ".JPG") categories = getCategory (Some ".jpg") categories.
Proof.
  split_and!; [|done|done|intros e; apply getCategory_lower|].
  - intros e He. rewrite getCategory_nonempty by done.
    apply getCategory_loop_first.
  - by rewrite <-(getCategory_lower ".JPG").
Qed.

(** The contract at the built-in categories: [".JPG"] is an image, at
    the fifth entry. *)
Lemma getCategory_contract_witness :
  getCategory (Some ".JPG") defaultCategories = "Images"
  ∧ getCategory (Some ".JPG") defaultCategories
    = getCategory (Some ".jpg") defaultCategories.
Proof.
  split; [reflexivity|].
  apply (getCategory_contract defaultCategories).
Defined.

End categories.

(** ** Running computations *)

Section running.

Context {A B : Type}.

Lemma bind_run (m : M A) (f : A → M B) (w : World) :
  (m ≫= f) w =
  match m w with
  | (Ok a, w') => f a w'
  | (Throw e, w') => (Throw e, w')
  | (Spin, w') => (Spin, w')
  end.
Proof. reflexivity. Qed.

Lemma bind_ok (m : M A) (f : A → M B) w a w' :
  m w = (Ok a, w') → (m ≫= f) w = f a w'.
Proof. intros H. by rewrite bind_run, H. Qed.

Lemma try_catch_run (m : M A) (h : string → M A) (w : World) :
  try_catch m h w =
  match m w with
  | (Throw e, w') => h e w'
  | r => r
  end.
Proof. reflexivity. Qed.

(** A handler that throws the error again changes nothing. *)
Lemma try_catch_rethrow (m : M A) (w : World) :
  try_catch m (λ error, throw error) w = m w.
Proof. rewrite try_catch_run. by destruct (m w) as [[?|?|] ?]. Qed.

End running.

Lemma for_of_cons_ok {A B} (x : A) xs (acc acc' : B) body w w' :
  body acc x w = (Ok acc', w') →
  for_of (x :: xs) acc body w = for_of xs acc' body w'.
Proof. intros H. simpl. by rewrite (bind_ok _ _ _ _ _ H). Qed.

(** ** The unique path resolver *)

Section unique.

Lemma has_char_app c s1 s2 :
  has_char c (s1 +:+ s2) = has_char c s1 || has_char c s2.
Proof.
  induction s1 as [|a s1 IH]; [done|].
  change (String a s1 +:+ s2) with (String a (s1 +:+ s2)). simpl.
  by rewrite IH, orb_assoc.
Qed.

Lemma join_plain d n : plain n → Path.join d n = d ++ [n].
Proof.
  intros (?&?&?). unfold Path.join.
  rewrite bool_decide_eq_false_2 by (intros [?|?]; done).
  by rewrite bool_decide_eq_false_2.
Qed.

Lemma has_paren_plain n : has_char "(" n = true → plain n.
Proof. intros H. split_and!; intros ->; done. Qed.

Lemma numbered_name_plain p k : plain (numbered_name p k).
Proof.
  apply has_paren_plain. unfold numbered_name.
  rewrite has_char_app.
  change ("(" +:+ ?s) with (String "("%char s). simpl.
  by rewrite orb_true_r.
Qed.

Lemma numbered_eq p k : numbered p k = Path.dirname p ++ [numbered_name p k].
Proof. unfold numbered. apply join_plain, numbered_name_plain. Qed.

Lemma string_length_app s1 s2 :
  String.length (s1 +:+ s2) = String.length s1 + String.length s2.
Proof.
  induction s1 as [|a s1 IH]; [done|].
  change (String a s1 +:+ s2) with (String a (s1 +:+ s2)). simpl. by rewrite IH.
Qed.

Lemma string_app_inv_tail s1 s2 t : s1 +:+ t = s2 +:+ t → s1 = s2.
Proof.
  revert s2. induction s1 as [|a s1 IH]; intros [|b s2] H.
  - done.
  - apply (f_equal String.length) in H. rewrite !string_length_app in H.
    simpl in H. lia.
  - apply (f_equal String.length) in H. rewrite !string_length_app in H.
    simpl in H. lia.
  - change (String a (s1 +:+ t) = String b (s2 +:+ t)) in H.
    simplify_eq. f_equal. by apply IH.
Qed.

Lemma numbered_inj p : Inj (=) (=) (numbered p).
Proof.
  intros k1 k2. rewrite !numbered_eq. intros H.
  apply app_inv_head in H. simplify_eq. unfold numbered_name in H.
  apply (inj (String.app _)) in H.
  change ("(" +:+ ?s) with (String "("%char s) in H. simplify_eq.
  apply string_app_inv_tail in H. unfold Js.show_nat in H.
  by apply pretty_nat_inj in H.
Qed.

(** More distinct paths than the disk has entries cannot all exist. *)
Lemma crowded (σ : gmap path node) (ps : list path) :
  NoDup ps → (∀ p, p ∈ ps → p ≠ [] ∧ Fs.exists_at σ p = true) →
  length ps ≤ size σ.
Proof.
  intros Hnd Hall.
  rewrite <-(length_map_to_list σ), <-(length_fmap fst).
  apply submseteq_length, NoDup_submseteq; [done|].
  intros p [Hne Hex]%Hall. unfold Fs.exists_at in Hex.
  apply bool_decide_eq_true in Hex as [n Hn].
  destruct p as [|c p]; [done|]. simpl in Hn.
  apply list_elem_of_fmap. exists (c :: p, n). split; [done|].
  by apply elem_of_map_to_list.
Qed.

Lemma candidate_S p k : candidate p (S k) = numbered p (S k).
Proof. by rewrite numbered_eq. Qed.

Lemma unique_turn (u next : path) (w : World) :
  try_catch (Fs.access u;; mret (Some next)) (λ _, mret None) w
  = (Ok (if Fs.exists_at (disk w) u then Some next else None), w).
Proof.
  rewrite try_catch_run, bind_run. unfold Fs.access.
  by destruct (Fs.exists_at (disk w) u).
Qed.

Lemma getUniqueFilePath_loop_first (p : path) (w : World) fuel k :
  (∀ j, 1 ≤ j < k → Fs.exists_at (disk w) (candidate p j) = true) →
  size (disk w) + 2 ≤ fuel + k →
  ∃ n, k ≤ n
       ∧ getUniqueFilePath_loop fuel p (candidate p k) (S k) w
         = (Ok (candidate p n), w)
       ∧ Fs.exists_at (disk w) (candidate p n) = false
       ∧ ∀ j, k ≤ j < n → Fs.exists_at (disk w) (candidate p j) = true.
Proof.
  revert k. induction fuel as [|fuel IH]; intros k Hbelow Hfuel.
  - exfalso.
    assert (length (candidate p <$> seq 1 (k - 1)) ≤ size (disk w)) as Hlen.
    { apply crowded.
      - apply NoDup_fmap_2_strong; [|apply NoDup_seq].
        intros i j [? ?]%elem_of_seq [? ?]%elem_of_seq.
        destruct i as [|i]; [lia|]. destruct j as [|j]; [lia|].
        rewrite !candidate_S. apply numbered_inj.
      - intros q (j & -> & [? ?]%elem_of_seq)%list_elem_of_fmap.
        split; [|apply Hbelow; lia].
        destruct j as [|j]; [lia|]. rewrite candidate_S, numbered_eq.
        by destruct (Path.dirname p). }
    rewrite length_fmap, length_seq in Hlen. lia.
  - simpl. rewrite bind_run, unique_turn.
    destruct (Fs.exists_at (disk w) (candidate p k)) eqn:Hk.
    + rewrite <-candidate_S.
      destruct (IH (S k)) as (n & Hn & Hrun & Hfree & Hbusy).
      { intros j Hj. destruct (decide (j = k)) as [->|]; [done|].
        apply Hbelow. lia. }
      { lia. }
      exists n. split_and!; [lia|done|done|].
      intros j Hj. destruct (decide (j = k)) as [->|]; [done|].
      apply Hbusy. lia.
    + exists k. split_and!; [done|done|done|]. intros; lia.
Qed.

(** The resolver ends, leaves the world as it is, and returns the first
    candidate that is not on disk. *)
Lemma getUniqueFilePath_first (p : path) (w : World) :
  ∃ n, getUniqueFilePath p w = (Ok (candidate p n), w)
       ∧ Fs.exists_at (disk w) (candidate p n) = false
       ∧ ∀ j, j < n → Fs.exists_at (disk w) (candidate p j) = true.
Proof.
  destruct (getUniqueFilePath_loop_first p w (2 + size (disk w)) 0)
    as (n & _ & Hrun & Hfree & Hbusy); [intros; lia|lia|].
  exists n. split_and!; [done|done|]. intros j Hj. apply Hbusy. lia.
Qed.

(** C3. For every desired path [p] and every disk, the resolver returns
    the first path of the sequence [p], [p] with [(1)] before the
    extension, [p] with [(2)], ... that is not on disk; a path that is
    not on disk comes back unchanged; and with [a.txt] and [a(1).txt]
    on disk but not [a(2).txt], resolving [a.txt] gives [a(2).txt]. *)
Theorem getUniqueFilePath_first_free :
  (∀ (p : path) (w : World),
     ∃ n, getUniqueFilePath p w = (Ok (candidate p n), w)
          ∧ Fs.exists_at (disk w) (candidate p n) = false
          ∧ ∀ j, j < n → Fs.exists_at (disk w) (candidate p j) = true)
  ∧ (∀ (p : path) (w : World),
       Fs.exists_at (disk w) p = false → getUniqueFilePath p w = (Ok p, w))
  ∧ (∀ (d : path) (w : World),
       Fs.exists_at (disk w) (d ++ ["a.txt"]) = true →
       Fs.exists_at (disk w) (d ++ ["a(1).txt"]) = true →
       Fs.exists_at (disk w) (d ++ ["a(2).txt"]) = false →
       getUniqueFilePath (d ++ ["a.txt"]) w = (Ok (d ++ ["a(2).txt"]), w)).
Proof.
  split_and!.
  - apply getUniqueFilePath_first.
  - intros p w Hp.
    destruct (getUniqueFilePath_first p w) as (n & Hrun & _ & Hbusy).
    destruct n as [|n]; [done|].
    specialize (Hbusy 0 ltac:(lia)). simpl in Hbusy. congruence.
  - intros d w H0 H1 H2.
    assert (∀ k, candidate (d ++ ["a.txt"]) (S k)
                 = d ++ ["a(" +:+ pretty (S k) +:+ ").txt"]) as Hc.
    { intros k. unfold candidate, Path.dirname, Path.extname, Path.basename,
        Path.lastname. by rewrite removelast_last, last_last. }
    destruct (getUniqueFilePath_first (d ++ ["a.txt"]) w)
      as (n & Hrun & Hfree & Hbusy).
    destruct n as [|[|[|n]]].
    + simpl in Hfree. congruence.
    + rewrite Hc in Hfree. change (pretty 1) with "1" in Hfree.
      change ("a(" +:+ "1" +:+ ").txt") with "a(1).txt" in Hfree. congruence.
    + by rewrite Hrun, Hc.
    + specialize (Hbusy 2 ltac:(lia)). rewrite Hc in Hbusy.
      change ("a(" +:+ pretty 2 +:+ ").txt") with "a(2).txt" in Hbusy.
      congruence.
Qed.

(** The resolver on a disk that holds [a.txt] and [a(1).txt]. *)
Lemma getUniqueFilePath_first_free_witness :
  getUniqueFilePath ["home"; "a.txt"] Sample.crowd
    = (Ok ["home"; "a(2).txt"], Sample.crowd)
  ∧ getUniqueFilePath ["home"; "b.txt"] Sample.crowd
    = (Ok ["home"; "b.txt"], Sample.crowd).
Proof.
  destruct getUniqueFilePath_first_free as (_ & Hfree & Hseq).
  split.
  - apply (Hseq ["home"] Sample.crowd); reflexivity.
  - apply (Hfree ["home"; "b.txt"] Sample.crowd); reflexivity.
Defined.

End unique.

(** ** The operation log *)

Section logger.

Lemma LOG_FILE_NAME_plain : plain LOG_FILE_NAME.
Proof. by split_and!. Qed.

Lemma logPath_eq targetDir :
  Path.join targetDir LOG_FILE_NAME = targetDir ++ [LOG_FILE_NAME].
Proof. apply join_plain, LOG_FILE_NAME_plain. Qed.

Lemma node_at_snoc (σ : gmap path node) d c : Fs.node_at σ (d ++ [c]) = σ !! (d ++ [c]).
Proof. by destruct d. Qed.

Lemma dirname_snoc d c : Path.dirname (d ++ [c]) = d.
Proof. apply removelast_last. Qed.

Lemma readLog_run targetDir w :
  readLog targetDir w
  = (Ok (log_view (disk w !! (targetDir ++ [LOG_FILE_NAME]))), w).
Proof.
  unfold readLog. rewrite logPath_eq, try_catch_run, bind_run.
  unfold Fs.readFile. rewrite node_at_snoc.
  destruct (disk w !! (targetDir ++ [LOG_FILE_NAME])) as [[[]|]|]; done.
Qed.

(** C9. Writing back a log with [updateLog] into an existing directory:
    a non-empty log ends up as the exact content of the log file
    (unless a directory sits at its path), an empty log makes the call
    delete the log file, and whatever the call does, the log path does
    not hold a file with an empty array afterwards; no other path is
    touched. *)
Theorem updateLog_persisted (targetDir : path) (log : list Batch) (w : World) :
  Fs.is_dir (disk w) targetDir = true →
  let logPath := targetDir ++ [LOG_FILE_NAME] in
  let after := (updateLog targetDir log w).2 in
  (log ≠ [] → disk w !! logPath ≠ Some Dir →
     (updateLog targetDir log w).1 = Ok ()
     ∧ disk after !! logPath = Some (File (LogJson log) (clock w)))
  ∧ (log = [] → (∃ body mtime, disk w !! logPath = Some (File body mtime)) →
       (updateLog targetDir log w).1 = Ok ()
       ∧ disk after !! logPath = None)
  ∧ (∀ mtime, disk after !! logPath ≠ Some (File (LogJson []) mtime))
  ∧ (∀ q, q ≠ logPath → disk after !! q = disk w !! q).
Proof.
  intros Hdir logPath after. subst after.
  unfold updateLog. rewrite logPath_eq. fold logPath.
  assert (Fs.node_at (disk w) logPath = disk w !! logPath) as Hat
    by apply node_at_snoc.
  assert (Path.dirname logPath = targetDir) as Hup by apply dirname_snoc.
  destruct log as [|b log]; simpl.
  - unfold Fs.unlink. rewrite Hat.
    destruct (disk w !! logPath) as [[body mtime|]|] eqn:Hn; simpl.
    + split_and!; [done| |intros; by rewrite lookup_delete_eq|].
      * intros _ _. by rewrite lookup_delete_eq.
      * intros q Hq. by rewrite lookup_delete_ne.
    + split_and!; [done|by intros _ (?&?&?)|by rewrite Hn|done].
    + split_and!; [done|by intros _ (?&?&?)|by rewrite Hn|done].
  - unfold Fs.writeFile. rewrite Hup, Hdir, Hat. simpl.
    destruct (disk w !! logPath) as [[body mtime|]|] eqn:Hn; simpl.
    + split_and!; [by rewrite lookup_insert_eq|done| |].
      * intros mtime'. by rewrite lookup_insert_eq.
      * intros q Hq. by rewrite lookup_insert_ne.
    + split_and!; [done|done|by rewrite Hn|done].
    + split_and!; [by rewrite lookup_insert_eq|done| |].
      * intros mtime'. by rewrite lookup_insert_eq.
      * intros q Hq. by rewrite lookup_insert_ne.
Qed.

(** Popping the only batch of a log deletes the file; writing a batch
    back stores it. *)
Lemma updateLog_persisted_witness :
  disk (updateLog ["home"] [] Sample.logged).2
    !! ["home"; ".segre-log.json"] = None
  ∧ disk (updateLog ["home"] [Sample.batch] Sample.corrupt).2
      !! ["home"; ".segre-log.json"]
    = Some (File (LogJson [Sample.batch]) Sample.march).
Proof.
  split.
  - apply (updateLog_persisted ["home"] [] Sample.logged); [reflexivity|done|].
    by eexists _, _.
  - by apply (updateLog_persisted ["home"] [Sample.batch] Sample.corrupt).
Defined.

(** [readLog] answers [null] when nothing is at the log path and when
    the text there is not JSON. *)
Lemma readLog_absent targetDir w :
  disk w !! (targetDir ++ [LOG_FILE_NAME]) = None →
  readLog targetDir w = (Ok None, w).
Proof. intros H. by rewrite readLog_run, H. Qed.

Lemma readLog_corrupt targetDir w text mtime :
  disk w !! (targetDir ++ [LOG_FILE_NAME]) = Some (File (Data text) mtime) →
  readLog targetDir w = (Ok None, w).
Proof. intros H. by rewrite readLog_run, H. Qed.

(** With nothing to read, [undoOrganize] stops at once. *)
Lemma undoOrganize_no_log s w :
  blank (Str s) = false →
  log_view (disk w !! (Path.resolve (cwd w) s ++ [LOG_FILE_NAME])) = None →
  undoOrganize (Str s) w = (Ok NothingToUndo, w).
Proof.
  intros Hs Hlog. unfold undoOrganize. rewrite Hs, try_catch_rethrow.
  rewrite bind_run. simpl. by rewrite bind_run, readLog_run, Hlog.
Qed.

(** C10. [readLog] returns [null] both when there is no log file and
    when the log file holds text that does not parse as JSON; so
    [undoOrganize] on a directory whose log file is corrupt reports
    that there is nothing to undo, returns without an error, and leaves
    the whole world, the corrupt file included, as it was. *)
Theorem readLog_null_on_corrupt :
  (∀ targetDir w,
     disk w !! (targetDir ++ [LOG_FILE_NAME]) = None →
     readLog targetDir w = (Ok None, w))
  ∧ (∀ targetDir w text mtime,
       disk w !! (targetDir ++ [LOG_FILE_NAME]) = Some (File (Data text) mtime) →
       readLog targetDir w = (Ok None, w))
  ∧ (∀ s w text mtime,
       blank (Str s) = false →
       disk w !! (Path.resolve (cwd w) s ++ [LOG_FILE_NAME])
         = Some (File (Data text) mtime) →
       undoOrganize (Str s) w = (Ok NothingToUndo, w)).
Proof.
  split_and!.
  - apply readLog_absent.
  - apply readLog_corrupt.
  - intros s w text mtime Hs Hlog. apply undoOrganize_no_log; [done|].
    by rewrite Hlog.
Qed.

(** Undo in the home directory whose log is not JSON. *)
Lemma readLog_null_on_corrupt_witness :
  undoOrganize (Str "/home") Sample.corrupt = (Ok NothingToUndo, Sample.corrupt)
  ∧ readLog ["home"] Sample.corrupt = (Ok None, Sample.corrupt).
Proof.
  destruct readLog_null_on_corrupt as (_ & Hread & Hundo).
  split.
  - by apply (Hundo "/home" Sample.corrupt "{ not json" Sample.march).
  - by apply (Hread ["home"] Sample.corrupt "{ not json" Sample.march).
Defined.

End logger.

(** ** Tree-shaped disks *)

Section shape.

Lemma valid_name_plain n : valid_nameb n = true → plain n.
Proof.
  unfold valid_nameb. intros [H _]%andb_true_iff.
  apply negb_true_iff, bool_decide_eq_false in H.
  split_and!; intros ->; apply H; auto.
Qed.

(** An entry of a tree-shaped disk has a valid name and a directory
    above it. *)
Lemma tree_shaped_entry (σ : gmap path node) d c n :
  tree_shaped σ → σ !! (d ++ [c]) = Some n →
  valid_nameb c = true ∧ Fs.is_dir σ d = true.
Proof.
  intros Hσ Hn. unfold tree_shaped, tree_shapedb in Hσ.
  rewrite forallb_forall in Hσ.
  assert (valid_nameb (Path.lastname (d ++ [c]))
          && Fs.is_dir σ (removelast (d ++ [c])) = true) as Hk.
  { specialize (Hσ (d ++ [c])).
    destruct (d ++ [c]) as [|c' k] eqn:Hk; [by destruct d|].
    apply Hσ. apply list_elem_of_In, list_elem_of_fmap.
    exists (c' :: k, n). split; [done|]. by apply elem_of_map_to_list. }
  unfold Path.lastname in Hk. rewrite last_last, removelast_last in Hk.
  by apply andb_true_iff in Hk.
Qed.

Lemma is_dir_true (σ : gmap path node) p :
  Fs.is_dir σ p = true ↔ Fs.node_at σ p = Some Dir.
Proof.
  unfold Fs.is_dir. destruct (Fs.node_at σ p) as [[]|]; naive_solver.
Qed.

Lemma exists_at_true (σ : gmap path node) p :
  Fs.exists_at σ p = true ↔ is_Some (Fs.node_at σ p).
Proof. unfold Fs.exists_at. by rewrite bool_decide_eq_true. Qed.

Lemma exists_at_false (σ : gmap path node) p :
  Fs.exists_at σ p = false ↔ Fs.node_at σ p = None.
Proof.
  unfold Fs.exists_at. rewrite bool_decide_eq_false.
  by rewrite eq_None_not_Some.
Qed.

End shape.

(** ** Preconditions of a run *)

Section preconditions.

Lemma organizeDirectory_blank prompt arg options w :
  blank arg = true →
  organizeDirectory prompt arg options w
  = (Throw "Target directory must be a non-empty string", w).
Proof. intros H. unfold organizeDirectory. by rewrite H. Qed.

Lemma organizeDirectory_missing prompt s options w :
  blank (Str s) = false →
  Fs.exists_at (disk w) (Path.resolve (cwd w) s) = false →
  organizeDirectory prompt (Str s) options w
  = (Throw "Directory does not exist", w).
Proof.
  intros Hs Hex. unfold organizeDirectory.
  rewrite Hs, try_catch_rethrow, bind_run. simpl.
  rewrite bind_run, try_catch_run. unfold Fs.access. by rewrite Hex.
Qed.

Lemma organizeDirectory_not_a_directory prompt s options w body mtime :
  blank (Str s) = false →
  Fs.node_at (disk w) (Path.resolve (cwd w) s) = Some (File body mtime) →
  organizeDirectory prompt (Str s) options w
  = (Throw "Path is not a directory", w).
Proof.
  intros Hs Hn. unfold organizeDirectory.
  rewrite Hs, try_catch_rethrow, bind_run. simpl.
  rewrite bind_run, try_catch_run. unfold Fs.access.
  rewrite (proj2 (exists_at_true _ _)) by (by rewrite Hn).
  rewrite bind_run. unfold Fs.stat. by rewrite Hn.
Qed.

Lemma undoOrganize_blank arg w :
  blank arg = true →
  undoOrganize arg w
  = (Throw "Target directory must be a non-empty string", w).
Proof. intros H. unfold undoOrganize. by rewrite H. Qed.

Lemma undoOrganize_not_a_directory s w :
  tree_shaped (disk w) →
  blank (Str s) = false →
  Fs.is_dir (disk w) (Path.resolve (cwd w) s) = false →
  undoOrganize (Str s) w = (Ok NothingToUndo, w).
Proof.
  intros Hσ Hs Hdir. apply undoOrganize_no_log; [done|].
  destruct (disk w !! (Path.resolve (cwd w) s ++ [LOG_FILE_NAME]))
    as [n|] eqn:Hn; [|done].
  apply (tree_shaped_entry _ _ _ _ Hσ) in Hn as [_ Hd]. congruence.
Qed.

(** C5, as the code has it.  [organizeDirectory] throws at once, and
    leaves the world as it is, when its directory argument is blank or
    not a string, names a path that does not exist, or names a file.
    [undoOrganize] does so for a blank or non-string argument only: on
    a tree-shaped disk, a path that does not exist or is not a
    directory makes it report that there is nothing to undo, without an
    error and without touching the world. *)
Theorem precondition_errors :
  (∀ prompt arg options w,
     blank arg = true →
     organizeDirectory prompt arg options w
     = (Throw "Target directory must be a non-empty string", w))
  ∧ (∀ prompt s options w,
       blank (Str s) = false →
       Fs.exists_at (disk w) (Path.resolve (cwd w) s) = false →
       organizeDirectory prompt (Str s) options w
       = (Throw "Directory does not exist", w))
  ∧ (∀ prompt s options w body mtime,
       blank (Str s) = false →
       Fs.node_at (disk w) (Path.resolve (cwd w) s) = Some (File body mtime) →
       organizeDirectory prompt (Str s) options w
       = (Throw "Path is not a directory", w))
  ∧ (∀ arg w,
       blank arg = true →
       undoOrganize arg w
       = (Throw "Target directory must be a non-empty string", w))
  ∧ (∀ s w,
       tree_shaped (disk w) →
       blank (Str s) = false →
       Fs.is_dir (disk w) (Path.resolve (cwd w) s) = false →
       undoOrganize (Str s) w = (Ok NothingToUndo, w)).
Proof.
  split_and!.
  - apply organizeDirectory_blank.
  - apply organizeDirectory_missing.
  - apply organizeDirectory_not_a_directory.
  - apply undoOrganize_blank.
  - apply undoOrganize_not_a_directory.
Qed.

(** The five cases on the sample desk. *)
Lemma precondition_errors_witness :
  organizeDirectory Sample.yes (Str "   ") Sample.plainly Sample.desk
    = (Throw "Target directory must be a non-empty string", Sample.desk)
  ∧ organizeDirectory Sample.yes (Str "missing") Sample.plainly Sample.desk
    = (Throw "Directory does not exist", Sample.desk)
  ∧ organizeDirectory Sample.yes (Str "doc.pdf") Sample.plainly Sample.desk
    = (Throw "Path is not a directory", Sample.desk)
  ∧ undoOrganize Nullish Sample.desk
    = (Throw "Target directory must be a non-empty string", Sample.desk)
  ∧ undoOrganize (Str "doc.pdf") Sample.desk = (Ok NothingToUndo, Sample.desk).
Proof.
  destruct precondition_errors as (H1 & H2 & H3 & H4 & H5).
  split_and!.
  - by apply H1.
  - by apply H2.
  - by apply (H3 _ _ _ _ (Data "d") Sample.march).
  - by apply H4.
  - by apply H5.
Defined.

(** C5 as stated fails for undo: the directory [/home/missing] does
    not exist, and [undoOrganize] returns normally instead of raising
    an error. *)
Lemma undoOrganize_missing_directory_returns :
  Fs.exists_at (disk Sample.desk) (Path.resolve (cwd Sample.desk) "missing") = false
  ∧ undoOrganize (Str "missing") Sample.desk = (Ok NothingToUndo, Sample.desk)
  ∧ ¬ (∃ msg, (undoOrganize (Str "missing") Sample.desk).1 = Throw msg).
Proof.
  split_and!; [reflexivity|reflexivity|]. by intros [msg Hmsg].
Qed.

End preconditions.

(** ** Directory creation and renaming *)

Section primitives.

(** [mkdir -p] leaves alone every path longer than the one it makes. *)
Lemma mkdir_walk_longer (base rest : path) (σ : gmap path node) (q : path) :
  length base + length rest < length q →
  (Fs.mkdir_walk base rest σ).2 !! q = σ !! q.
Proof.
  revert base σ. induction rest as [|c rest IH]; intros base σ Hlen; [done|].
  simpl in *.
  assert (length (base ++ [c]) + length rest < length q) as Hlen'
    by (rewrite length_app; simpl; lia).
  destruct (σ !! (base ++ [c])) as [[]|] eqn:Hp; [done|by apply IH|].
  rewrite IH by done. apply lookup_insert_ne. intros <-.
  rewrite length_app in Hlen. simpl in Hlen. lia.
Qed.

(** [mkdir -p] neither creates nor changes a file. *)
Lemma mkdir_walk_files (base rest : path) (σ : gmap path node) (q : path) :
  file_at (Fs.mkdir_walk base rest σ).2 q = file_at σ q.
Proof.
  revert base σ. induction rest as [|c rest IH]; intros base σ; [done|].
  simpl. destruct (σ !! (base ++ [c])) as [[]|] eqn:Hp; [done|by apply IH|].
  rewrite IH. unfold file_at.
  destruct (decide (base ++ [c] = q)) as [<-|Hne].
  - by rewrite lookup_insert_eq, Hp.
  - by rewrite lookup_insert_ne.
Qed.

Lemma mkdir_p_run d w :
  Fs.mkdir_p d w
  = ((if (Fs.mkdir_walk [] d (disk w)).1 then Ok () else Throw "EEXIST"),
     with_disk (Fs.mkdir_walk [] d (disk w)).2 w).
Proof. unfold Fs.mkdir_p. by destruct (Fs.mkdir_walk [] d (disk w)) as [[] ?]. Qed.

Lemma rename_run src dst w :
  Fs.rename src dst w
  = match Fs.rename_disk (locked w) src dst (disk w) with
    | inr σ' =>
        (Ok (), with_move {| mv_src := src; mv_dst := dst;
                             mv_fresh := negb (Fs.exists_at (disk w) dst);
                             mv_done := true |} (with_disk σ' w))
    | inl e =>
        (Throw e, with_move {| mv_src := src; mv_dst := dst;
                               mv_fresh := negb (Fs.exists_at (disk w) dst);
                               mv_done := false |} w)
    end.
Proof. reflexivity. Qed.

(** The candidates of a path below [d] are below [d] as well. *)
Lemma candidate_sibling (d : path) nm n :
  plain nm → ∃ x, plain x ∧ candidate (d ++ [nm]) n = d ++ [x].
Proof.
  intros Hnm. destruct n as [|n]; [by exists nm|].
  exists (numbered_name (d ++ [nm]) (S n)). split.
  - apply numbered_name_plain.
  - by rewrite candidate_S, numbered_eq, dirname_snoc.
Qed.

(** Renaming a file to a free path moves that file and nothing else. *)
Lemma rename_disk_file_fresh (lk : gset path) (src dst : path)
    (σ σ' : gmap path node) body mtime :
  σ !! src = Some (File body mtime) →
  Fs.exists_at σ dst = false →
  Fs.rename_disk lk src dst σ = inr σ' →
  σ' !! dst = Some (File body mtime)
  ∧ σ' !! src = None
  ∧ ∀ q, q ≠ src → q ≠ dst → σ' !! q = σ !! q.
Proof.
  intros Hsrc Hfree%exists_at_false. unfold Fs.rename_disk.
  destruct src as [|c src]; [done|]. rewrite Hsrc.
  destruct (negb _); [done|].
  case_bool_decide as Hroot; [done|].
  case_bool_decide; [done|].
  case_bool_decide as Hsame.
  { subst dst. simpl in Hfree. congruence. }
  destruct dst as [|c' dst]; [done|]. simpl in Hfree. rewrite Hfree.
  intros [= <-]. split_and!.
  - by rewrite lookup_insert_eq.
  - rewrite lookup_insert_ne by done. by rewrite lookup_delete_eq.
  - intros q Hq1 Hq2. rewrite lookup_insert_ne by done.
    by rewrite lookup_delete_ne.
Qed.

Lemma done_moves_app (js1 js2 : list Move) :
  done_moves (js1 ++ js2) = done_moves js1 ++ done_moves js2.
Proof. unfold done_moves. by rewrite filter_app, fmap_app. Qed.

End primitives.

(** ** The move loop of organize *)

Section move_loop.

Context (prompt : path → path → bool) (targetDir : path)
        (categories : CategoryMap) (options : Options).

Local Abbreviation turn := (organize_file prompt targetDir categories options).
Local Abbreviation subdir := (targetSubDir_of targetDir categories options).

(** One turn, spelled out: the destination is a candidate that is free
    when the resolver returns. *)
Lemma organize_file_run t f w :
  ∃ n,
    let dst := candidate (Path.join (subdir f) (name f)) n in
    let made := Fs.mkdir_walk [] (subdir f) (disk w) in
    let w1 := with_disk made.2 w in
    let fresh := negb (Fs.exists_at made.2 dst) in
    Fs.exists_at (disk w) dst = false ∧
    turn t f w =
      if dryRun options then (Ok t, w)
      else if interactive options && negb (prompt (fpath f) dst)
      then (Ok (skipped_one t), w)
      else if made.1 then
        match Fs.rename_disk (locked w) (fpath f) dst made.2 with
        | inr σ2 =>
            (Ok (moved_one t (fpath f) dst),
             with_move {| mv_src := fpath f; mv_dst := dst;
                          mv_fresh := fresh; mv_done := true |}
               (with_disk σ2 w1))
        | inl e =>
            (Ok t,
             with_move {| mv_src := fpath f; mv_dst := dst;
                          mv_fresh := fresh; mv_done := false |} w1)
        end
      else (Throw "EEXIST", w1).
Proof.
  destruct (getUniqueFilePath_first (Path.join (subdir f) (name f)) w)
    as (n & Hrun & Hfree & _).
  exists n. split; [done|].
  unfold organize_file. rewrite (bind_ok _ _ _ _ _ Hrun).
  destruct (dryRun options); [done|].
  destruct (interactive options && negb _); [done|].
  rewrite bind_run, mkdir_p_run.
  destruct (Fs.mkdir_walk [] (subdir f) (disk w)) as [[] σ1]; simpl; [|done].
  rewrite try_catch_run, bind_run, rename_run. simpl.
  by destruct (Fs.rename_disk _ _ _ _).
Qed.

(** What one turn does to the journal, the tally and the files. *)
Lemma organize_file_step t f w :
  ∃ js,
    journal (turn t f w).2 = journal w ++ js
    ∧ Forall (λ m, mv_src m = fpath f) js
    ∧ (plain (name f) → Forall (λ m, mv_fresh m = true) js)
    ∧ (∀ t', (turn t f w).1 = Ok t' →
         moved t' = moved t ++ done_moves js
         ∧ processedCount t' = processedCount t + length (done_moves js))
    ∧ (turn t f w).1 ≠ Spin
    ∧ (dryRun options = true → (turn t f w).2 = w)
    ∧ (done_moves js = [] →
       ∀ q, file_at (disk (turn t f w).2) q = file_at (disk w) q).
Proof.
  destruct (organize_file_run t f w) as (n & Hfree & ->).
  set (dst := candidate (Path.join (subdir f) (name f)) n) in *.
  destruct (dryRun options).
  { exists []. rewrite app_nil_r. split_and!; try done.
    intros t' [= <-]. rewrite app_nil_r. split; [done|simpl; lia]. }
  destruct (interactive options && negb _).
  { exists []. rewrite app_nil_r. split_and!; try done.
    intros t' [= <-]. rewrite app_nil_r. split; [done|simpl; lia]. }
  assert (plain (name f) →
          negb (Fs.exists_at (Fs.mkdir_walk [] (subdir f) (disk w)).2 dst) = true)
    as Hfresh.
  { intros Hnm. subst dst. rewrite join_plain by done.
    rewrite join_plain in Hfree by done.
    destruct (candidate_sibling (subdir f) (name f) n Hnm) as (x & _ & Hx).
    rewrite Hx in *. apply negb_true_iff, exists_at_false.
    apply exists_at_false in Hfree. rewrite node_at_snoc in *.
    rewrite mkdir_walk_longer; [done|]. rewrite length_app. simpl. lia. }
  destruct (Fs.mkdir_walk [] (subdir f) (disk w)) as [made σ1] eqn:Hmk.
  simpl in *.
  assert (∀ q, file_at σ1 q = file_at (disk w) q) as Hfiles.
  { intros q. by rewrite <-(mkdir_walk_files [] (subdir f) (disk w) q), Hmk. }
  destruct made.
  - destruct (Fs.rename_disk _ _ _ _) as [e|σ2]; simpl.
    + eexists [_]. split_and!; try done.
      * by repeat constructor.
      * intros Hnm. repeat constructor. by apply Hfresh.
      * intros t' [= <-]. rewrite app_nil_r. split; [done|simpl; lia].
    + eexists [_]. split_and!; try done.
      * by repeat constructor.
      * intros Hnm. repeat constructor. by apply Hfresh.
      * intros t' [= <-]. split; [done|simpl; lia].
  - exists []. rewrite app_nil_r. split_and!; try done.
Qed.

(** The same for the whole loop. *)
Lemma organize_loop_step files t w :
  ∃ js,
    journal (for_of files t turn w).2 = journal w ++ js
    ∧ Forall (λ m, ∃ f, f ∈ files ∧ mv_src m = fpath f) js
    ∧ (Forall (λ f, plain (name f)) files →
       Forall (λ m, mv_fresh m = true) js)
    ∧ (∀ t', (for_of files t turn w).1 = Ok t' →
         moved t' = moved t ++ done_moves js
         ∧ processedCount t' = processedCount t + length (done_moves js))
    ∧ (for_of files t turn w).1 ≠ Spin
    ∧ (dryRun options = true → (for_of files t turn w).2 = w)
    ∧ (done_moves js = [] →
       ∀ q, file_at (disk (for_of files t turn w).2) q = file_at (disk w) q).
Proof.
  revert t w. induction files as [|f files IH]; intros t w.
  { exists []. rewrite app_nil_r. split_and!; try done.
    intros t' [= <-]. rewrite app_nil_r. split; [done|simpl; lia]. }
  destruct (organize_file_step t f w)
    as (js1 & Hj1 & Hsrc1 & Hfresh1 & Hops1 & Hspin1 & Hdry1 & Hfiles1).
  simpl. rewrite bind_run.
  destruct (turn t f w) as [[t1|e|] w1] eqn:Hturn; simpl in *; [| |done].
  - destruct (IH t1 w1)
      as (js2 & Hj2 & Hsrc2 & Hfresh2 & Hops2 & Hspin2 & Hdry2 & Hfiles2).
    destruct (Hops1 t1 eq_refl) as [Hm1 Hp1].
    exists (js1 ++ js2). split_and!.
    + by rewrite Hj2, Hj1, app_assoc.
    + apply Forall_app. split.
      * eapply Forall_impl; [done|]. intros m Hm. exists f.
        split; [left|done].
      * eapply Forall_impl; [done|]. intros m (f' & ? & ?). exists f'.
        split; [by right|done].
    + intros [Hf Hfs]%Forall_cons. apply Forall_app. auto.
    + intros t' Ht'. destruct (Hops2 t' Ht') as [Hm2 Hp2].
      rewrite done_moves_app, length_app, Hm2, Hp2, Hm1, Hp1.
      split; [by rewrite app_assoc|lia].
    + done.
    + intros Hdry. by rewrite Hdry2, Hdry1.
    + rewrite done_moves_app. intros [H1 H2]%app_eq_nil q.
      by rewrite Hfiles2, Hfiles1.
  - exists js1. split_and!; try done.
    + eapply Forall_impl; [done|]. intros m Hm. exists f. split; [left|done].
    + intros [Hf Hfs]%Forall_cons. auto.
Qed.

Lemma journal_grew (w w' : World) (js1 js2 : list Move) :
  journal w' = journal w ++ js1 → journal w' = journal w ++ js2 → js1 = js2.
Proof. intros -> H. by apply app_inv_head in H. Qed.

(** How a turn can end: normally, or with the error of [mkdir]; it
    counts a skip in interactive mode only. *)
Lemma organize_file_outcome t f w :
  match (turn t f w).1 with
  | Ok t' => interactive options = false → skippedCount t' = skippedCount t
  | Throw e => e = "EEXIST"
  | Spin => False
  end.
Proof.
  destruct (organize_file_run t f w) as (n & _ & ->).
  destruct (dryRun options); [done|].
  destruct (interactive options) eqn:Hi; simpl.
  - destruct (negb _); [done|].
    destruct (Fs.mkdir_walk _ _ _) as [[] ?]; simpl; [|done].
    by destruct (Fs.rename_disk _ _ _ _).
  - destruct (Fs.mkdir_walk _ _ _) as [[] ?]; simpl; [|done].
    by destruct (Fs.rename_disk _ _ _ _).
Qed.

Lemma organize_loop_outcome files t w :
  match (for_of files t turn w).1 with
  | Ok t' => interactive options = false → skippedCount t' = skippedCount t
  | Throw e => e = "EEXIST"
  | Spin => False
  end.
Proof.
  revert t w. induction files as [|f files IH]; intros t w; [done|].
  simpl. rewrite bind_run. pose proof (organize_file_outcome t f w) as Hturn.
  destruct (turn t f w) as [[t1|e|] w1]; simpl in *; [|done..].
  specialize (IH t1 w1).
  destruct (for_of files t1 _ w1) as [[t2|e|] w2]; simpl in *; [|done..].
  intros Hi. by rewrite IH, Hturn.
Qed.

(** Outside a dry run, a turn that ends normally either made a rename
    call or counted a skip. *)
Lemma organize_file_census t f w js t' :
  journal (turn t f w).2 = journal w ++ js →
  (turn t f w).1 = Ok t' →
  dryRun options = false →
  skippedCount t' + length js = S (skippedCount t).
Proof.
  destruct (organize_file_run t f w) as (n & _ & ->). intros Hj Hok Hwet.
  rewrite Hwet in *.
  destruct (interactive options && negb _).
  { apply (f_equal length) in Hj. rewrite length_app in Hj.
    simplify_eq/=. lia. }
  destruct (Fs.mkdir_walk _ _ _) as [[] σ1]; simpl in *; [|done].
  destruct (Fs.rename_disk _ _ _ _); apply (f_equal length) in Hj;
    simpl in Hj; rewrite !length_app in Hj; simplify_eq/=; lia.
Qed.

Lemma organize_loop_census files t w js t' :
  journal (for_of files t turn w).2 = journal w ++ js →
  (for_of files t turn w).1 = Ok t' →
  dryRun options = false →
  skippedCount t' + length js = skippedCount t + length files.
Proof.
  revert t w js. induction files as [|f files IH]; intros t w js Hj Hok Hwet.
  { simpl in *. simplify_eq. apply (f_equal length) in Hj.
    rewrite length_app in Hj. simpl. lia. }
  destruct (organize_file_step t f w) as (js1 & Hj1 & _).
  simpl in Hj, Hok. rewrite bind_run in Hj, Hok.
  destruct (turn t f w) as [[t1|e|] w1] eqn:Hturn; simpl in *; [|done..].
  destruct (organize_loop_step files t1 w1) as (js2 & Hj2 & _).
  assert (js = js1 ++ js2) as ->.
  { eapply journal_grew; [done|]. by rewrite Hj2, Hj1, app_assoc. }
  pose proof (organize_file_census t f w js1 t1) as Hone.
  rewrite Hturn in Hone. specialize (Hone Hj1 eq_refl Hwet).
  specialize (IH t1 w1 js2 Hj2 Hok Hwet).
  rewrite length_app. simpl. lia.
Qed.

(** C6, as the code has it.  When the rename of a file fails, the turn
    of the move loop ends normally with the tally as it was: no
    operation is recorded and neither [processedCount] nor
    [skippedCount] changes; no file on disk changes; and the loop goes
    on with the next file.  The loop as a whole never throws because
    of a rename (only the creation of the destination directory, which
    is outside the [try], can make it throw).  When it ends normally,
    [processedCount] has grown by the number of renames that succeeded
    and, outside a dry run, [skippedCount] by the number of files for
    which no rename was called (those declined in interactive mode);
    outside interactive mode [skippedCount] stays as it was. *)
Theorem failed_move_is_skipped :
  (∀ t f rest w m,
     journal (turn t f w).2 = journal w ++ [m] → mv_done m = false →
     (turn t f w).1 = Ok t
     ∧ (∀ q, file_at (disk (turn t f w).2) q = file_at (disk w) q)
     ∧ for_of (f :: rest) t turn w = for_of rest t turn (turn t f w).2)
  ∧ (∀ files t w e, (for_of files t turn w).1 = Throw e → e = "EEXIST")
  ∧ (∀ files t w, (for_of files t turn w).1 ≠ Spin)
  ∧ (∀ files t w, ∃ js,
       journal (for_of files t turn w).2 = journal w ++ js
       ∧ ∀ t', (for_of files t turn w).1 = Ok t' →
           processedCount t' = processedCount t + length (done_moves js)
           ∧ (dryRun options = false →
              skippedCount t' + length js = skippedCount t + length files)
           ∧ (interactive options = false → skippedCount t' = skippedCount t)).
Proof.
  split_and!.
  - intros t f rest w m Hj Hfailed.
    destruct (organize_file_step t f w)
      as (js & Hj' & _ & _ & Hops & Hspin & _ & Hidle).
    assert (js = [m]) as -> by (by eapply journal_grew).
    assert (done_moves [m] = []) as Hnone.
    { unfold done_moves. by rewrite filter_cons_False, filter_nil
        by (by rewrite Hfailed). }
    pose proof (organize_file_outcome t f w) as Hout.
    destruct (turn t f w) as [[t1|e|] w1] eqn:Hturn; simpl in *.
    + destruct (Hops t1 eq_refl) as [Hmoved Hcount].
      rewrite Hnone, app_nil_r in Hmoved. rewrite Hnone in Hcount.
      assert (t1 = t) as ->.
      { destruct (organize_file_run t f w) as (n & _ & Hrun).
        rewrite Hturn in Hrun. clear -Hrun Hmoved Hj.
        destruct (dryRun options); [by simplify_eq|].
        destruct (_ && _).
        { simplify_eq. simpl in Hj. apply (f_equal length) in Hj.
          rewrite length_app in Hj. simpl in Hj. lia. }
        destruct (Fs.mkdir_walk _ _ _) as [[] ?]; simpl in *; [|done].
        destruct (Fs.rename_disk _ _ _ _); simplify_eq; [done|].
        simpl in Hmoved. apply (f_equal length) in Hmoved.
        rewrite length_app in Hmoved. simpl in Hmoved. lia. }
      split_and!; [done|by apply Hidle|].
      exact (for_of_cons_ok _ _ _ _ _ _ _ Hturn).
    + exfalso. subst e.
      destruct (organize_file_run t f w) as (n & _ & Hrun).
      rewrite Hturn in Hrun.
      destruct (dryRun options); [done|]. destruct (_ && _); [done|].
      destruct (Fs.mkdir_walk _ _ _) as [[] ?]; simpl in *.
      * by destruct (Fs.rename_disk _ _ _ _).
      * simplify_eq. simpl in Hj. apply (f_equal length) in Hj.
        rewrite length_app in Hj. simpl in Hj. lia.
    + done.
  - intros files t w e He. pose proof (organize_loop_outcome files t w) as H.
    by rewrite He in H.
  - intros files t w Hs. pose proof (organize_loop_outcome files t w) as H.
    by rewrite Hs in H.
  - intros files t w.
    destruct (organize_loop_step files t w) as (js & Hj & _ & _ & Hops & _).
    exists js. split; [done|]. intros t' Ht'. split_and!; [by apply Hops| |].
    + intros Hwet. by apply (organize_loop_census files t w js t').
    + pose proof (organize_loop_outcome files t w) as H. by rewrite Ht' in H.
Qed.

End move_loop.

Section move_failure.

(** The turn for [doc.pdf] on the desk where it cannot be moved. *)
Lemma failed_move_is_skipped_witness :
  (organize_file Sample.yes ["home"] defaultCategories Sample.plainly
     Sample.nothing Sample.doc Sample.desk_locked).1 = Ok Sample.nothing.
Proof.
  refine (proj1 (proj1 (failed_move_is_skipped Sample.yes ["home"]
            defaultCategories Sample.plainly)
            Sample.nothing Sample.doc [] Sample.desk_locked
            {| mv_src := ["home"; "doc.pdf"];
               mv_dst := ["home"; "Documents"; "doc.pdf"];
               mv_fresh := true; mv_done := false |} _ _)); reflexivity.
Defined.

(** C6 as stated fails: on the desk where [doc.pdf] cannot be moved,
    two files are found, the rename of [doc.pdf] fails, and the run
    ends with [processedCount = 1] and [skippedCount = 0], the very
    tally of the run on the desk that holds the photo only: the failure
    is in neither counter. *)
Lemma failed_move_is_not_counted :
  let run := organizeDirectory Sample.yes (Str "/home") Sample.plainly
               Sample.desk_locked in
  let other := organizeDirectory Sample.yes (Str "/home") Sample.plainly
                 Sample.desk_photo in
  ∃ rep rep',
    run.1 = Ok rep ∧ other.1 = Ok rep'
    ∧ length (filesToProcess rep) = 2
    ∧ journal run.2
      = [ {| mv_src := ["home"; "photo.jpg"];
             mv_dst := ["home"; "Images"; "photo.jpg"];
             mv_fresh := true; mv_done := true |};
          {| mv_src := ["home"; "doc.pdf"];
             mv_dst := ["home"; "Documents"; "doc.pdf"];
             mv_fresh := true; mv_done := false |} ]
    ∧ processedCount (tally rep) = 1
    ∧ skippedCount (tally rep) = 0
    ∧ tally rep = tally rep'.
Proof. vm_compute. eexists _, _. split_and!; reflexivity. Qed.

End move_failure.

(** ** Computations that keep a relation *)

Section keeping.

Context (R : relation World) `{!PreOrder R}.

Lemma keeps_ret {A} (a : A) : keeps R (mret a).
Proof. intros w. simpl. reflexivity. Qed.

Lemma keeps_throw {A} e : keeps R (@throw A e).
Proof. intros w. simpl. reflexivity. Qed.

Lemma keeps_spin {A} : keeps R (@spin A).
Proof. intros w. simpl. reflexivity. Qed.

Lemma keeps_get_world : keeps R get_world.
Proof. intros w. simpl. reflexivity. Qed.

Lemma keeps_bind {A B} (m : M A) (f : A → M B) :
  keeps R m → (∀ a, keeps R (f a)) → keeps R (m ≫= f).
Proof.
  intros Hm Hf w. rewrite bind_run. specialize (Hm w).
  destruct (m w) as [[a|e|] w1]; simpl in *; [|done..].
  etrans; [done|]. apply Hf.
Qed.

Lemma keeps_try_catch {A} (m : M A) (h : string → M A) :
  keeps R m → (∀ e, keeps R (h e)) → keeps R (try_catch m h).
Proof.
  intros Hm Hh w. rewrite try_catch_run. specialize (Hm w).
  destruct (m w) as [[a|e|] w1]; simpl in *; [done| |done].
  etrans; [done|]. apply Hh.
Qed.

Lemma keeps_for_of {A B} (xs : list A) (acc : B) (body : B → A → M B) :
  (∀ acc x, keeps R (body acc x)) → keeps R (for_of xs acc body).
Proof.
  intros Hbody. revert acc. induction xs as [|x xs IH]; intros acc; simpl.
  - apply keeps_ret.
  - apply keeps_bind; [apply Hbody|apply IH].
Qed.

(** A computation that leaves the world alone keeps every preorder. *)
Lemma keeps_eq {A} (m : M A) : keeps eq m → keeps R m.
Proof. intros Hm w. rewrite <-(Hm w). reflexivity. Qed.

End keeping.

Global Instance same_journal_preorder : PreOrder same_journal.
Proof.
  split; [done|]. unfold same_journal. intros w1 w2 w3 H1 H2. congruence.
Qed.

Global Instance same_files_preorder : PreOrder same_files.
Proof.
  split; [done|]. intros w1 w2 w3 [H1 H1'] [H2 H2']. split; [congruence|].
  intros q. by rewrite H2', H1'.
Qed.

Section readers.

Lemma keeps_access p : keeps eq (Fs.access p).
Proof. intros w. unfold Fs.access. by destruct (Fs.exists_at _ _). Qed.

Lemma keeps_stat p : keeps eq (Fs.stat p).
Proof. intros w. unfold Fs.stat. by destruct (Fs.node_at _ _). Qed.

Lemma keeps_readdir p : keeps eq (Fs.readdir p).
Proof. intros w. unfold Fs.readdir. by destruct (Fs.node_at _ _) as [[]|]. Qed.

Lemma keeps_readFile p : keeps eq (Fs.readFile p).
Proof. intros w. unfold Fs.readFile. by destruct (Fs.node_at _ _) as [[]|]. Qed.

Lemma keeps_JSON_parse body : keeps eq (JSON_parse body).
Proof. by destruct body. Qed.

Lemma keeps_getUniqueFilePath p : keeps eq (getUniqueFilePath p).
Proof.
  intros w. destruct (getUniqueFilePath_first p w) as (n & -> & _). done.
Qed.

Lemma keeps_loadConfig configPath : keeps eq (loadConfig configPath).
Proof.
  unfold loadConfig. case_bool_decide; [apply keeps_throw, _|].
  apply keeps_bind; [apply _|apply keeps_get_world, _|]. intros w.
  apply keeps_bind; [apply _|apply keeps_readFile|]. intros body.
  apply keeps_bind; [apply _|apply keeps_JSON_parse|].
  intros []; [apply keeps_throw, _|apply keeps_ret, _].
Qed.

Lemma keeps_readLog targetDir : keeps eq (readLog targetDir).
Proof. intros w. by rewrite readLog_run. Qed.

Lemma keeps_scan_entry targetDir cf ip files file :
  keeps eq (scan_entry targetDir cf ip files file).
Proof.
  unfold scan_entry. case_bool_decide; [apply keeps_ret, _|].
  destruct (shouldIgnore _ _); [apply keeps_ret, _|].
  destruct (Js.arr_includes _ _); [apply keeps_ret, _|].
  apply keeps_bind; [apply _|apply keeps_stat|].
  intros []; apply keeps_ret, _.
Qed.

Lemma keeps_collect fuel dir baseDir cf ip options :
  keeps eq (collectFilesRecursively fuel dir baseDir cf ip options).
Proof.
  revert dir. induction fuel as [|fuel IH]; intros dir; simpl.
  { apply keeps_spin, _. }
  apply keeps_bind; [apply _|apply keeps_readdir|]. intros entries.
  apply keeps_for_of; [apply _|]. intros files entry.
  unfold collect_entry. case_bool_decide; [apply keeps_ret, _|].
  destruct (shouldIgnore _ _); [apply keeps_ret, _|].
  destruct (_ && _); [apply keeps_ret, _|].
  apply keeps_bind; [apply _|apply keeps_stat|].
  intros [|]; [apply keeps_ret, _|].
  destruct (recursive options); [|apply keeps_ret, _].
  destruct (Js.arr_includes _ _); [apply keeps_ret, _|].
  apply keeps_bind; [apply _|apply IH|]. intros sub. apply keeps_ret, _.
Qed.

Lemma keeps_discover targetDir cf ip options :
  keeps eq (discover targetDir cf ip options).
Proof.
  unfold discover. destruct (recursive options).
  - apply keeps_bind; [apply _|apply keeps_get_world, _|]. intros w.
    apply keeps_collect.
  - apply keeps_bind; [apply _|apply keeps_readdir|]. intros files.
    apply keeps_for_of; [apply _|]. intros. apply keeps_scan_entry.
Qed.

End readers.

Section writers.

Lemma keeps_mkdir_p d : keeps same_files (Fs.mkdir_p d).
Proof.
  intros w. rewrite mkdir_p_run. split; [done|]. intros q.
  apply mkdir_walk_files.
Qed.

Lemma keeps_rmdir p : keeps same_files (Fs.rmdir p).
Proof.
  intros w. unfold Fs.rmdir.
  destruct p as [|c p]; [done|]. simpl.
  destruct (disk w !! (c :: p)) as [[]|] eqn:Hp; [done| |done].
  case_bool_decide; [|done]. split; [done|]. intros q. simpl.
  unfold file_at. destruct (decide (c :: p = q)) as [<-|].
  - by rewrite lookup_delete_eq, Hp.
  - by rewrite lookup_delete_ne.
Qed.

Lemma keeps_writeFile p body : keeps same_journal (Fs.writeFile p body).
Proof.
  intros w. unfold Fs.writeFile. destruct (negb _); [done|].
  by destruct (Fs.node_at _ _) as [[]|].
Qed.

Lemma keeps_unlink p : keeps same_journal (Fs.unlink p).
Proof. intros w. unfold Fs.unlink. by destruct (Fs.node_at _ _) as [[]|]. Qed.

Lemma same_files_journal {A} (m : M A) : keeps same_files m → keeps same_journal m.
Proof. intros Hm w. apply Hm. Qed.

Lemma keeps_saveLog targetDir ops : keeps same_journal (saveLog targetDir ops).
Proof.
  unfold saveLog.
  apply keeps_bind; [apply _| |].
  { apply keeps_eq; [apply _|]. apply keeps_try_catch; [apply _| |].
    - apply keeps_bind; [apply _|apply keeps_readFile|apply keeps_JSON_parse].
    - intros. apply keeps_ret, _. }
  intros existing. apply keeps_bind; [apply _|apply keeps_get_world, _|].
  intros w. destruct existing; [apply keeps_writeFile|apply keeps_throw, _].
Qed.

Lemma keeps_updateLog targetDir log : keeps same_journal (updateLog targetDir log).
Proof.
  unfold updateLog. case_bool_decide; [apply keeps_writeFile|apply keeps_unlink].
Qed.

Lemma keeps_cleanup fuel dir cf :
  keeps same_files (cleanupEmptyDirectories fuel dir cf).
Proof.
  revert dir. induction fuel as [|fuel IH]; intros dir; simpl.
  { apply keeps_spin, _. }
  apply keeps_bind; [apply _| |].
  { apply keeps_eq; [apply _|apply keeps_readdir]. }
  intros entries. apply keeps_for_of; [apply _|]. intros [] entry.
  unfold cleanup_entry. destruct (Js.arr_includes _ _); [apply keeps_ret, _|].
  apply keeps_try_catch; [apply _| |intros; apply keeps_ret, _].
  apply keeps_bind; [apply _| |].
  { apply keeps_eq; [apply _|apply keeps_stat]. }
  intros [|]; [apply keeps_ret, _|].
  apply keeps_bind; [apply _|apply IH|]. intros [].
  apply keeps_bind; [apply _| |].
  { apply keeps_eq; [apply _|apply keeps_readdir]. }
  intros contents. case_bool_decide; [apply keeps_rmdir|apply keeps_ret, _].
Qed.

Lemma keeps_sweep_category targetDir u category :
  keeps same_files (sweep_category targetDir u category).
Proof.
  unfold sweep_category.
  apply keeps_try_catch; [apply _| |intros; apply keeps_ret, _].
  apply keeps_bind; [apply _| |].
  { apply keeps_eq; [apply _|apply keeps_readdir]. }
  intros files. case_bool_decide; [apply keeps_rmdir|apply keeps_ret, _].
Qed.

End writers.

(** ** Discovery *)

Section discovery.

Lemma elem_of_children (σ : gmap path node) (d : path) (e : string) :
  e ∈ Fs.children σ d ↔ is_Some (σ !! (d ++ [e])).
Proof.
  unfold Fs.children. rewrite list_elem_of_fmap. split.
  - intros (k & -> & [[Hne <-] Hk]%list_elem_of_filter).
    apply list_elem_of_fmap in Hk as ([k' n] & -> & Hk).
    apply elem_of_map_to_list in Hk. simpl in *.
    unfold Path.lastname. rewrite <-app_removelast_last by done. eauto.
  - intros [n Hn]. exists (d ++ [e]). split.
    + unfold Path.lastname. by rewrite last_last.
    + apply list_elem_of_filter. split.
      * split; [by destruct d|apply removelast_last].
      * apply list_elem_of_fmap. exists (d ++ [e], n).
        split; [done|]. by apply elem_of_map_to_list.
Qed.

Lemma depth_ge (σ : gmap path node) (k : path) n :
  σ !! k = Some n → length k ≤ depth σ.
Proof.
  intros Hk. apply max_list_elem_of_le, list_elem_of_fmap.
  exists k. split; [done|]. apply list_elem_of_fmap. exists (k, n).
  split; [done|]. by apply elem_of_map_to_list.
Qed.

(** The entries [readdir] lists on a tree-shaped disk. *)
Lemma children_entries (σ : gmap path node) (d : path) :
  tree_shaped σ →
  Forall (λ e, plain e ∧ is_Some (σ !! (d ++ [e]))) (Fs.children σ d).
Proof.
  intros Hσ. apply Forall_forall. intros e [n Hn]%elem_of_children.
  split; [|by eauto].
  by apply (tree_shaped_entry _ _ _ _ Hσ) in Hn as [?%valid_name_plain _].
Qed.

Lemma readdir_dir d w :
  Fs.is_dir (disk w) d = true →
  Fs.readdir d w = (Ok (Fs.children (disk w) d), w).
Proof. intros ?%is_dir_true. unfold Fs.readdir. by simplify_option_eq. Qed.

Lemma stat_entry d e n w :
  disk w !! (d ++ [e]) = Some n → Fs.stat (d ++ [e]) w = (Ok n, w).
Proof. intros H. unfold Fs.stat. by rewrite node_at_snoc, H. Qed.

Lemma scan_loop targetDir cf ip entries acc w :
  Forall (λ e, plain e ∧ is_Some (disk w !! (targetDir ++ [e]))) entries →
  Forall (found_flat (disk w) targetDir cf) acc →
  ∃ files,
    for_of entries acc (scan_entry targetDir cf ip) w = (Ok files, w)
    ∧ Forall (found_flat (disk w) targetDir cf) files.
Proof.
  revert acc. induction entries as [|e entries IH]; intros acc Hes Hacc.
  { by exists acc. }
  apply Forall_cons in Hes as [[He [n Hn]] Hes].
  assert (∃ acc', scan_entry targetDir cf ip acc e w = (Ok acc', w)
                  ∧ Forall (found_flat (disk w) targetDir cf) acc')
    as (acc' & Hrun & Hacc').
  { unfold scan_entry. rewrite join_plain by done.
    case_bool_decide as Hlog; [by exists acc|].
    destruct (shouldIgnore _ _); [by exists acc|].
    destruct (Js.arr_includes cf e) eqn:Hcf; [by exists acc|].
    apply arr_includes_false in Hcf.
    rewrite (bind_ok _ _ _ _ _ (stat_entry _ _ _ _ Hn)).
    destruct n as [body mtime|]; [|by exists acc].
    eexists. split; [done|]. apply Forall_app. split; [done|].
    apply Forall_singleton. split_and!; simpl; eauto. }
  rewrite (for_of_cons_ok _ _ _ _ _ _ _ Hrun). by apply IH.
Qed.

Lemma collect_loop (descend : path → M (list FileEntry))
    baseDir mid0 cf ip options entries acc w :
  let dir := baseDir ++ mid0 in
  Forall (λ c, c ≠ LOG_FILE_NAME ∧ c ∉ cf) mid0 →
  (∀ e, disk w !! (dir ++ [e]) = Some Dir →
        e ≠ LOG_FILE_NAME → e ∉ cf →
        ∃ sub, descend (dir ++ [e]) w = (Ok sub, w)
               ∧ Forall (found_deep (disk w) baseDir cf) sub) →
  Forall (λ e, plain e ∧ is_Some (disk w !! (dir ++ [e]))) entries →
  Forall (found_deep (disk w) baseDir cf) acc →
  ∃ files,
    for_of entries acc
      (collect_entry descend dir baseDir cf ip options) w = (Ok files, w)
    ∧ Forall (found_deep (disk w) baseDir cf) files.
Proof.
  intros dir Hmid Hdescend. revert acc.
  induction entries as [|e entries IH]; intros acc Hes Hacc.
  { by exists acc. }
  apply Forall_cons in Hes as [[He [n Hn]] Hes].
  assert (∃ acc', collect_entry descend dir baseDir cf ip options acc e w
                  = (Ok acc', w)
                  ∧ Forall (found_deep (disk w) baseDir cf) acc')
    as (acc' & Hrun & Hacc').
  { unfold collect_entry. rewrite join_plain by done.
    case_bool_decide as Hlog; [by exists acc|].
    destruct (shouldIgnore _ _); [by exists acc|].
    destruct (bool_decide (dir = baseDir) && Js.arr_includes cf e) eqn:Htop;
      [by exists acc|].
    rewrite (bind_ok _ _ _ _ _ (stat_entry _ _ _ _ Hn)).
    destruct n as [body mtime|].
    - eexists. split; [done|]. apply Forall_app. split; [done|].
      apply Forall_singleton. split_and!; simpl; [done..|].
      exists mid0. split_and!; [subst dir; by rewrite <-app_assoc|done| |by eauto].
      intros ->. apply andb_false_iff in Htop as [Htop|Htop].
      + apply bool_decide_eq_false in Htop. destruct Htop.
        subst dir. by rewrite app_nil_r.
      + by apply arr_includes_false.
    - destruct (recursive options); [|by exists acc].
      destruct (Js.arr_includes cf e) eqn:Hcf; [by exists acc|].
      apply arr_includes_false in Hcf.
      destruct (Hdescend e Hn Hlog Hcf) as (sub & Hsub & Hfound).
      rewrite (bind_ok _ _ _ _ _ Hsub). eexists. split; [done|].
      apply Forall_app. by split. }
  rewrite (for_of_cons_ok _ _ _ _ _ _ _ Hrun). by apply IH.
Qed.

Lemma collect_run fuel baseDir mid0 cf ip options w :
  tree_shaped (disk w) →
  Fs.is_dir (disk w) (baseDir ++ mid0) = true →
  Forall (λ c, c ≠ LOG_FILE_NAME ∧ c ∉ cf) mid0 →
  depth (disk w) < fuel + length (baseDir ++ mid0) →
  ∃ files,
    collectFilesRecursively fuel (baseDir ++ mid0) baseDir cf ip options w
      = (Ok files, w)
    ∧ Forall (found_deep (disk w) baseDir cf) files.
Proof.
  intros Hσ. revert mid0.
  induction fuel as [|fuel IH]; intros mid0 Hdir Hmid Hfuel.
  { exfalso. apply is_dir_true in Hdir.
    destruct (baseDir ++ mid0) as [|c k] eqn:Hk; [simpl in Hfuel; lia|].
    simpl in Hdir. apply depth_ge in Hdir. simpl in *. lia. }
  simpl. rewrite (bind_ok _ _ _ _ _ (readdir_dir _ _ Hdir)).
  apply collect_loop; [done| |by apply children_entries|done].
  intros e He Hlog Hcf. rewrite <-app_assoc. apply IH.
  - rewrite app_assoc. apply is_dir_true. by rewrite node_at_snoc.
  - apply Forall_app. split; [done|]. by apply Forall_singleton.
  - rewrite app_assoc. rewrite length_app. simpl. lia.
Qed.

(** On a tree-shaped disk, discovery in a directory returns, changes
    nothing, and hands over only files that pass the skip rules. *)
Lemma discover_run targetDir cf ip options w :
  tree_shaped (disk w) →
  Fs.is_dir (disk w) targetDir = true →
  ∃ files,
    discover targetDir cf ip options w = (Ok files, w)
    ∧ if recursive options
      then Forall (found_deep (disk w) targetDir cf) files
      else Forall (found_flat (disk w) targetDir cf) files.
Proof.
  intros Hσ Hdir. unfold discover. destruct (recursive options) eqn:Hrec.
  - rewrite bind_run. simpl.
    destruct (collect_run (S (depth (disk w))) targetDir [] cf ip options w)
      as (files & Hrun & Hfound); [done|by rewrite app_nil_r|done|lia|].
    rewrite app_nil_r in Hrun. by exists files.
  - rewrite (bind_ok _ _ _ _ _ (readdir_dir _ _ Hdir)).
    apply scan_loop; [by apply children_entries|done].
Qed.

Lemma found_flat_plain σ targetDir cf files :
  Forall (found_flat σ targetDir cf) files → Forall (λ f, plain (name f)) files.
Proof. intros H. eapply Forall_impl; [done|]. by intros f (?&_). Qed.

Lemma found_deep_plain σ baseDir cf files :
  Forall (found_deep σ baseDir cf) files → Forall (λ f, plain (name f)) files.
Proof. intros H. eapply Forall_impl; [done|]. by intros f (?&_). Qed.

End discovery.

(** ** A whole run of organize *)

Section organize_run.

Lemma saveLog_ok targetDir ops w w' :
  saveLog targetDir ops w = (Ok (), w') →
  ∃ earlier,
    file_at (disk w') (targetDir ++ [LOG_FILE_NAME])
    = Some (LogJson (earlier ++
              [{| timestamp := clock_iso w; operations := ops |}])).
Proof.
  unfold saveLog. rewrite logPath_eq, bind_run.
  pose proof (keeps_try_catch eq
    (content ← Fs.readFile (targetDir ++ [LOG_FILE_NAME]); JSON_parse content)
    (λ _, mret (JArr []))) as Hread.
  specialize (Hread (keeps_bind eq _ _ (keeps_readFile _) keeps_JSON_parse)
                    (λ _, keeps_ret eq _) w).
  destruct (try_catch _ _ w) as [[[earlier|cfg]|e|] w0]; simpl in Hread;
    subst w0; [|done..].
  rewrite bind_run. simpl. unfold Fs.writeFile.
  destruct (negb _); [done|].
  destruct (Fs.node_at _ _) as [[]|]; intros; simplify_eq;
    exists earlier; unfold file_at; simpl; by rewrite lookup_insert_eq.
Qed.

Lemma process_files_accounted prompt targetDir categories options files w :
  ∃ js,
    accounted options targetDir w
      (process_files prompt targetDir categories options files w).1
      (process_files prompt targetDir categories options files w).2 js
    ∧ (Forall (λ f, plain (name f)) files →
       Forall (λ m, mv_fresh m = true) js).
Proof.
  unfold process_files. case_bool_decide as Hnone.
  { exists []. split; [|done]. split; simpl; try done.
    - by rewrite app_nil_r.
    - by intros rep [= <-]. }
  set (nothing := {| moved := []; processedCount := 0; skippedCount := 0 |}).
  destruct (organize_loop_step prompt targetDir categories options
              files nothing w)
    as (js & Hj & Hsrc & Hfresh & Hops & Hspin & Hdry & Hidle).
  exists js. split; [|done]. rewrite bind_run.
  destruct (for_of files nothing _ w) as [[t|e|] w1] eqn:Hloop;
    simpl in *; [| |done].
  2:{ split; simpl; try done. }
  destruct (Hops t eq_refl) as [Hmoved Hcount]. simpl in Hmoved, Hcount.
  rewrite bind_run.
  destruct (bool_decide (0 < length (moved t)) && negb (dryRun options))
    eqn:Hsave.
  - apply andb_true_iff in Hsave as [Hsome%bool_decide_eq_true Hwet].
    apply negb_true_iff in Hwet.
    assert (done_moves js ≠ []) as Hne.
    { rewrite <-Hmoved. intros Hnil. rewrite Hnil in Hsome. simpl in Hsome. lia. }
    pose proof (keeps_saveLog targetDir (moved t) w1) as Hj2.
    destruct (saveLog targetDir (moved t) w1) as [[[]|e|] w2] eqn:Hsaved;
      unfold same_journal in Hj2; simpl in Hj2.
    2,3: split; simpl; try done; try congruence.
    apply saveLog_ok in Hsaved as [earlier Hlog].
    rewrite bind_run.
    set (prune := if recursive options && negb (dryRun options)
                     && bool_decide (0 < length (moved t))
                  then _ else _).
    assert (keeps same_files prune) as Hprune.
    { subst prune. destruct (_ && _ && _); [|apply keeps_ret, _].
      apply keeps_bind; [apply _|apply keeps_get_world, _|].
      intros w'.
      exact (keeps_cleanup (S (depth (disk w'))) targetDir (Object_keys categories)). }
    specialize (Hprune w2).
    destruct (prune w2) as [[[]|e|] w3]; destruct Hprune as [Hj3 Hf3];
      simpl in *.
    2,3: split; simpl; try done; try congruence.
    split; simpl; try congruence.
    + intros rep [= <-]. simpl. by rewrite Hmoved, Hcount.
    + intros rep [= <-] _. split; [done|]. exists earlier, (clock_iso w1).
      by rewrite Hf3, Hlog, Hmoved.
  - simpl. rewrite bind_run.
    assert (recursive options && negb (dryRun options)
            && bool_decide (0 < length (moved t)) = false) as ->.
    { apply andb_false_iff in Hsave as [Hsave|Hsave].
      - rewrite Hsave. apply andb_false_r.
      - rewrite Hsave. by rewrite andb_false_r. }
    simpl. split; simpl; try done.
    + intros rep [= <-]. simpl. by rewrite Hmoved, Hcount.
    + intros rep [= <-] Hne. exfalso.
      apply andb_false_iff in Hsave as [Hsave|Hsave].
      * apply bool_decide_eq_false in Hsave. rewrite Hmoved in Hsave.
        destruct (done_moves js); [done|]. simpl in Hsave. lia.
      * apply negb_false_iff in Hsave. specialize (Hdry Hsave). subst w1.
        assert (js = []) as ->; [|done].
        apply (f_equal length) in Hj. rewrite length_app in Hj.
        apply length_zero_iff_nil. lia.
Qed.

Lemma accounted_nothing options targetDir w (r : outcome Report) :
  (∀ rep, r ≠ Ok rep) → accounted options targetDir w r w [].
Proof.
  intros Hr. split; try done; try (intros rep ?; by destruct (Hr rep)).
  by rewrite app_nil_r.
Qed.

(** A run of [organizeDirectory], accounted for by its rename calls;
    on a tree-shaped disk every one of them went to a free path. *)
Lemma organizeDirectory_accounted prompt arg options w :
  ∃ js,
    accounted options (Path.resolve (cwd w) (arg_string arg)) w
      (organizeDirectory prompt arg options w).1
      (organizeDirectory prompt arg options w).2 js
    ∧ (tree_shaped (disk w) → Forall (λ m, mv_fresh m = true) js).
Proof.
  unfold organizeDirectory. destruct (blank arg).
  { exists []. split; [|done]. by apply accounted_nothing. }
  rewrite try_catch_rethrow, bind_run. simpl.
  set (targetDir := Path.resolve (cwd w) (arg_string arg)).
  rewrite bind_run, try_catch_run. unfold Fs.access.
  destruct (Fs.exists_at (disk w) targetDir).
  2:{ exists []. split; [|done]. by apply accounted_nothing. }
  rewrite bind_run. unfold Fs.stat.
  destruct (Fs.node_at (disk w) targetDir) as [[body mtime|]|] eqn:Hnode.
  1,3: exists []; (split; [|done]); by apply accounted_nothing.
  rewrite bind_run.
  set (load := match config options with
               | Some (String _ _ as configPath) => loadConfig configPath
               | _ => mret defaultCategories
               end).
  assert (keeps eq load) as Hload.
  { subst load. destruct (config options) as [[|]|];
      [apply keeps_ret, _|apply keeps_loadConfig|apply keeps_ret, _]. }
  specialize (Hload w).
  destruct (load w) as [[categories|e|] w0]; simpl in Hload; subst w0.
  2,3: exists []; (split; [|done]); by apply accounted_nothing.
  rewrite bind_run.
  set (cf := Object_keys categories).
  set (ip := match ignore options with
             | Some (String _ _ as patterns) => _
             | _ => []
             end).
  pose proof (keeps_discover targetDir cf ip options w) as Hsame.
  destruct (discover targetDir cf ip options w) as [[files|e|] w0] eqn:Hfound;
    simpl in Hsame; subst w0.
  2,3: exists []; (split; [|done]); by apply accounted_nothing.
  destruct (process_files_accounted prompt targetDir categories options files w)
    as (js & Hacc & Hfresh).
  exists js. split; [done|]. intros Hσ. apply Hfresh.
  destruct (discover_run targetDir cf ip options w Hσ) as (files' & Hrun & Hok).
  { by apply is_dir_true. }
  rewrite Hfound in Hrun. simplify_eq.
  destruct (recursive options);
    [by eapply found_deep_plain|by eapply found_flat_plain].
Qed.

End organize_run.

(** ** A whole run of undo *)

Section undo_run.

Lemma fresh_only_keeps {A} (m : M A) : keeps same_journal m → fresh_only m.
Proof.
  intros Hm w. exists []. split; [|done]. rewrite app_nil_r. apply Hm.
Qed.

Lemma fresh_only_bind {A B} (m : M A) (f : A → M B) :
  fresh_only m → (∀ a, fresh_only (f a)) → fresh_only (m ≫= f).
Proof.
  intros Hm Hf w. rewrite bind_run. destruct (Hm w) as (js1 & Hj1 & Hf1).
  destruct (m w) as [[a|e|] w1]; simpl in *; [|by exists js1..].
  destruct (Hf a w1) as (js2 & Hj2 & Hf2). exists (js1 ++ js2).
  split; [by rewrite Hj2, Hj1, app_assoc|by apply Forall_app].
Qed.

Lemma fresh_only_for_of {A B} (xs : list A) (acc : B) (body : B → A → M B) :
  (∀ acc x, fresh_only (body acc x)) → fresh_only (for_of xs acc body).
Proof.
  intros Hbody. revert acc. induction xs as [|x xs IH]; intros acc; simpl.
  - apply fresh_only_keeps, keeps_ret, _.
  - apply fresh_only_bind; [apply Hbody|apply IH].
Qed.

(** Undoing one operation: the resolver picks a free path and the
    rename follows at once. *)
Lemma fresh_only_undo_operation counts op : fresh_only (undo_operation counts op).
Proof.
  intros w. unfold undo_operation. rewrite try_catch_run, bind_run.
  unfold Fs.access. destruct (Fs.exists_at (disk w) (movedTo op)).
  2:{ exists []. by rewrite app_nil_r. }
  destruct (getUniqueFilePath_first (original op) w) as (n & Hrun & Hfree & _).
  rewrite (bind_ok _ _ _ _ _ Hrun), bind_run, rename_run, Hfree. simpl.
  destruct (Fs.rename_disk _ _ _ _); simpl; eexists [_];
    (split; [done|by repeat constructor]).
Qed.

Lemma undoOrganize_fresh_only arg : fresh_only (undoOrganize arg).
Proof.
  unfold undoOrganize. destruct (blank arg).
  { apply fresh_only_keeps, keeps_throw, _. }
  intros w. rewrite try_catch_rethrow. revert w.
  apply fresh_only_bind; [apply fresh_only_keeps, keeps_get_world, _|].
  intros w0. apply fresh_only_bind.
  { apply fresh_only_keeps, keeps_eq; [apply _|apply keeps_readLog]. }
  intros [[log|cfg]|];
    [|apply fresh_only_keeps, keeps_throw, _
     |apply fresh_only_keeps, keeps_ret, _].
  destruct (last log) as [lastBatch|];
    [|apply fresh_only_keeps, keeps_ret, _].
  apply fresh_only_bind.
  { apply fresh_only_for_of. apply fresh_only_undo_operation. }
  intros counts. apply fresh_only_bind.
  { apply fresh_only_keeps, keeps_updateLog. }
  intros []. apply fresh_only_bind.
  { apply fresh_only_keeps, keeps_for_of; [apply _|]. intros [] category.
    apply same_files_journal, keeps_sweep_category. }
  intros []. apply fresh_only_keeps, keeps_ret, _.
Qed.

End undo_run.

(** ** No overwrite *)

Section no_overwrite.

(** C1. On a tree-shaped disk, every call of [fs.rename] that a run of
    [organizeDirectory] makes, and every call that a run of
    [undoOrganize] makes on any disk, has a destination that is not on
    disk when the call is made: the destination comes from the unique
    path resolver, and between the resolver and the rename only the
    directories above the destination are created.  So no rename of a
    run lands on an existing file or directory; and a rename of a file
    to such a free path puts the file there, frees its old path and
    leaves the node at every other path as it was. *)
Theorem renames_never_overwrite :
  (∀ prompt targetDir options w,
     tree_shaped (disk w) →
     ∃ js,
       journal (organizeDirectory prompt targetDir options w).2
         = journal w ++ js
       ∧ Forall (λ m, mv_fresh m = true) js)
  ∧ (∀ targetDir w,
       ∃ js,
         journal (undoOrganize targetDir w).2 = journal w ++ js
         ∧ Forall (λ m, mv_fresh m = true) js)
  ∧ (∀ (lk : gset path) (src dst : path) (σ σ' : gmap path node) body mtime,
       σ !! src = Some (File body mtime) →
       Fs.exists_at σ dst = false →
       Fs.rename_disk lk src dst σ = inr σ' →
       σ' !! dst = Some (File body mtime)
       ∧ σ' !! src = None
       ∧ ∀ q, q ≠ src → q ≠ dst → σ' !! q = σ !! q).
Proof.
  split_and!.
  - intros prompt arg options w Hσ.
    destruct (organizeDirectory_accounted prompt arg options w)
      as (js & Hacc & Hfresh).
    exists js. split; [apply Hacc|by apply Hfresh].
  - intros arg w. apply undoOrganize_fresh_only.
  - apply rename_disk_file_fresh.
Qed.

(** The runs on the sample desk: organize, and undo of a logged move. *)
Lemma renames_never_overwrite_witness :
  (∃ js,
     journal (organizeDirectory Sample.yes (Str "/home") Sample.plainly
                Sample.desk).2 = journal Sample.desk ++ js
     ∧ Forall (λ m, mv_fresh m = true) js)
  ∧ (∃ js,
       journal (undoOrganize (Str "/home") Sample.logged).2
         = journal Sample.logged ++ js
       ∧ Forall (λ m, mv_fresh m = true) js).
Proof.
  destruct renames_never_overwrite as (Horganize & Hundo & _).
  split.
  - apply (Horganize Sample.yes (Str "/home") Sample.plainly Sample.desk).
    reflexivity.
  - apply (Hundo (Str "/home") Sample.logged).
Defined.

End no_overwrite.

(** ** The skip rules of discovery *)

Section skip_rules.

(** C7, as the code has it.  On a tree-shaped disk, discovery in a
    directory returns and changes nothing.  It never hands over an
    entry named like the log file.  When the run is not recursive,
    every candidate is a file directly under the target directory that
    is not named like a category folder.  When the run is recursive,
    no directory on the way from the target directory down to a
    candidate is named like the log file or like a category folder,
    and a candidate directly under the target directory is not named
    like a category folder; below that level a plain file may be.
    The move loop renames candidates only. *)
Theorem discovery_skip_rules :
  (∀ targetDir cf ip options w,
     tree_shaped (disk w) →
     Fs.is_dir (disk w) targetDir = true →
     ∃ files,
       discover targetDir cf ip options w = (Ok files, w)
       ∧ (recursive options = false →
          Forall (found_flat (disk w) targetDir cf) files)
       ∧ (recursive options = true →
          Forall (found_deep (disk w) targetDir cf) files))
  ∧ (∀ prompt targetDir categories options files t w,
       ∃ js,
         journal (for_of files t
                    (organize_file prompt targetDir categories options) w).2
           = journal w ++ js
         ∧ Forall (λ m, ∃ f, f ∈ files ∧ mv_src m = fpath f) js).
Proof.
  split.
  - intros targetDir cf ip options w Hσ Hdir.
    destruct (discover_run targetDir cf ip options w Hσ Hdir)
      as (files & Hrun & Hfound).
    exists files. split; [done|].
    destruct (recursive options); by split.
  - intros prompt targetDir categories options files t w.
    destruct (organize_loop_step prompt targetDir categories options files t w)
      as (js & Hj & Hsrc & _).
    by exists js.
Qed.

(** Discovery on the sample desk: three files, found in place. *)
Lemma discovery_skip_rules_witness :
  ∃ files,
    discover ["home"] (Object_keys defaultCategories) [] Sample.plainly
      Sample.desk = (Ok files, Sample.desk)
    ∧ (recursive Sample.plainly = false →
       Forall (found_flat (disk Sample.desk) ["home"]
                 (Object_keys defaultCategories)) files)
    ∧ (recursive Sample.plainly = true →
       Forall (found_deep (disk Sample.desk) ["home"]
                 (Object_keys defaultCategories)) files).
Proof.
  apply (proj1 discovery_skip_rules ["home"] (Object_keys defaultCategories)
           [] Sample.plainly Sample.desk); reflexivity.
Defined.

(** C7 as stated fails: in a recursive run a plain file named
    [Images], like a category folder, that lies in a sub-directory is
    a candidate, and the run moves it. *)
Lemma namesake_file_is_collected :
  "Images" ∈ Object_keys defaultCategories
  ∧ discover ["home"] (Object_keys defaultCategories) [] Sample.recursively
      Sample.namesake
    = (Ok [ {| name := "Images"; fpath := ["home"; "sub"; "Images"];
               mtime_of := Sample.march |} ], Sample.namesake)
  ∧ journal (organizeDirectory Sample.yes (Str "/home") Sample.recursively
               Sample.namesake).2
    = [ {| mv_src := ["home"; "sub"; "Images"];
           mv_dst := ["home"; "Others"; "Images"];
           mv_fresh := true; mv_done := true |} ].
Proof.
  split_and!; [|reflexivity|reflexivity].
  by apply (list_elem_of_lookup_2 _ 4).
Qed.

End skip_rules.

(** ** What the log records *)

Section log_records.

(** C8. In every run of [organizeDirectory], with [js] the calls of
    [fs.rename] the run made: the operations the run reports are
    exactly the calls that succeeded, in order, and [processedCount]
    is their number; a dry run leaves the whole world as it was; a run
    in which no rename succeeded leaves every file, the log file
    included, as it was; and a run that reports at least one move is
    not a dry run and has put exactly those moves, as the last batch,
    in the log file of the target directory. *)
Theorem log_records_only_real_moves prompt targetDir options w :
  ∃ js,
    journal (organizeDirectory prompt targetDir options w).2 = journal w ++ js
    ∧ (∀ rep, (organizeDirectory prompt targetDir options w).1 = Ok rep →
         moved (tally rep) = done_moves js
         ∧ processedCount (tally rep) = length (done_moves js))
    ∧ (dryRun options = true →
       (organizeDirectory prompt targetDir options w).2 = w)
    ∧ (done_moves js = [] →
       ∀ q, file_at (disk (organizeDirectory prompt targetDir options w).2) q
            = file_at (disk w) q)
    ∧ (∀ rep, (organizeDirectory prompt targetDir options w).1 = Ok rep →
         done_moves js ≠ [] →
         dryRun options = false
         ∧ ∃ earlier ts,
             file_at (disk (organizeDirectory prompt targetDir options w).2)
               (Path.resolve (cwd w) (arg_string targetDir) ++ [LOG_FILE_NAME])
             = Some (LogJson (earlier ++
                       [{| timestamp := ts; operations := done_moves js |}]))).
Proof.
  destruct (organizeDirectory_accounted prompt targetDir options w)
    as (js & [Hj Hrep Hdry Hidle Hlog] & _).
  exists js. split_and!; [done| |done|done|done].
  intros rep Hrun. destruct (Hrep rep Hrun) as (?&?&_). by split.
Qed.

(** A dry run on the sample desk changes nothing. *)
Lemma log_records_only_real_moves_witness :
  (organizeDirectory Sample.yes (Str "/home") Sample.dry Sample.desk).2
  = Sample.desk.
Proof.
  destruct (log_records_only_real_moves Sample.yes (Str "/home") Sample.dry
              Sample.desk) as (js & _ & _ & Hdry & _).
  by apply Hdry.
Defined.

End log_records.

(** ** Organize, then undo *)

Section round_trip.

(** Every candidate of a path lies in the directory of that path. *)
Lemma candidate_dirname (d : path) nm k :
  ∃ x, candidate (d ++ [nm]) k = d ++ [x].
Proof.
  destruct k as [|k]; [by exists nm|].
  eexists. by rewrite candidate_S, numbered_eq, dirname_snoc.
Qed.


(** X20. Undoing one operation when the directory of the original path is
    gone: the rename fails, the file stays where it is, and one error is
    counted. *)
Lemma undo_operation_without_directory counts op w d nm :
  original op = d ++ [nm] →
  Fs.is_dir (disk w) d = false →
  (undo_operation counts op w).1 = Ok (counts.1, S counts.2)
  ∧ disk (undo_operation counts op w).2 = disk w.
Proof.
  intros Horig Hdir. unfold undo_operation. rewrite try_catch_run, bind_run.
  unfold Fs.access. destruct (Fs.exists_at (disk w) (movedTo op)); [|done].
  destruct (getUniqueFilePath_first (original op) w) as (k & Hrun & _).
  rewrite (bind_ok _ _ _ _ _ Hrun), bind_run, rename_run.
  assert (∃ e, Fs.rename_disk (locked w) (movedTo op)
                 (candidate (original op) k) (disk w) = inl e) as [e ->].
  { unfold Fs.rename_disk. destruct (movedTo op) as [|c src]; [by eauto|].
    destruct (disk w !! (c :: src)); [|by eauto].
    rewrite Horig. destruct (candidate_dirname d nm k) as [x ->].
    rewrite dirname_snoc, Hdir. simpl. by eauto. }
  done.
Qed.

(** C2 at a failing input.  A recursive run on a home directory that
    holds [sub/old.txt] moves the file to [Documents/old.txt] and
    prunes the emptied [sub]; the undo that follows cannot rename the
    file back, since [sub] is gone, counts one error, and still drops
    the batch: the file stays under [Documents], nothing is at its
    original path or at a suffixed variant of it, and the log file is
    deleted. *)
Theorem undo_after_pruning_restores_nothing :
  let organized := organizeDirectory Sample.yes (Str "/home")
                     Sample.recursively Sample.nested in
  let undone := undoOrganize (Str "/home") organized.2 in
  organized.1
    = Ok {| filesToProcess :=
              [ {| name := "old.txt"; fpath := ["home"; "sub"; "old.txt"];
                   mtime_of := Sample.march |} ];
            tally :=
              {| moved := [ {| original := ["home"; "sub"; "old.txt"];
                               movedTo := ["home"; "Documents"; "old.txt"] |} ];
                 processedCount := 1; skippedCount := 0 |} |}
  ∧ undone.1 = Ok (Undone 0 1)
  ∧ disk undone.2
    = list_to_map [ (["home"], Dir);
                    (["home"; "Documents"], Dir);
                    (["home"; "Documents"; "old.txt"], Sample.file "o") ].
Proof. vm_compute. split_and!; reflexivity. Qed.

End round_trip.


(** ** Ignore patterns *)

Section ignore_patterns.

Lemma prefix_app p s : String.prefix p (p +:+ s) = true.
Proof.
  induction p as [|a p IH]; [by destruct s|].
  change (String a p +:+ s) with (String a (p +:+ s)). simpl.
  by destruct (ascii_dec a a).
Qed.

Lemma prefix_empty s : String.prefix "" s = true.
Proof. by destruct s. Qed.

Lemma includes_here s p : String.prefix p s = true → Js.includes s p = true.
Proof.
  intros H. destruct s as [|c s].
  - by destruct p.
  - change (String.prefix p (String c s) || Js.includes s p = true).
    by rewrite H.
Qed.

Lemma includes_app_r a b p : Js.includes b p = true → Js.includes (a +:+ b) p = true.
Proof.
  intros H. induction a as [|c a IH]; [done|].
  change (String c a +:+ b) with (String c (a +:+ b)). simpl.
  rewrite IH. apply orb_true_r.
Qed.

Lemma includes_middle a c b : Js.includes (a +:+ c +:+ b) c = true.
Proof. apply includes_app_r, includes_here, prefix_app. Qed.

Lemma string_app_cons a s t : String a s +:+ t = String a (s +:+ t).
Proof. done. Qed.

Lemma string_app_nil_r s : s +:+ "" = s.
Proof. induction s as [|a s IH]; [done|]. by rewrite string_app_cons, IH. Qed.

Lemma string_app_assoc s1 s2 s3 : (s1 +:+ s2) +:+ s3 = s1 +:+ (s2 +:+ s3).
Proof. induction s1 as [|a s1 IH]; [done|]. by rewrite !string_app_cons, IH. Qed.

Lemma rev_app_app s1 s2 : String.rev_app s1 s2 = String.rev s1 +:+ s2.
Proof.
  unfold String.rev. revert s2. induction s1 as [|a s1 IH]; intros s2; [done|].
  simpl. by rewrite IH, (IH (String a "")), string_app_assoc.
Qed.

Lemma rev_string_app s1 s2 : String.rev (s1 +:+ s2) = String.rev s2 +:+ String.rev s1.
Proof.
  induction s1 as [|a s1 IH].
  - by rewrite string_app_nil_r.
  - rewrite string_app_cons. unfold String.rev at 1 3. simpl.
    by rewrite !rev_app_app, IH, string_app_assoc.
Qed.

Lemma endsWith_app stem ext : Js.endsWith (stem +:+ ext) ext = true.
Proof. unfold Js.endsWith. rewrite rev_string_app. apply prefix_app. Qed.

Lemma to_string_includes (p : path) c : c ∈ p → Js.includes (Path.to_string p) c = true.
Proof.
  intros Hc. destruct p as [|x p]; [by apply elem_of_nil in Hc|].
  unfold Path.to_string. revert Hc. generalize (x :: p). clear x p.
  intros p. induction p as [|x p IH]; intros Hc; [by apply elem_of_nil in Hc|].
  cbn [foldr]. apply elem_of_cons in Hc as [->|Hc].
  - apply includes_middle.
  - apply includes_app_r, includes_app_r. by apply IH.
Qed.

Lemma shouldIgnore_intro (p : path) pats pattern :
  pattern ∈ pats →
  (if Js.startsWith pattern "*." then
     Js.endsWith (Path.lastname p) (Js.slice1 pattern)
   else bool_decide (Path.lastname p = pattern)
        || Js.includes (Path.to_string p) pattern) = true →
  shouldIgnore p pats = true.
Proof.
  intros Hin Hmatch. unfold shouldIgnore.
  rewrite bool_decide_eq_false_2.
  - apply existsb_exists. exists pattern. split; [|done].
    by apply list_elem_of_In.
  - destruct pats; [by apply elem_of_nil in Hin|done].
Qed.

Lemma split_go_trailing cur s :
  "" ∈ Js.split_go "," cur (s +:+ ",").
Proof.
  revert cur. induction s as [|a s IH]; intros cur.
  - change ("" +:+ ",") with ",". simpl. set_solver.
  - change (String a s +:+ ",") with (String a (s +:+ ",")). simpl.
    destruct (Ascii.eqb a ","); [|apply IH].
    apply elem_of_cons. right. apply IH.
Qed.

(** X1. An empty pattern ignores every path, because every text includes
    the empty text; and a list of patterns that ends in a comma holds
    an empty pattern. *)
Theorem empty_pattern_ignores_everything :
  (∀ (p : path) pats, "" ∈ pats → shouldIgnore p pats = true)
  ∧ (∀ s, "" ∈ Js.trim <$> Js.split "," (s +:+ ",")).
Proof.
  split.
  - intros p pats Hin. apply (shouldIgnore_intro p pats ""); [done|].
    simpl. rewrite includes_here by apply prefix_empty. apply orb_true_r.
  - intros s. apply list_elem_of_fmap. exists "". split; [done|].
    apply split_go_trailing.
Qed.

Lemma empty_pattern_ignores_everything_witness :
  shouldIgnore ["home"; "photo.jpg"] (Js.trim <$> Js.split "," "*.tmp,") = true.
Proof.
  apply (proj1 empty_pattern_ignores_everything).
  apply (proj2 empty_pattern_ignores_everything "*.tmp").
Defined.

(** X2. A pattern [*.ext] ignores every path whose last name ends in
    [.ext]; any other pattern ignores every path that has a component
    of that name, so a directory pattern covers what lies below it. *)
Theorem patterns_cover :
  (∀ (d : path) stem ext pats,
     "*" +:+ ext ∈ pats → Js.startsWith ext "." = true →
     shouldIgnore (d ++ [stem +:+ ext]) pats = true)
  ∧ (∀ (p : path) pattern pats,
       pattern ∈ pats → Js.startsWith pattern "*." = false →
       pattern ∈ p → shouldIgnore p pats = true).
Proof.
  split.
  - intros d stem ext pats Hin Hdot.
    apply (shouldIgnore_intro _ _ ("*" +:+ ext)); [done|].
    change ("*" +:+ ext) with (String "*"%char ext).
    assert (Js.startsWith (String "*"%char ext) "*." = true) as ->.
    { unfold Js.startsWith in *. by destruct ext. }
    unfold Path.lastname. rewrite last_last. apply endsWith_app.
  - intros p pattern pats Hin Hkind Hp.
    apply (shouldIgnore_intro _ _ pattern); [done|]. rewrite Hkind.
    rewrite to_string_includes by done. apply orb_true_r.
Qed.

Lemma patterns_cover_witness :
  shouldIgnore ["home"; "debug.log"] ["*.log"] = true
  ∧ shouldIgnore ["home"; "node_modules"; "x"; "index.js"] ["node_modules"] = true.
Proof.
  split.
  - apply (proj1 patterns_cover ["home"] "debug" ".log" ["*.log"]);
      [set_solver|reflexivity].
  - apply (proj2 patterns_cover _ "node_modules"); [set_solver|reflexivity|set_solver].
Defined.

(** X3. Ignoring by two lists of patterns is ignoring by either. *)
Theorem shouldIgnore_app (p : path) pats1 pats2 :
  shouldIgnore p (pats1 ++ pats2) = shouldIgnore p pats1 || shouldIgnore p pats2.
Proof.
  unfold shouldIgnore. rewrite existsb_app.
  destruct pats1 as [|a pats1], pats2 as [|b pats2]; simpl; try done.
Qed.

End ignore_patterns.


(** ** Configuration *)

Section configuration.

Lemma assign_keys (acc : CategoryMap) key value :
  (assign acc key value).*1
  = if bool_decide (key ∈ acc.*1) then acc.*1 else acc.*1 ++ [key].
Proof.
  induction acc as [|[k v] acc IH]; [done|]. cbn [assign].
  destruct (decide (k = key)) as [->|Hk].
  - rewrite (bool_decide_eq_true_2 (key = key)) by done.
    rewrite !fmap_cons. cbn [fst].
    rewrite bool_decide_eq_true_2; [done|]. apply elem_of_cons. by left.
  - rewrite (bool_decide_eq_false_2 (k = key)) by done.
    rewrite !fmap_cons. cbn [fst].
    rewrite IH. destruct (decide (key ∈ acc.*1)) as [Hin|Hin].
    + rewrite !bool_decide_eq_true_2; [done| |done]. apply elem_of_cons. by right.
    + rewrite !bool_decide_eq_false_2; [done| |done].
      intros [?|?]%elem_of_cons; done.
Qed.
Lemma assign_entries (acc : CategoryMap) key value k v :
  NoDup acc.*1 →
  (k, v) ∈ assign acc key value
  ↔ (k = key ∧ v = value) ∨ ((k, v) ∈ acc ∧ k ≠ key).
Proof.
  induction acc as [|[k0 v0] acc IH]; cbn [assign]; intros Hnd.
  - rewrite list_elem_of_singleton. split; [intros [= -> ->]; by left|].
    intros [[-> ->]|[[]%elem_of_nil _]]. done.
  - rewrite fmap_cons in Hnd. apply NoDup_cons in Hnd as [Hk0 Hnd]. specialize (IH Hnd).
    cbn [fst] in Hk0.
    destruct (decide (k0 = key)) as [->|Hk].
    + rewrite (bool_decide_eq_true_2 (key = key)) by done.
      assert (∀ v', (key, v') ∉ acc) as Hfresh.
      { intros v' Hin. apply Hk0, list_elem_of_fmap. by exists (key, v'). }
      rewrite !elem_of_cons. split; intros; destruct_or?; destruct_and?; simplify_eq; eauto; try (by exfalso; eapply Hfresh); intuition (simplify_eq; eauto).
    + rewrite (bool_decide_eq_false_2 (k0 = key)) by done.
      rewrite !elem_of_cons, IH. intuition (simplify_eq; eauto).
Qed.

Lemma assign_NoDup (acc : CategoryMap) key value :
  NoDup acc.*1 → NoDup (assign acc key value).*1.
Proof.
  intros Hnd. rewrite assign_keys. case_bool_decide; [done|].
  apply NoDup_app. split_and!; [done| |apply NoDup_singleton].
  intros k Hk ->%list_elem_of_singleton. done.
Qed.

Lemma spread_NoDup (base over : CategoryMap) :
  NoDup base.*1 → NoDup (spread base over).*1.
Proof.
  unfold spread. revert base. induction over as [|[k v] over IH];
    intros base Hnd; simpl; [done|].
  apply IH. by apply assign_NoDup.
Qed.

Lemma spread_entries (base over : CategoryMap) k v :
  NoDup base.*1 → NoDup over.*1 →
  (k, v) ∈ spread base over
  ↔ (k, v) ∈ over ∨ ((k, v) ∈ base ∧ k ∉ over.*1).
Proof.
  unfold spread. revert base.
  induction over as [|[k0 v0] over IH]; intros base Hb Ho; simpl.
  - split; [intros; right; split; [done|apply not_elem_of_nil]|].
    intros [[]%elem_of_nil|[? _]]. done.
  - apply NoDup_cons in Ho as [Hk0 Ho].
    rewrite (IH _ (assign_NoDup _ _ _ Hb) Ho), assign_entries by done.
    rewrite !elem_of_cons. split.
    + intros [Hin|[[[-> ->]|[Hin Hne]] Hover]];
        [left; by right|left; by left|].
      right. split; [done|]. intros [?|?]; done.
    + intros [[[= -> ->]|Hin]|[Hin Hnot]].
      * right. split; [by left|done].
      * by left.
      * right. split; [|intros ?; apply Hnot; by right].
        right. split; [done|]. intros ->. apply Hnot. by left.
Qed.

Lemma spread_keys_base (base over : CategoryMap) k :
  k ∈ base.*1 → k ∈ (spread base over).*1.
Proof.
  unfold spread. revert base. induction over as [|[k0 v0] over IH];
    intros base Hk; simpl; [done|].
  apply IH. rewrite assign_keys. case_bool_decide; [done|].
  apply elem_of_app. by left.
Qed.

(** X4. Merging a custom configuration over the built-in one, both with
    distinct keys: the result has distinct keys; its entries are the
    custom entries and the built-in entries whose name the custom
    configuration does not use; and every built-in category name is
    still a category name. *)
Theorem spread_merges (base over : CategoryMap) :
  NoDup base.*1 → NoDup over.*1 →
  NoDup (Object_keys (spread base over))
  ∧ (∀ k v, (k, v) ∈ spread base over
            ↔ (k, v) ∈ over ∨ ((k, v) ∈ base ∧ k ∉ Object_keys over))
  ∧ (∀ k, k ∈ Object_keys base → k ∈ Object_keys (spread base over)).
Proof.
  intros Hb Ho. split_and!.
  - by apply spread_NoDup.
  - intros k v. by apply spread_entries.
  - intros k. apply spread_keys_base.
Qed.

Lemma spread_merges_witness :
  NoDup (Object_keys (spread defaultCategories sampleConfig))
  ∧ ("Fonts", [".ttf"; ".otf"; ".woff"; ".woff2"; ".eot"])
      ∈ spread defaultCategories sampleConfig.
Proof.
  assert (NoDup defaultCategories.*1) as Hb
    by (apply (bool_decide_unpack _); by vm_compute).
  assert (NoDup sampleConfig.*1) as Ho
    by (apply (bool_decide_unpack _); by vm_compute).
  destruct (spread_merges defaultCategories sampleConfig Hb Ho) as (H1 & H2 & _).
  split; [done|]. apply H2. right. split.
  - apply (bool_decide_unpack _). by vm_compute.
  - apply (bool_decide_unpack _). by vm_compute.
Defined.

Lemma writeFile_then_readFile p body w w' :
  Fs.writeFile p body w = (Ok (), w') →
  Fs.readFile p w' = (Ok body, w') ∧ cwd w' = cwd w.
Proof.
  unfold Fs.writeFile, Fs.readFile. destruct (negb _); [done|].
  destruct p as [|c p]; [done|]. simpl.
  destruct (disk w !! (c :: p)) as [[]|]; intros; simplify_eq/=;
    by rewrite lookup_insert_eq.
Qed.

(** X5. [loadConfig] leaves the world as it is; when it returns, the file
    it read holds a JSON object and the result is that object merged
    over the built-in categories, so every built-in category name is
    among the category names.  Loading the file [generateSampleConfig]
    has just written returns the sample merged over the built-in
    categories. *)
Theorem loadConfig_merges :
  (∀ configPath w,
     (loadConfig configPath w).2 = w
     ∧ ∀ categories, (loadConfig configPath w).1 = Ok categories →
         (∃ custom mtime,
            Fs.node_at (disk w) (Path.resolve (cwd w) configPath)
              = Some (File (ConfigJson custom) mtime)
            ∧ categories = spread defaultCategories custom)
         ∧ ∀ k, k ∈ Object_keys defaultCategories → k ∈ Object_keys categories)
  ∧ (∀ outputPath w cfg w',
       generateSampleConfig outputPath w = (Ok cfg, w') →
       cfg = sampleConfig
       ∧ loadConfig outputPath w'
         = (Ok (spread defaultCategories sampleConfig), w')).
Proof.
  split.
  - intros configPath w. split; [symmetry; apply keeps_loadConfig|].
    intros categories. unfold loadConfig. case_bool_decide; [done|].
    rewrite bind_run. simpl. rewrite bind_run. unfold Fs.readFile.
    destruct (Fs.node_at _ _) as [[body mtime|]|]; [|done..].
    rewrite bind_run. destruct body as [text|log|custom]; simpl; [done..|].
    intros [= <-]. split; [by eauto|]. intros k.
    exact (spread_keys_base defaultCategories custom k).
  - intros outputPath w cfg w'. unfold generateSampleConfig, loadConfig.
    case_bool_decide; [done|]. rewrite bind_run. simpl. rewrite bind_run.
    destruct (Fs.writeFile _ _ w) as [[[]|e|] w1] eqn:Hwrite; [|done..].
    intros [= <- <-]. split; [done|].
    apply writeFile_then_readFile in Hwrite as [Hread Hcwd].
    rewrite bind_run. simpl. rewrite Hcwd, bind_run, Hread. done.
Qed.

Lemma loadConfig_merges_witness :
  ∃ w', generateSampleConfig "segre.json" Sample.desk = (Ok sampleConfig, w')
        ∧ loadConfig "segre.json" w'
          = (Ok (spread defaultCategories sampleConfig), w').
Proof.
  eexists. split; [reflexivity|].
  eapply (proj2 loadConfig_merges "segre.json" Sample.desk). reflexivity.
Defined.

End configuration.



(** ** Saving, reading and popping the log *)

Section log_stack.

Lemma saveLog_run targetDir ops w :
  saveLog targetDir ops w =
  match disk w !! (targetDir ++ [LOG_FILE_NAME]) with
  | Some (File (ConfigJson _) _) =>
      (Throw "TypeError: existingLog.push is not a function", w)
  | _ =>
      Fs.writeFile (targetDir ++ [LOG_FILE_NAME])
        (LogJson (prior_log (disk w) targetDir ++
                    [{| timestamp := clock_iso w; operations := ops |}])) w
  end.
Proof.
  unfold saveLog, prior_log. rewrite logPath_eq, bind_run, try_catch_run, bind_run.
  unfold Fs.readFile. rewrite node_at_snoc.
  destruct (disk w !! (targetDir ++ [LOG_FILE_NAME])) as [[[]|]|]; done.
Qed.

Lemma writeFile_run (d : path) c body w :
  Fs.writeFile (d ++ [c]) body w =
  if Fs.is_dir (disk w) d then
    match disk w !! (d ++ [c]) with
    | Some Dir => (Throw "EISDIR", w)
    | _ => (Ok (), with_disk (<[d ++ [c] := File body (clock w)]> (disk w)) w)
    end
  else (Throw "ENOENT", w).
Proof.
  unfold Fs.writeFile. rewrite dirname_snoc, node_at_snoc.
  by destruct (Fs.is_dir (disk w) d).
Qed.

Lemma saveLog_cases targetDir ops w :
  saveLog targetDir ops w =
  if writable_log (disk w) targetDir then
    (Ok (),
     with_disk (<[targetDir ++ [LOG_FILE_NAME] :=
                    File (LogJson (prior_log (disk w) targetDir ++
                            [{| timestamp := clock_iso w; operations := ops |}]))
                         (clock w)]> (disk w)) w)
  else ((saveLog targetDir ops w).1, w).
Proof.
  rewrite saveLog_run, writeFile_run. unfold writable_log.
  destruct (disk w !! (targetDir ++ [LOG_FILE_NAME])) as [[[]|]|];
    destruct (Fs.is_dir (disk w) targetDir); done.
Qed.

Lemma saveLog_ok_iff targetDir ops w :
  (saveLog targetDir ops w).1 = Ok () ↔ writable_log (disk w) targetDir = true.
Proof.
  rewrite saveLog_run, writeFile_run. unfold writable_log.
  destruct (disk w !! (targetDir ++ [LOG_FILE_NAME])) as [[[]|]|];
    destruct (Fs.is_dir (disk w) targetDir); done.
Qed.



(** [updateLog] on a directory that holds a log file. *)
Lemma updateLog_run targetDir log w body mtime :
  Fs.is_dir (disk w) targetDir = true →
  disk w !! (targetDir ++ [LOG_FILE_NAME]) = Some (File body mtime) →
  updateLog targetDir log w
  = (Ok (),
     with_disk (match log with
                | [] => delete (targetDir ++ [LOG_FILE_NAME]) (disk w)
                | _ => <[targetDir ++ [LOG_FILE_NAME] :=
                           File (LogJson log) (clock w)]> (disk w)
                end) w).
Proof.
  intros Hdir Hlog. unfold updateLog. rewrite logPath_eq.
  destruct log as [|b log]; simpl.
  - unfold Fs.unlink. by rewrite node_at_snoc, Hlog.
  - by rewrite writeFile_run, Hdir, Hlog.
Qed.

(** X7. Push, then pop: after a successful [saveLog], writing back the log
    without its last batch (as undo does) succeeds and leaves the log as
    it first was, and no log file when there was no batch before; no
    other path has changed. *)
Theorem saveLog_then_pop targetDir ops w :
  let logPath := targetDir ++ [LOG_FILE_NAME] in
  let saved := saveLog targetDir ops w in
  let log := prior_log (disk w) targetDir ++
               [{| timestamp := clock_iso w; operations := ops |}] in
  let popped := updateLog targetDir (removelast log) saved.2 in
  saved.1 = Ok () →
  popped.1 = Ok ()
  ∧ readLog targetDir popped.2
    = (Ok (match prior_log (disk w) targetDir with
           | [] => None
           | prior => Some (JArr prior)
           end), popped.2)
  ∧ ∀ q, q ≠ logPath → disk popped.2 !! q = disk w !! q.
Proof.
  intros logPath saved log popped Hsaved.
  pose proof Hsaved as Hok%saveLog_ok_iff.
  subst popped log saved. rewrite removelast_last.
  rewrite saveLog_cases, Hok. simpl.
  set (w1 := with_disk _ w).
  assert (Fs.is_dir (disk w1) targetDir = true) as Hdir.
  { apply andb_true_iff in Hok as [Hdir _]. unfold Fs.is_dir, Fs.node_at in *.
    destruct targetDir as [|c d]; [done|]. simpl.
    rewrite lookup_insert_ne; [done|]. intros H.
    apply (f_equal length) in H. simpl in H. rewrite length_app in H.
    simpl in H. lia. }
  assert (∃ body mtime, disk w1 !! logPath = Some (File body mtime))
    as (body & mtime & Hfile).
  { simpl. rewrite lookup_insert_eq. by eauto. }
  assert (∀ q, q ≠ logPath → disk w1 !! q = disk w !! q) as Hframe.
  { intros q Hq. simpl. by rewrite lookup_insert_ne. }
  rewrite (updateLog_run targetDir _ w1 body mtime Hdir Hfile).
  fold logPath. clearbody w1.
  destruct (prior_log (disk w) targetDir) as [|b prior] eqn:Hprior; simpl.
  - split_and!; [done| |].
    + rewrite readLog_run. simpl. fold logPath. by rewrite lookup_delete_eq.
    + intros q Hq. rewrite lookup_delete_ne by done. by apply Hframe.
  - split_and!; [done| |].
    + rewrite readLog_run. simpl. fold logPath. by rewrite lookup_insert_eq.
    + intros q Hq. rewrite lookup_insert_ne by done. by apply Hframe.
Qed.

Lemma saveLog_then_pop_witness :
  readLog ["home"]
    (updateLog ["home"]
       (removelast (prior_log (disk Sample.logged) ["home"] ++
          [{| timestamp := clock_iso Sample.logged; operations := [] |}]))
       (saveLog ["home"] [] Sample.logged).2).2
  = (Ok (Some (JArr [Sample.batch])),
     (updateLog ["home"]
        (removelast (prior_log (disk Sample.logged) ["home"] ++
           [{| timestamp := clock_iso Sample.logged; operations := [] |}]))
        (saveLog ["home"] [] Sample.logged).2).2).
Proof.
  by apply (saveLog_then_pop ["home"] [] Sample.logged).
Defined.

End log_stack.

(** ** Pruning removes directories only *)

Global Instance only_dirs_removed_preorder : PreOrder only_dirs_removed.
Proof.
  split.
  - intros w. by split_and!.
  - intros w1 w2 w3 (Hj1 & Hs1 & Hf1) (Hj2 & Hs2 & Hf2). split_and!.
    + congruence.
    + by etrans.
    + intros q body mtime Hq. by apply Hf2, Hf1.
Qed.

Section pruning.

Lemma keeps_rmdir_dirs p : keeps only_dirs_removed (Fs.rmdir p).
Proof.
  intros w. unfold Fs.rmdir. destruct p as [|c p]; [done|]. simpl.
  destruct (disk w !! (c :: p)) as [[]|] eqn:Hp; [done| |done].
  case_bool_decide; [|done]. split_and!; [done|apply delete_subseteq|].
  intros q body mtime Hq. simpl. rewrite lookup_delete_ne; [done|].
  intros <-. congruence.
Qed.

Lemma keeps_cleanup_dirs fuel dir cf :
  keeps only_dirs_removed (cleanupEmptyDirectories fuel dir cf).
Proof.
  revert dir. induction fuel as [|fuel IH]; intros dir; simpl.
  { apply keeps_spin, _. }
  apply keeps_bind; [apply _| |].
  { apply keeps_eq; [apply _|apply keeps_readdir]. }
  intros entries. apply keeps_for_of; [apply _|]. intros [] entry.
  unfold cleanup_entry. destruct (Js.arr_includes _ _); [apply keeps_ret, _|].
  apply keeps_try_catch; [apply _| |intros; apply keeps_ret, _].
  apply keeps_bind; [apply _| |].
  { apply keeps_eq; [apply _|apply keeps_stat]. }
  intros [|]; [apply keeps_ret, _|].
  apply keeps_bind; [apply _|apply IH|]. intros [].
  apply keeps_bind; [apply _| |].
  { apply keeps_eq; [apply _|apply keeps_readdir]. }
  intros contents. case_bool_decide; [apply keeps_rmdir_dirs|apply keeps_ret, _].
Qed.

Lemma keeps_sweep_dirs targetDir u category :
  keeps only_dirs_removed (sweep_category targetDir u category).
Proof.
  unfold sweep_category.
  apply keeps_try_catch; [apply _| |intros; apply keeps_ret, _].
  apply keeps_bind; [apply _| |].
  { apply keeps_eq; [apply _|apply keeps_readdir]. }
  intros files. case_bool_decide; [apply keeps_rmdir_dirs|apply keeps_ret, _].
Qed.

(** X8. Pruning after a recursive run, and the sweep over the category
    folders after undo, remove at most directories: they rename
    nothing, add and change nothing, and leave every file in place. *)
Theorem pruning_removes_only_directories :
  (∀ fuel dir cf w,
     only_dirs_removed w (cleanupEmptyDirectories fuel dir cf w).2)
  ∧ (∀ targetDir categories w,
       only_dirs_removed w
         (for_of categories () (sweep_category targetDir) w).2).
Proof.
  split.
  - intros fuel dir cf w. apply keeps_cleanup_dirs.
  - intros targetDir categories w. revert w.
    apply keeps_for_of; [apply _|]. intros [] category.
    apply keeps_sweep_dirs.
Qed.

End pruning.

(** ** The counters of undo *)

Section undo_counts.

Lemma undo_operation_counts counts op w :
  ∃ js,
    journal (undo_operation counts op w).2 = journal w ++ js
    ∧ length (done_moves js) ≤ 1
    ∧ (undo_operation counts op w).1
      = Ok (counts.1 + length (done_moves js),
            counts.2 + (1 - length (done_moves js))).
Proof.
  unfold undo_operation. rewrite try_catch_run, bind_run.
  unfold Fs.access. destruct (Fs.exists_at (disk w) (movedTo op)).
  2:{ exists []. simpl. rewrite app_nil_r. split_and!; [done|lia|].
      do 2 f_equal; lia. }
  destruct (getUniqueFilePath_first (original op) w) as (n & Hrun & _).
  rewrite (bind_ok _ _ _ _ _ Hrun), bind_run, rename_run.
  destruct (Fs.rename_disk _ _ _ _); simpl; eexists [_];
    (split_and!; [done|simpl; lia|]); simpl; do 2 f_equal; lia.
Qed.

Lemma undo_loop_counts ops counts w :
  ∃ js r e,
    journal (for_of ops counts undo_operation w).2 = journal w ++ js
    ∧ (for_of ops counts undo_operation w).1 = Ok (r, e)
    ∧ r = counts.1 + length (done_moves js)
    ∧ r + e = counts.1 + counts.2 + length ops.
Proof.
  revert counts w. induction ops as [|op ops IH]; intros counts w.
  { exists [], counts.1, counts.2. simpl. rewrite app_nil_r.
    destruct counts. split_and!; simpl; [done|done|lia|lia]. }
  destruct (undo_operation_counts counts op w) as (js1 & Hj1 & Hle & Hr1).
  simpl. rewrite bind_run.
  destruct (undo_operation counts op w) as [[counts1|?|] w1]; simplify_eq/=.
  destruct (IH (counts.1 + length (done_moves js1),
                counts.2 + (1 - length (done_moves js1))) w1)
    as (js2 & r & e & Hj2 & Hr2 & Hr & Hsum).
  exists (js1 ++ js2), r, e. simpl in *. split_and!.
  - by rewrite Hj2, Hj1, app_assoc.
  - done.
  - rewrite done_moves_app, length_app. lia.
  - lia.
Qed.

(** X9. The restore loop of undo never throws and never stops early:
    [restoredCount] grows by the number of renames that succeeded and
    the two counters together by the number of operations.  So when
    [undoOrganize] reports counts, they add up to the number of
    operations of the last batch of the log it read. *)
Theorem undo_counts_add_up :
  (∀ ops counts w, ∃ js r e,
     journal (for_of ops counts undo_operation w).2 = journal w ++ js
     ∧ (for_of ops counts undo_operation w).1 = Ok (r, e)
     ∧ r = counts.1 + length (done_moves js)
     ∧ r + e = counts.1 + counts.2 + length ops)
  ∧ (∀ targetDir w r e,
       (undoOrganize targetDir w).1 = Ok (Undone r e) →
       ∃ log lastBatch mtime,
         disk w !! (Path.resolve (cwd w) (arg_string targetDir)
                      ++ [LOG_FILE_NAME])
           = Some (File (LogJson log) mtime)
         ∧ last log = Some lastBatch
         ∧ r + e = length (operations lastBatch)).
Proof.
  split; [apply undo_loop_counts|].
  intros arg w r e. unfold undoOrganize. destruct (blank arg); [done|].
  generalize (Object_keys defaultCategories). intros cats.
  rewrite try_catch_rethrow, bind_run. simpl.
  rewrite bind_run, readLog_run.
  set (logPath := Path.resolve (cwd w) (arg_string arg) ++ [LOG_FILE_NAME]).
  destruct (disk w !! logPath) as [[[text|log|cfg] mtime|]|]; simpl; try done.
  destruct (last log) as [lastBatch|] eqn:Hlast; [|done].
  rewrite bind_run.
  destruct (undo_loop_counts (operations lastBatch) (0, 0) w)
    as (js & r' & e' & _ & Hloop & _ & Hsum).
  destruct (for_of (operations lastBatch) (0, 0) undo_operation w)
    as [[counts|?|] w1]; simpl in Hloop; simplify_eq.
  rewrite bind_run.
  destruct (updateLog _ _ w1) as [[[]|?|] w2]; [|done..].
  rewrite bind_run.
  destruct (for_of cats () _ w2) as [[[]|?|] w3]; [|done..].
  simpl. intros [= <- <-]. exists log, lastBatch, mtime.
  split_and!; [done..|simpl in Hsum; lia].
Qed.

Lemma undo_counts_add_up_witness :
  ∃ log lastBatch mtime,
    disk Sample.logged !! (Path.resolve (cwd Sample.logged)
                             (arg_string (Str "/home")) ++ [LOG_FILE_NAME])
      = Some (File (LogJson log) mtime)
    ∧ last log = Some lastBatch
    ∧ 1 + 0 = length (operations lastBatch).
Proof.
  by apply (proj2 undo_counts_add_up (Str "/home") Sample.logged 1 0).
Defined.

End undo_counts.

(** ** A run that finds nothing *)

Section nothing_to_do.

Lemma process_files_report prompt targetDir categories options files w rep :
  (process_files prompt targetDir categories options files w).1 = Ok rep →
  filesToProcess rep = files
  ∧ (files = [] →
     (process_files prompt targetDir categories options files w).2 = w
     ∧ tally rep = {| moved := []; processedCount := 0; skippedCount := 0 |}).
Proof.
  unfold process_files. case_bool_decide as Hnone.
  { intros [= <-]. by split. }
  rewrite bind_run. destruct (for_of files _ _ w) as [[t|?|] w1]; [|done..].
  rewrite bind_run.
  match goal with
  | |- context [(if ?b then ?x else ?y) w1] =>
      destruct ((if b then x else y) w1) as [[[]|?|] w2]; [|done..]
  end.
  rewrite bind_run.
  match goal with
  | |- context [(if ?b then ?x else ?y) w2] =>
      destruct ((if b then x else y) w2) as [[[]|?|] w3]; [|done..]
  end.
  intros [= <-]. split; [done|]. intros ->. done.
Qed.

(** X10. When [organizeDirectory] finds no file to organize, it returns with
    the world as it was: no directory is made and no log is written. *)
Theorem organize_nothing_to_do prompt targetDir options w rep :
  (organizeDirectory prompt targetDir options w).1 = Ok rep →
  filesToProcess rep = [] →
  (organizeDirectory prompt targetDir options w).2 = w
  ∧ tally rep = {| moved := []; processedCount := 0; skippedCount := 0 |}.
Proof.
  unfold organizeDirectory. destruct (blank targetDir); [done|].
  rewrite try_catch_rethrow, bind_run. simpl.
  set (dir := Path.resolve (cwd w) (arg_string targetDir)).
  rewrite bind_run, try_catch_run. unfold Fs.access.
  destruct (Fs.exists_at (disk w) dir); [|done].
  rewrite bind_run. unfold Fs.stat.
  destruct (Fs.node_at (disk w) dir) as [[body mtime|]|]; [done| |done].
  rewrite bind_run.
  set (load := match config options with
               | Some (String _ _ as configPath) => loadConfig configPath
               | _ => mret defaultCategories
               end).
  assert (keeps eq load) as Hload.
  { subst load. destruct (config options) as [[|]|];
      [apply keeps_ret, _|apply keeps_loadConfig|apply keeps_ret, _]. }
  specialize (Hload w).
  destruct (load w) as [[categories|e|] w0]; simpl in Hload; subst w0; [|done..].
  rewrite bind_run.
  set (cf := Object_keys categories).
  set (ip := match ignore options with
             | Some (String _ _ as patterns) => _
             | _ => []
             end).
  pose proof (keeps_discover dir cf ip options w) as Hsame.
  destruct (discover dir cf ip options w) as [[files|e|] w0];
    simpl in Hsame; subst w0; [|done..].
  intros Hrep Hnone.
  destruct (process_files_report _ _ _ _ _ _ _ Hrep) as [Hfiles Hempty].
  apply Hempty. congruence.
Qed.

Lemma organize_nothing_to_do_witness :
  (organizeDirectory Sample.yes (Str "/home") Sample.plainly Sample.corrupt).2
  = Sample.corrupt.
Proof.
  eapply (organize_nothing_to_do Sample.yes (Str "/home") Sample.plainly
            Sample.corrupt); reflexivity.
Defined.

End nothing_to_do.

(** ** Numbered names keep the extension *)

Section extension.

Lemma has_char_digits c (x : N) s :
  (∀ d, pretty_N_char d ≠ c) →
  has_char c s = false → has_char c (pretty_N_go x s) = false.
Proof.
  intros Hc. revert s. induction (N.lt_wf_0 x) as [x _ IH]; intros s Hs.
  assert (x = 0 ∨ 0 < x)%N as [->|?] by lia.
  - by rewrite pretty_N_go_0.
  - rewrite pretty_N_go_step by done. apply IH.
    { by apply N.div_lt. }
    cbn [has_char]. rewrite Hs, orb_false_r. apply Ascii.eqb_neq, Hc.
Qed.

Lemma has_char_pretty c (k : nat) :
  (∀ d, pretty_N_char d ≠ c) → has_char c (pretty k) = false.
Proof.
  intros Hc. unfold pretty, pretty_nat, pretty, pretty_N.
  case_decide.
  - cbn [has_char]. rewrite orb_false_r. apply Ascii.eqb_neq. apply (Hc 0%N).
  - by apply has_char_digits.
Qed.

Lemma digit_not_dot d : pretty_N_char d ≠ "."%char.
Proof. unfold pretty_N_char. by repeat case_match. Qed.

Lemma has_dot_suffix (k : nat) : has_char "." ("(" +:+ pretty k +:+ ")") = false.
Proof.
  change ("(" +:+ ?s) with (String "("%char s). simpl.
  rewrite has_char_app, (has_char_pretty _ _ digit_not_dot). done.
Qed.

Lemma cut_last_dot_none s :
  Path.cut_last_dot s = None ↔ has_char "." s = false.
Proof.
  induction s as [|a s IH]; simpl; [done|].
  destruct (Path.cut_last_dot s) as [[stem ext]|].
  - split; [done|]. intros [_ H]%orb_false_iff. apply IH in H. done.
  - destruct (Ascii.eqb a ".") eqn:Ha; simpl; [done|].
    split; [intros _; by apply IH|done].
Qed.

(** The cut of a name: it is split at a dot after which there is none. *)
Lemma cut_last_dot_some s stem ext :
  Path.cut_last_dot s = Some (stem, ext) →
  s = stem +:+ ext
  ∧ ∃ rest, ext = String "."%char rest ∧ has_char "." rest = false.
Proof.
  revert stem ext. induction s as [|a s IH]; intros stem ext; simpl; [done|].
  destruct (Path.cut_last_dot s) as [[stem' ext']|] eqn:Hcut.
  - intros [= <- <-]. destruct (IH _ _ eq_refl) as (-> & rest & -> & Hrest).
    split; [done|]. eauto.
  - destruct (Ascii.eqb a ".") eqn:Ha; [|done]. intros [= <- <-].
    apply Ascii.eqb_eq in Ha as ->. split; [done|].
    exists s. split; [done|]. by apply cut_last_dot_none.
Qed.

Lemma cut_last_dot_app_ext x rest :
  has_char "." rest = false →
  Path.cut_last_dot (x +:+ String "."%char rest)
  = Some (x, String "."%char rest).
Proof.
  intros Hrest. induction x as [|a x IH].
  - simpl. by rewrite (proj2 (cut_last_dot_none rest) Hrest).
  - rewrite string_app_cons. simpl. by rewrite IH.
Qed.

Lemma cut_last_dot_app_plain x t stem ext :
  has_char "." t = false →
  Path.cut_last_dot x = Some (stem, ext) →
  Path.cut_last_dot (x +:+ t) = Some (stem, ext +:+ t).
Proof.
  intros Ht Hcut.
  destruct (cut_last_dot_some _ _ _ Hcut) as (-> & rest & -> & Hrest).
  rewrite string_app_assoc, string_app_cons. apply cut_last_dot_app_ext.
  by rewrite has_char_app, Hrest, Ht.
Qed.

Lemma strip_suffix_app stem ext :
  Path.strip_suffix ext (stem +:+ ext) = Some stem.
Proof.
  induction stem as [|a stem IH].
  - change ("" +:+ ext) with ext.
    destruct ext; cbn [Path.strip_suffix]; by case_bool_decide.
  - rewrite string_app_cons. simpl. rewrite bool_decide_eq_false_2.
    + by rewrite IH.
    + intros H. apply (f_equal String.length) in H.
      simpl in H. rewrite string_length_app in H. lia.
Qed.

Lemma strip_suffix_empty s : Path.strip_suffix "" s = Some s.
Proof. rewrite <-(string_app_nil_r s) at 1. apply strip_suffix_app. Qed.

(** The name with the counter in it, seen from the cut of the name. *)
Lemma numbered_name_cut (p : path) k :
  Path.lastname p ≠ ".." →
  Path.extname_of (numbered_name p k) = Path.extname p.
Proof.
  intros Hname. unfold numbered_name, Path.basename, Path.extname, Js.show_nat.
  set (nm := Path.lastname p) in *.
  pose proof (has_dot_suffix k) as Hsuffix.
  assert (∀ s : string, match s with "" => s | _ => s end = s) as Hsame
    by (by intros []).
  destruct (Path.cut_last_dot nm) as [[stem ext]|] eqn:Hcut.
  - destruct (cut_last_dot_some _ _ _ Hcut) as (Hnm & rest & -> & Hrest).
    destruct (decide (stem = "")) as [->|Hstem].
    + assert (Path.extname_of nm = "") as ->.
      { unfold Path.extname_of. rewrite Hcut.
        by rewrite bool_decide_eq_true_2 by (by left). }
      rewrite strip_suffix_empty, Hsame, string_app_nil_r.
      unfold Path.extname_of.
      rewrite (cut_last_dot_app_plain nm _ "" (String "." rest)) by done.
      by rewrite bool_decide_eq_true_2 by (by left).
    + assert (Path.extname_of nm = String "." rest) as ->.
      { unfold Path.extname_of. rewrite Hcut.
        by rewrite bool_decide_eq_false_2 by (by intros [?|?]). }
      rewrite Hnm, strip_suffix_app.
      destruct stem as [|a stem]; [done|].
      unfold Path.extname_of.
      rewrite <-!string_app_assoc.
      rewrite cut_last_dot_app_ext by done.
      rewrite bool_decide_eq_false_2; [done|].
      intros [H|H]; [done|].
      apply (f_equal (has_char "(")) in H. revert H.
      rewrite !has_char_app. simpl. by rewrite !orb_true_r.
  - assert (Path.extname_of nm = "") as ->.
    { unfold Path.extname_of. by rewrite Hcut. }
    rewrite strip_suffix_empty, Hsame, string_app_nil_r.
    unfold Path.extname_of.
    assert (Path.cut_last_dot (nm +:+ "(" +:+ pretty k +:+ ")") = None) as ->; [|done].
    apply cut_last_dot_none. rewrite has_char_app, Hsuffix.
    apply cut_last_dot_none in Hcut. by rewrite Hcut.
Qed.

Lemma candidate_extname (p : path) k :
  Path.lastname p ≠ ".." → Path.extname (candidate p k) = Path.extname p.
Proof.
  intros Hname. destruct k as [|k]; [done|].
  rewrite candidate_S, numbered_eq. unfold Path.extname at 1, Path.lastname.
  rewrite last_last. by apply numbered_name_cut.
Qed.

Lemma candidate_same_directory (p : path) k :
  Path.dirname (candidate p k) = Path.dirname p.
Proof.
  destruct k as [|k]; [done|].
  by rewrite candidate_S, numbered_eq, dirname_snoc.
Qed.

(** X11. What [getUniqueFilePath] returns lies in the directory of the path
    it was given and has the extension of that path, so that a file
    renamed on a conflict resolves to the same category as before.  For
    a path that ends in [..] the extension is not kept: the numbered
    name [..(1)] has the extension [.(1)]. *)
Theorem getUniqueFilePath_keeps_extension :
  (∀ (p : path) w q w',
     Path.lastname p ≠ ".." →
     getUniqueFilePath p w = (Ok q, w') →
     Path.dirname q = Path.dirname p
     ∧ Path.extname q = Path.extname p
     ∧ ∀ categories,
         getCategory (Some (Js.toLowerCase (Path.extname q))) categories
         = getCategory (Some (Js.toLowerCase (Path.extname p))) categories)
  ∧ (∀ (d : path), Path.extname (numbered (d ++ [".."]) 1) = ".(1)").
Proof.
  split.
  - intros p w q w' Hname Hrun.
    destruct (getUniqueFilePath_first p w) as (n & Hn & _).
    rewrite Hrun in Hn. simplify_eq.
    assert (Path.extname (candidate p n) = Path.extname p) as Hext
      by (by apply candidate_extname).
    split_and!; [apply candidate_same_directory|done|].
    intros categories. by rewrite Hext.
  - intros d. rewrite numbered_eq. unfold Path.extname, Path.lastname.
    rewrite last_last. unfold numbered_name, Path.basename, Path.extname,
      Path.lastname. by rewrite last_last.
Qed.

Lemma getUniqueFilePath_keeps_extension_witness :
  Path.dirname ["home"; "a(2).txt"] = Path.dirname ["home"; "a.txt"]
  ∧ Path.extname ["home"; "a(2).txt"] = Path.extname ["home"; "a.txt"]
  ∧ ∀ categories,
      getCategory (Some (Js.toLowerCase (Path.extname ["home"; "a(2).txt"])))
        categories
      = getCategory (Some (Js.toLowerCase (Path.extname ["home"; "a.txt"])))
          categories.
Proof.
  apply (proj1 getUniqueFilePath_keeps_extension ["home"; "a.txt"]
           Sample.crowd ["home"; "a(2).txt"] Sample.crowd).
  - by vm_compute.
  - reflexivity.
Defined.

End extension.

(** ** The built-in table *)

Section builtin.

Lemma getCategory_loop_listed (categories : CategoryMap) cat exts e :
  NoDup (mjoin categories.*2) →
  (cat, exts) ∈ categories →
  Js.toLowerCase e ∈ exts →
  getCategory_loop e categories = cat.
Proof.
  intros Hexts Hin Hlisted.
  destruct (getCategory_loop_first e categories)
    as [(i & exts' & Hi & Hin' & _)|[_ Hnone]].
  2:{ by destruct (Hnone _ _ Hin). }
  apply list_elem_of_lookup in Hin as [j Hj].
  destruct (decide (i = j)) as [->|Hij]; [congruence|]. exfalso.
  revert i j Hi Hj Hij Hexts.
  generalize (getCategory_loop e categories). intros c.
  induction categories as [|[c0 x0] rest IH]; intros i j Hi Hj Hij Hd; [done|].
  simpl in Hd. apply NoDup_app in Hd as (_ & Hdisj & Hrest).
  destruct i as [|i], j as [|j]; simplify_eq/=.
  - apply (Hdisj _ Hin'). apply list_elem_of_join. exists exts.
    split; [done|]. apply list_elem_of_fmap. exists (cat, exts).
    split; [done|]. by eapply list_elem_of_lookup_2.
  - apply (Hdisj _ Hlisted). apply list_elem_of_join. exists exts'.
    split; [done|]. apply list_elem_of_fmap. exists (c, exts').
    split; [done|]. by eapply list_elem_of_lookup_2.
  - eapply (IH i j); eauto.
Qed.

(** X12. In a category map that lists no extension twice, every listed
    extension resolves, in any letter case, to the category that lists
    it; the built-in map is such a map, all its extensions are in lower
    case, and none is empty. *)
Theorem listed_extension_resolves :
  (∀ (categories : CategoryMap) cat exts e,
     NoDup (mjoin categories.*2) →
     (cat, exts) ∈ categories →
     e ≠ "" →
     Js.toLowerCase e ∈ exts →
     getCategory (Some e) categories = cat)
  ∧ NoDup (mjoin defaultCategories.*2)
  ∧ Forall (λ e, Js.toLowerCase e = e ∧ e ≠ "") (mjoin defaultCategories.*2)
  ∧ (∀ cat exts e,
       (cat, exts) ∈ defaultCategories →
       Js.toLowerCase e ∈ exts →
       getCategory (Some e) defaultCategories = cat).
Proof.
  assert (NoDup (mjoin defaultCategories.*2)) as Hnd.
  { apply (bool_decide_unpack _). by vm_compute. }
  assert (Forall (λ e, Js.toLowerCase e = e ∧ e ≠ "")
            (mjoin defaultCategories.*2)) as Hlow.
  { apply (bool_decide_unpack _). by vm_compute. }
  assert (∀ (categories : CategoryMap) cat exts e,
            NoDup (mjoin categories.*2) → (cat, exts) ∈ categories →
            e ≠ "" → Js.toLowerCase e ∈ exts →
            getCategory (Some e) categories = cat) as Hgen.
  { intros categories cat exts e Hexts Hin He Hlisted.
    rewrite getCategory_nonempty by done.
    by apply (getCategory_loop_listed _ _ exts). }
  split_and!; [done..|].
  intros cat exts e Hin Hlisted. apply (Hgen _ _ exts); [done..| |done].
  intros ->. simpl in Hlisted.
  assert ("" ∈ mjoin defaultCategories.*2) as Hmem.
  { apply list_elem_of_join. exists exts. split; [done|].
    apply list_elem_of_fmap. by exists (cat, exts). }
  rewrite Forall_forall in Hlow. by destruct (Hlow _ Hmem).
Qed.

Lemma listed_extension_resolves_witness :
  getCategory (Some ".PdF") defaultCategories = "Documents".
Proof.
  apply (proj2 (proj2 (proj2 listed_extension_resolves)) "Documents"
           [".pdf"; ".doc"; ".docx"; ".xls"; ".xlsx"; ".ppt"; ".pptx";
            ".txt"; ".rtf"; ".odt"; ".ods"; ".odp"; ".md"; ".csv"] ".PdF").
  - by apply (list_elem_of_lookup_2 _ 3).
  - by apply (list_elem_of_lookup_2 _ 0).
Defined.

End builtin.

(** ** Discovery is exact *)

Section exact_discovery.

Lemma for_of_gather (P : string → list FileEntry → Prop) entries acc
    (body : list FileEntry → string → M (list FileEntry)) w :
  (∀ acc e, e ∈ entries → ∃ new, body acc e w = (Ok (acc ++ new), w) ∧ P e new) →
  ∃ news, for_of entries acc body w = (Ok (acc ++ mjoin news), w)
          ∧ Forall2 P entries news.
Proof.
  revert acc. induction entries as [|e entries IH]; intros acc Hbody.
  { exists []. simpl. by rewrite app_nil_r. }
  destruct (Hbody acc e) as (new & Hrun & Hnew); [left|].
  destruct (IH (acc ++ new)) as (news & Hrest & Hnews).
  { intros acc' e' He'. apply Hbody. by right. }
  exists (new :: news). split; [|by constructor].
  rewrite (for_of_cons_ok _ _ _ _ _ _ _ Hrun), Hrest. simpl.
  by rewrite app_assoc.
Qed.

Lemma gather_elem (W : string → FileEntry → Prop) entries news :
  Forall2 (λ e new, ∀ f, f ∈ new ↔ W e f) entries news →
  ∀ f, f ∈ mjoin news ↔ ∃ e, e ∈ entries ∧ W e f.
Proof.
  induction 1 as [|e new entries news Hnew _ IH]; intros f; simpl.
  - split; [by intros ?%elem_of_nil|]. by intros (e & ?%elem_of_nil & _).
  - rewrite elem_of_app, Hnew, IH. split.
    + intros [?|(e' & ? & ?)]; [exists e|exists e']; split; try done;
        [left|by right].
    + intros (e' & [->|?]%elem_of_cons & ?); [by left|right; by exists e'].
Qed.

Lemma gather_NoDup (dir : path) entries news :
  NoDup entries →
  Forall2 (λ e new, NoDup (fpath <$> new)
                    ∧ Forall (λ f, ∃ rest, fpath f = dir ++ e :: rest) new)
    entries news →
  NoDup (fpath <$> mjoin news).
Proof.
  intros Hnd Hall. revert Hnd.
  induction Hall as [|e new entries news [Hnew Hbelow] Hall IH]; intros Hnd.
  { constructor. }
  apply NoDup_cons in Hnd as [He Hnd]. simpl. rewrite fmap_app.
  apply NoDup_app. split_and!; [done| |by apply IH].
  intros q (f & -> & Hf)%list_elem_of_fmap (f' & Hq & Hf')%list_elem_of_fmap.
  rewrite Forall_forall in Hbelow. destruct (Hbelow _ Hf) as [rest Hpath].
  assert (∃ e' rest', e' ∈ entries ∧ fpath f' = dir ++ e' :: rest')
    as (e' & rest' & He' & Hpath').
  { clear -Hall Hf'. induction Hall as [|e1 new1 es ns [_ H1] _ IH];
      [by apply elem_of_nil in Hf'|].
    simpl in Hf'. apply elem_of_app in Hf' as [Hf'|Hf'].
    - rewrite Forall_forall in H1. destruct (H1 _ Hf') as [rest' ?].
      exists e1, rest'. split; [left|done].
    - destruct (IH Hf') as (e' & rest' & ? & ?). exists e', rest'.
      split; [by right|done]. }
  rewrite Hq, Hpath' in Hpath. apply app_inv_head in Hpath. by simplify_eq.
Qed.

Lemma NoDup_children (σ : gmap path node) (d : path) : NoDup (Fs.children σ d).
Proof.
  unfold Fs.children. apply NoDup_fmap_2_strong.
  - intros k1 k2 [[Hne1 Hd1] _]%list_elem_of_filter
      [[Hne2 Hd2] _]%list_elem_of_filter Hlast.
    rewrite (app_removelast_last "" Hne1), (app_removelast_last "" Hne2).
    unfold Path.lastname in Hlast. by rewrite Hd1, Hd2, Hlast.
  - apply NoDup_filter, NoDup_fst_map_to_list.
Qed.

(** On a tree-shaped disk, what lies above an entry is a directory. *)
Lemma tree_shaped_above (σ : gmap path node) (d : path) c rest n :
  tree_shaped σ →
  σ !! (d ++ c :: rest) = Some n →
  is_Some (σ !! (d ++ [c])) ∧ (rest ≠ [] → σ !! (d ++ [c]) = Some Dir).
Proof.
  intros Hσ. revert n. induction rest as [|x rest IH] using rev_ind; intros n Hn.
  { split; [by eauto|done]. }
  assert (σ !! (d ++ c :: rest) = Some Dir) as Habove.
  { assert (d ++ c :: rest ++ [x] = (d ++ c :: rest) ++ [x]) as Heq
      by (by rewrite <-app_assoc).
    rewrite Heq in Hn.
    apply (tree_shaped_entry _ _ _ _ Hσ) in Hn as [_ Hdir].
    apply is_dir_true in Hdir. by destruct d. }
  destruct (IH _ Habove) as [Hsome Hdir]. split; [done|]. intros _.
  destruct rest as [|y rest]; [done|]. by apply Hdir.
Qed.

Section below.

Context (σ : gmap path node) (baseDir : path) (cf ip : list string).
Context (Hσ : tree_shaped σ).

(** What a wanted file says of the entry through which it is reached
    from a directory above it. *)
Lemma wanted_entry deep f (mid0 : list string) e rest :
  wanted σ baseDir cf ip deep f →
  fpath f = (baseDir ++ mid0) ++ e :: rest →
  e ≠ LOG_FILE_NAME
  ∧ shouldIgnore ((baseDir ++ mid0) ++ [e]) ip = false
  ∧ (mid0 = [] → e ∉ cf)
  ∧ (rest ≠ [] → deep = true ∧ (e ∉ cf)
                 ∧ σ !! ((baseDir ++ mid0) ++ [e]) = Some Dir)
  ∧ (rest = [] → name f = e
                 ∧ ∃ body, σ !! ((baseDir ++ mid0) ++ [e])
                           = Some (File body (mtime_of f))).
Proof.
  intros (mid & Hpath & Hflat & [body Hfile] & Hlog & Hmid & Htop & Hign) Hf.
  assert (mid ++ [name f] = mid0 ++ e :: rest) as Hrel.
  { rewrite Hpath, <-app_assoc in Hf. by apply app_inv_head in Hf. }
  assert (shouldIgnore ((baseDir ++ mid0) ++ [e]) ip = false) as Hkept.
  { rewrite <-app_assoc. apply Hign; [by destruct mid0|].
    rewrite Hrel. exists rest. by rewrite <-app_assoc. }
  destruct rest as [|x rest _] using rev_ind.
  - apply app_inj_tail in Hrel as [-> Hname]. subst e.
    split_and!; [done|done|done|by intros []|]. intros _. split; [done|].
    exists body. by rewrite <-Hf.
  - assert (mid0 ++ e :: rest ++ [x] = (mid0 ++ e :: rest) ++ [x]) as Heq
      by (by rewrite <-app_assoc).
    rewrite Heq in Hrel. apply app_inj_tail in Hrel as [-> Hx].
    rewrite Forall_app, Forall_cons in Hmid. destruct Hmid as (_ & [He Hcf] & _).
    split_and!; [done|done|done| |by intros [_ [=]]%app_eq_nil].
    intros _. split_and!; [|done|].
    + destruct deep; [done|]. specialize (Hflat eq_refl). by destruct mid0.
    + rewrite Hf in Hfile.
      apply (tree_shaped_above _ _ _ _ _ Hσ) in Hfile as [_ Hdir].
      apply Hdir. by intros [_ [=]]%app_eq_nil.
Qed.

(** The entry a file makes when it passes every test. *)
Lemma wanted_file deep (mid0 : list string) e body mtime :
  (deep = false → mid0 = []) →
  Forall (λ c, c ≠ LOG_FILE_NAME ∧ c ∉ cf) mid0 →
  (∀ pre, pre ≠ [] → pre `prefix_of` mid0 →
          shouldIgnore (baseDir ++ pre) ip = false) →
  σ !! ((baseDir ++ mid0) ++ [e]) = Some (File body mtime) →
  e ≠ LOG_FILE_NAME →
  shouldIgnore ((baseDir ++ mid0) ++ [e]) ip = false →
  (mid0 = [] → e ∉ cf) →
  ∀ f, f = {| name := e; fpath := (baseDir ++ mid0) ++ [e]; mtime_of := mtime |}
       ↔ wanted σ baseDir cf ip deep f ∧ ∃ rest, fpath f = (baseDir ++ mid0) ++ e :: rest.
Proof.
  intros Hflat Hmid Hign Hfile Hlog Hkept Htop f. split.
  - intros ->. split; [|by exists []]. exists mid0. simpl.
    split_and!; [by rewrite <-app_assoc|done|by eauto|done|done|done|].
    intros pre Hne [k Hk].
    destruct k as [|x k _] using rev_ind.
    + rewrite app_nil_r in Hk. subst pre. by rewrite app_assoc.
    + rewrite app_assoc in Hk. apply app_inj_tail in Hk as [Hk _].
      apply Hign; [done|]. by exists k.
  - intros [Hwanted [rest Hpath]].
    destruct (wanted_entry _ _ _ _ _ Hwanted Hpath) as (_ & _ & _ & Hdeep & Hhere).
    destruct rest as [|x rest].
    + destruct (Hhere eq_refl) as (Hname & body' & Hbody).
      destruct f as [nm fp mt]. simpl in *. simplify_eq. done.
    + destruct Hdeep as (_ & _ & Hdir); [done|]. congruence.
Qed.

End below.

(** One turn of the scan of a flat run. *)
Lemma scan_entry_exact targetDir cf ip acc e n w :
  tree_shaped (disk w) →
  plain e →
  disk w !! (targetDir ++ [e]) = Some n →
  ∃ new,
    scan_entry targetDir cf ip acc e w = (Ok (acc ++ new), w)
    ∧ NoDup (fpath <$> new)
    ∧ ∀ f, f ∈ new ↔ wanted (disk w) targetDir cf ip false f
                     ∧ ∃ rest, fpath f = targetDir ++ e :: rest.
Proof.
  intros Hσ He Hn.
  assert (∀ f, wanted (disk w) targetDir cf ip false f →
               (∃ rest, fpath f = targetDir ++ e :: rest) →
               e ≠ LOG_FILE_NAME
               ∧ shouldIgnore (targetDir ++ [e]) ip = false
               ∧ (e ∉ cf)
               ∧ ∃ body, n = File body (mtime_of f)) as Hone.
  { intros f Hf [rest Hpath].
    pose proof (wanted_entry (disk w) targetDir cf ip Hσ false f [] e rest Hf)
      as Hentry.
    rewrite app_nil_r in Hentry.
    destruct (Hentry Hpath) as (? & ? & Htop & Hdeep & Hhere).
    destruct rest as [|x rest].
    - destruct (Hhere eq_refl) as (_ & body & Hbody).
      split_and!; [done|done|by apply Htop|]. exists body. congruence.
    - by destruct Hdeep as ([=] & _). }
  assert (∀ acc' : list FileEntry,
            (∀ f, ¬ (wanted (disk w) targetDir cf ip false f
                     ∧ ∃ rest, fpath f = targetDir ++ e :: rest)) →
            ∃ new, (Ok acc', w) = (Ok (acc' ++ new), w)
                   ∧ NoDup (fpath <$> new)
                   ∧ ∀ f, f ∈ new ↔ wanted (disk w) targetDir cf ip false f
                          ∧ ∃ rest, fpath f = targetDir ++ e :: rest)
    as Hskip.
  { intros acc' Hnone. exists []. rewrite app_nil_r.
    split_and!; [done|constructor|]. intros f. split.
    - by intros ?%elem_of_nil.
    - intros H. by destruct (Hnone f). }
  unfold scan_entry. rewrite join_plain by done.
  case_bool_decide as Hlog.
  { apply Hskip. intros f [Hf Hp]. by destruct (Hone f Hf Hp) as (? & _). }
  destruct (shouldIgnore _ _) eqn:Hign.
  { apply Hskip. intros f [Hf Hp]. by destruct (Hone f Hf Hp) as (_ & ? & _). }
  destruct (Js.arr_includes cf e) eqn:Hcf.
  { apply arr_includes_true in Hcf.
    apply Hskip. intros f [Hf Hp]. by destruct (Hone f Hf Hp) as (_ & _ & ? & _). }
  apply arr_includes_false in Hcf.
  rewrite (bind_ok _ _ _ _ _ (stat_entry _ _ _ _ Hn)).
  destruct n as [body mtime|].
  - eexists [_]. split_and!; [done|apply NoDup_singleton|].
    intros f. rewrite list_elem_of_singleton.
    pose proof (wanted_file (disk w) targetDir cf ip Hσ false [] e body mtime)
      as Hfile.
    rewrite app_nil_r in Hfile. apply Hfile; try done.
    intros pre Hne [k Hk]. symmetry in Hk. by apply app_eq_nil in Hk as [-> _].
  - apply Hskip. intros f [Hf Hp]. by destruct (Hone f Hf Hp) as (_ & _ & _ & ? & ?).
Qed.

(** One turn of the loop of a recursive run. *)
Lemma collect_entry_exact (descend : path → M (list FileEntry))
    baseDir (mid0 : list string) cf ip options acc e n w :
  let dir := baseDir ++ mid0 in
  let W := wanted (disk w) baseDir cf ip true in
  tree_shaped (disk w) →
  recursive options = true →
  Forall (λ c, c ≠ LOG_FILE_NAME ∧ c ∉ cf) mid0 →
  (∀ pre, pre ≠ [] → pre `prefix_of` mid0 →
          shouldIgnore (baseDir ++ pre) ip = false) →
  (disk w !! (dir ++ [e]) = Some Dir →
   e ≠ LOG_FILE_NAME → e ∉ cf → shouldIgnore (dir ++ [e]) ip = false →
   ∃ sub, descend (dir ++ [e]) w = (Ok sub, w)
          ∧ NoDup (fpath <$> sub)
          ∧ ∀ f, f ∈ sub ↔ W f ∧ ∃ e' rest, fpath f = (dir ++ [e]) ++ e' :: rest) →
  plain e →
  disk w !! (dir ++ [e]) = Some n →
  ∃ new,
    collect_entry descend dir baseDir cf ip options acc e w = (Ok (acc ++ new), w)
    ∧ NoDup (fpath <$> new)
    ∧ ∀ f, f ∈ new ↔ W f ∧ ∃ rest, fpath f = dir ++ e :: rest.
Proof.
  intros dir W Hσ Hrec Hmid Hign0 Hdescend He Hn.
  assert (∀ f rest, W f → fpath f = dir ++ e :: rest →
            e ≠ LOG_FILE_NAME
            ∧ shouldIgnore (dir ++ [e]) ip = false
            ∧ (mid0 = [] → e ∉ cf)
            ∧ (rest ≠ [] → (e ∉ cf) ∧ n = Dir)
            ∧ (rest = [] → ∃ body, n = File body (mtime_of f))) as Hone.
  { intros f rest Hf Hpath.
    destruct (wanted_entry (disk w) baseDir cf ip Hσ true f mid0 e rest Hf Hpath)
      as (? & ? & ? & Hdeep & Hhere).
    split_and!; [done..| |].
    - intros Hrest. destruct (Hdeep Hrest) as (_ & ? & Hdir).
      split; [done|]. subst dir. congruence.
    - intros Hrest. destruct (Hhere Hrest) as (_ & body & Hbody).
      exists body. subst dir. congruence. }
  assert (∀ acc' : list FileEntry,
            (∀ f, ¬ (W f ∧ ∃ rest, fpath f = dir ++ e :: rest)) →
            ∃ new, (Ok acc', w) = (Ok (acc' ++ new), w)
                   ∧ NoDup (fpath <$> new)
                   ∧ ∀ f, f ∈ new ↔ W f ∧ ∃ rest, fpath f = dir ++ e :: rest)
    as Hskip.
  { intros acc' Hnone. exists []. rewrite app_nil_r.
    split_and!; [done|constructor|]. intros f. split.
    - by intros ?%elem_of_nil.
    - intros H. by destruct (Hnone f). }
  unfold collect_entry. rewrite join_plain by done.
  case_bool_decide as Hlog.
  { apply Hskip. intros f [Hf [rest Hp]].
    by destruct (Hone f rest Hf Hp) as (? & _). }
  destruct (shouldIgnore _ _) eqn:Hign.
  { apply Hskip. intros f [Hf [rest Hp]].
    by destruct (Hone f rest Hf Hp) as (_ & ? & _). }
  destruct (bool_decide (dir = baseDir) && Js.arr_includes cf e) eqn:Htop.
  { apply andb_true_iff in Htop as [Hdir%bool_decide_eq_true Hcf%arr_includes_true].
    assert (mid0 = []) as Hnil.
    { subst dir. rewrite <-(app_nil_r baseDir) in Hdir at 2.
      by apply app_inv_head in Hdir. }
    apply Hskip. intros f [Hf [rest Hp]].
    destruct (Hone f rest Hf Hp) as (_ & _ & Hcf' & _). by apply Hcf'. }
  assert (mid0 = [] → e ∉ cf) as Hcf0.
  { intros ->. apply andb_false_iff in Htop as [Htop|Htop].
    - apply bool_decide_eq_false in Htop. destruct Htop. subst dir.
      by rewrite app_nil_r.
    - by apply arr_includes_false. }
  rewrite (bind_ok _ _ _ _ _ (stat_entry _ _ _ _ Hn)).
  destruct n as [body mtime|].
  - eexists [_]. split_and!; [done|apply NoDup_singleton|].
    intros f. rewrite list_elem_of_singleton.
    by apply (wanted_file (disk w) baseDir cf ip Hσ true mid0 e body mtime).
  - rewrite Hrec. destruct (Js.arr_includes cf e) eqn:Hcf.
    { apply arr_includes_true in Hcf.
      apply Hskip. intros f [Hf [rest Hp]].
      destruct (Hone f rest Hf Hp) as (_ & _ & _ & Hdeep & Hhere).
      destruct rest as [|x rest].
      - by destruct (Hhere eq_refl).
      - by destruct Hdeep as [? _]. }
    apply arr_includes_false in Hcf.
    destruct (Hdescend Hn Hlog Hcf eq_refl) as (sub & Hsub & Hnd & Hin).
    rewrite (bind_ok _ _ _ _ _ Hsub). exists sub. split_and!; [done|done|].
    intros f. rewrite Hin. split.
    + intros [Hf (e' & rest & Hp)]. split; [done|]. exists (e' :: rest).
      by rewrite <-app_assoc in Hp.
    + intros [Hf [rest Hp]]. split; [done|].
      destruct (Hone f rest Hf Hp) as (_ & _ & _ & _ & Hhere).
      destruct rest as [|e' rest]; [by destruct (Hhere eq_refl)|].
      exists e', rest. by rewrite <-app_assoc.
Qed.

(** A wanted file below a directory is reached through an entry of the
    directory. *)
Lemma through_children (σ : gmap path node) (dir : path) (W : FileEntry → Prop) f :
  tree_shaped σ →
  (W f → is_Some (σ !! fpath f)) →
  (∃ e, e ∈ Fs.children σ dir ∧ W f ∧ ∃ rest, fpath f = dir ++ e :: rest)
  ↔ W f ∧ ∃ e rest, fpath f = dir ++ e :: rest.
Proof.
  intros Hσ Hthere. split.
  - intros (e & _ & Hf & rest & Hp). eauto.
  - intros (Hf & e & rest & Hp). exists e. split_and!; [|done|by eauto].
    apply elem_of_children. destruct (Hthere Hf) as [n Hn]. rewrite Hp in Hn.
    by apply (tree_shaped_above _ _ _ _ _ Hσ) in Hn as [? _].
Qed.

Lemma wanted_there σ baseDir cf ip deep f :
  wanted σ baseDir cf ip deep f → is_Some (σ !! fpath f).
Proof. intros (mid & _ & _ & [body ->] & _). by eauto. Qed.

Lemma collect_exact fuel baseDir (mid0 : list string) cf ip options w :
  tree_shaped (disk w) →
  recursive options = true →
  Fs.is_dir (disk w) (baseDir ++ mid0) = true →
  Forall (λ c, c ≠ LOG_FILE_NAME ∧ c ∉ cf) mid0 →
  (∀ pre, pre ≠ [] → pre `prefix_of` mid0 →
          shouldIgnore (baseDir ++ pre) ip = false) →
  depth (disk w) < fuel + length (baseDir ++ mid0) →
  ∃ files,
    collectFilesRecursively fuel (baseDir ++ mid0) baseDir cf ip options w
      = (Ok files, w)
    ∧ NoDup (fpath <$> files)
    ∧ ∀ f, f ∈ files ↔ wanted (disk w) baseDir cf ip true f
                       ∧ ∃ e rest, fpath f = (baseDir ++ mid0) ++ e :: rest.
Proof.
  intros Hσ Hrec. revert mid0.
  induction fuel as [|fuel IH]; intros mid0 Hdir Hmid Hign Hfuel.
  { exfalso. apply is_dir_true in Hdir.
    destruct (baseDir ++ mid0) as [|c k] eqn:Hk; [simpl in Hfuel; lia|].
    simpl in Hdir. apply depth_ge in Hdir. simpl in *. lia. }
  simpl. rewrite (bind_ok _ _ _ _ _ (readdir_dir _ _ Hdir)).
  set (dir := baseDir ++ mid0).
  destruct (for_of_gather
    (λ e new, NoDup (fpath <$> new)
              ∧ ∀ f, f ∈ new ↔ wanted (disk w) baseDir cf ip true f
                               ∧ ∃ rest, fpath f = dir ++ e :: rest)
    (Fs.children (disk w) dir) []
    (collect_entry
       (λ sub, collectFilesRecursively fuel sub baseDir cf ip options)
       dir baseDir cf ip options) w) as (news & Hrun & Hnews).
  { intros acc e He.
    pose proof (children_entries (disk w) dir Hσ) as Hall.
    rewrite Forall_forall in Hall. destruct (Hall e He) as [Hplain [n Hn]].
    apply (collect_entry_exact _ baseDir mid0 cf ip options acc e n w);
      try done.
    intros He_dir Hlog Hcf Hkept. subst dir. rewrite <-app_assoc. apply IH.
    - rewrite app_assoc. apply is_dir_true. by rewrite node_at_snoc.
    - apply Forall_app. split; [done|]. by apply Forall_singleton.
    - intros pre Hne [k Hk].
      destruct k as [|x k _] using rev_ind.
      + rewrite app_nil_r in Hk. subst pre. by rewrite app_assoc.
      + rewrite app_assoc in Hk. apply app_inj_tail in Hk as [Hk _].
        apply Hign; [done|]. by exists k.
    - rewrite app_assoc, length_app. simpl. lia. }
  exists (mjoin news). split_and!; [done| |].
  - apply (gather_NoDup dir (Fs.children (disk w) dir)); [apply NoDup_children|].
    eapply Forall2_impl; [done|]. intros e new [Hnd Hin]. split; [done|].
    apply Forall_forall. intros f Hf. by apply Hin in Hf as [_ ?].
  - intros f.
    rewrite (gather_elem
      (λ e f, wanted (disk w) baseDir cf ip true f
              ∧ ∃ rest, fpath f = dir ++ e :: rest)).
    + apply through_children; [done|apply wanted_there].
    + eapply Forall2_impl; [done|]. by intros e new [_ Hin].
Qed.

Lemma scan_exact targetDir cf ip w :
  tree_shaped (disk w) →
  Fs.is_dir (disk w) targetDir = true →
  ∃ files,
    (files ← Fs.readdir targetDir;
     for_of files [] (scan_entry targetDir cf ip)) w = (Ok files, w)
    ∧ NoDup (fpath <$> files)
    ∧ ∀ f, f ∈ files ↔ wanted (disk w) targetDir cf ip false f.
Proof.
  intros Hσ Hdir. rewrite (bind_ok _ _ _ _ _ (readdir_dir _ _ Hdir)).
  destruct (for_of_gather
    (λ e new, NoDup (fpath <$> new)
              ∧ ∀ f, f ∈ new ↔ wanted (disk w) targetDir cf ip false f
                               ∧ ∃ rest, fpath f = targetDir ++ e :: rest)
    (Fs.children (disk w) targetDir) []
    (scan_entry targetDir cf ip) w) as (news & Hrun & Hnews).
  { intros acc e He.
    pose proof (children_entries (disk w) targetDir Hσ) as Hall.
    rewrite Forall_forall in Hall. destruct (Hall e He) as [Hplain [n Hn]].
    by apply (scan_entry_exact _ _ _ _ _ n). }
  exists (mjoin news). split_and!; [done| |].
  - apply (gather_NoDup targetDir (Fs.children (disk w) targetDir));
      [apply NoDup_children|].
    eapply Forall2_impl; [done|]. intros e new [Hnd Hin]. split; [done|].
    apply Forall_forall. intros f Hf. by apply Hin in Hf as [_ ?].
  - intros f.
    rewrite (gather_elem
      (λ e f, wanted (disk w) targetDir cf ip false f
              ∧ ∃ rest, fpath f = targetDir ++ e :: rest)).
    + rewrite through_children; [|done|apply wanted_there]. split; [by intros []|].
      intros Hf. split; [done|]. destruct Hf as (mid & Hp & _).
      destruct mid as [|c mid]; eauto.
    + eapply Forall2_impl; [done|]. by intros e new [_ Hin].
Qed.

Lemma discover_exact targetDir cf ip options w :
  tree_shaped (disk w) →
  Fs.is_dir (disk w) targetDir = true →
  ∃ files,
    discover targetDir cf ip options w = (Ok files, w)
    ∧ NoDup (fpath <$> files)
    ∧ ∀ f, f ∈ files ↔ wanted (disk w) targetDir cf ip (recursive options) f.
Proof.
  intros Hσ Hdir. unfold discover. destruct (recursive options) eqn:Hrec.
  - rewrite bind_run. simpl.
    destruct (collect_exact (S (depth (disk w))) targetDir [] cf ip options w)
      as (files & Hrun & Hnd & Hin); try done.
    + by rewrite app_nil_r.
    + intros pre Hne [k Hk]. symmetry in Hk. by apply app_eq_nil in Hk as [-> _].
    + lia.
    + rewrite app_nil_r in Hrun, Hin. exists files. split_and!; [done..|].
      intros f. rewrite Hin. split; [by intros []|].
      intros Hf. split; [done|]. destruct Hf as (mid & Hp & _).
      rewrite Hp. destruct mid as [|c mid]; eauto.
  - by apply scan_exact.
Qed.

(** X13. On a tree-shaped disk, discovery in a directory returns, changes
    nothing, lists no path twice, and lists exactly the wanted files:
    none that an ignore pattern covers, itself or a directory on the way
    to it, and every file that passes the tests. *)
Theorem discovery_is_exact targetDir cf ip options w :
  tree_shaped (disk w) →
  Fs.is_dir (disk w) targetDir = true →
  ∃ files,
    discover targetDir cf ip options w = (Ok files, w)
    ∧ NoDup (fpath <$> files)
    ∧ Forall (λ f, shouldIgnore (fpath f) ip = false) files
    ∧ ∀ f, f ∈ files ↔ wanted (disk w) targetDir cf ip (recursive options) f.
Proof.
  intros Hσ Hdir.
  destruct (discover_exact targetDir cf ip options w Hσ Hdir)
    as (files & Hrun & Hnd & Hin).
  exists files. split_and!; [done..| |done].
  apply Forall_forall. intros f (mid & Hp & _ & _ & _ & _ & _ & Hign)%Hin.
  rewrite Hp. apply Hign; [by destruct mid|done].
Qed.

Lemma discovery_is_exact_witness :
  ∃ files,
    discover ["home"] (Object_keys defaultCategories) ["*.pdf"]
      Sample.plainly Sample.desk = (Ok files, Sample.desk)
    ∧ NoDup (fpath <$> files)
    ∧ Forall (λ f, shouldIgnore (fpath f) ["*.pdf"] = false) files
    ∧ ∀ f, f ∈ files ↔ wanted (disk Sample.desk) ["home"]
                          (Object_keys defaultCategories) ["*.pdf"]
                          (recursive Sample.plainly) f.
Proof.
  apply (discovery_is_exact ["home"] (Object_keys defaultCategories) ["*.pdf"]
           Sample.plainly Sample.desk); reflexivity.
Defined.

End exact_discovery.

(** ** Where the files go, and that none is lost *)

Section whole_run.

(** A run of [organizeDirectory] either stops before the move loop,
    with the world as it was, or is the rest of the run on the files
    discovery hands over. *)
Lemma organizeDirectory_phases prompt arg options w :
  let targetDir := Path.resolve (cwd w) (arg_string arg) in
  let categories := chosen_categories options w in
  ((organizeDirectory prompt arg options w).2 = w
   ∧ ∀ rep, (organizeDirectory prompt arg options w).1 ≠ Ok rep)
  ∨ ∃ files,
      Fs.is_dir (disk w) targetDir = true
      ∧ discover targetDir (Object_keys categories) (chosen_patterns options)
          options w = (Ok files, w)
      ∧ organizeDirectory prompt arg options w
        = process_files prompt targetDir categories options files w.
Proof.
  intros targetDir categories. subst categories.
  unfold organizeDirectory, chosen_categories, chosen_patterns.
  destruct (blank arg); [by left|].
  rewrite try_catch_rethrow, bind_run. simpl. fold targetDir.
  rewrite bind_run, try_catch_run. unfold Fs.access.
  destruct (Fs.exists_at (disk w) targetDir); [|by left].
  rewrite bind_run. unfold Fs.stat, Fs.is_dir.
  destruct (Fs.node_at (disk w) targetDir) as [[body mtime|]|] eqn:Hnode;
    [by left| |by left].
  rewrite bind_run.
  set (load := match config options with
               | Some (String _ _ as configPath) => loadConfig configPath
               | _ => mret defaultCategories
               end).
  set (chosen := match config options with
                 | Some (String _ _ as configPath) =>
                     match (loadConfig configPath w).1 with
                     | Ok categories => categories
                     | _ => defaultCategories
                     end
                 | _ => defaultCategories
                 end).
  assert (keeps eq load) as Hload.
  { subst load. destruct (config options) as [[|]|];
      [apply keeps_ret, _|apply keeps_loadConfig|apply keeps_ret, _]. }
  specialize (Hload w).
  assert (∀ categories, (load w).1 = Ok categories → categories = chosen)
    as Hchosen.
  { subst load chosen. intros categories.
    destruct (config options) as [[|a s]|]; simpl; try congruence.
    by intros ->. }
  destruct (load w) as [[categories|e|] w0]; simpl in Hload; subst w0;
    [|by left..].
  rewrite <-(Hchosen categories eq_refl).
  rewrite bind_run.
  set (cf := Object_keys categories).
  set (ip := match ignore options with
             | Some (String _ _ as patterns) => _
             | _ => []
             end).
  pose proof (keeps_discover targetDir cf ip options w) as Hsame.
  destruct (discover targetDir cf ip options w) as [[files|e|] w0] eqn:Hfound;
    simpl in Hsame; subst w0; [|by left..].
  right. by exists files.
Qed.

Section loop.

Context (prompt : path → path → bool) (targetDir : path)
        (categories : CategoryMap) (options : Options).

Local Abbreviation turn := (organize_file prompt targetDir categories options).
Local Abbreviation subdir := (targetSubDir_of targetDir categories options).

(** A discovered file, as the move loop needs it. *)
Local Abbreviation ready := (λ (w : World) (f : FileEntry),
  plain (name f) ∧ name f ≠ LOG_FILE_NAME
  ∧ ∃ body, disk w !! fpath f = Some (File body (mtime_of f))).

Lemma mkdir_walk_lookup (base rest : path) (σ : gmap path node) (q : path) n :
  σ !! q = Some n → (Fs.mkdir_walk base rest σ).2 !! q = Some n.
Proof.
  revert base σ. induction rest as [|c rest IH]; intros base σ Hq; [done|].
  simpl. destruct (σ !! (base ++ [c])) as [[]|] eqn:Hp; [done|by apply IH|].
  apply IH. rewrite lookup_insert_ne; [done|]. intros <-. congruence.
Qed.

(** The destination of a turn: a candidate in the folder of the file,
    never the log, free on the disk the turn starts from and still free
    when the folder has been made. *)
Lemma destination_free f n w :
  plain (name f) → name f ≠ LOG_FILE_NAME →
  let dst := candidate (Path.join (subdir f) (name f)) n in
  Fs.exists_at (disk w) dst = false →
  dst ≠ targetDir ++ [LOG_FILE_NAME]
  ∧ Path.dirname dst = subdir f
  ∧ Path.extname dst = Path.extname_of (name f)
  ∧ disk w !! dst = None
  ∧ (Fs.mkdir_walk [] (subdir f) (disk w)).2 !! dst = None.
Proof.
  intros Hnm Hlog dst Hfree. subst dst. rewrite join_plain in * by done.
  assert (Path.extname (candidate (subdir f ++ [name f]) n)
          = Path.extname_of (name f)) as Hext.
  { rewrite candidate_extname.
    - unfold Path.extname, Path.lastname. by rewrite last_last.
    - unfold Path.lastname. rewrite last_last. apply Hnm. }
  pose proof (candidate_same_directory (subdir f ++ [name f]) n) as Hdir.
  rewrite dirname_snoc in Hdir.
  assert (∃ x, x ≠ LOG_FILE_NAME
               ∧ candidate (subdir f ++ [name f]) n = subdir f ++ [x])
    as (x & Hx & Heq).
  { destruct n as [|n]; [by exists (name f)|].
    exists (numbered_name (subdir f ++ [name f]) (S n)). split.
    - intros H. apply (f_equal (has_char "(")) in H. revert H.
      unfold numbered_name. rewrite has_char_app.
      change ("(" +:+ ?s) with (String "("%char s). simpl.
      by rewrite orb_true_r.
    - by rewrite candidate_S, numbered_eq, dirname_snoc. }
  rewrite Heq in *. apply exists_at_false in Hfree.
  rewrite node_at_snoc in Hfree.
  split_and!; [|done|done|done|].
  - intros H. by apply app_inj_tail in H as [_ ?].
  - rewrite mkdir_walk_longer; [done|]. rewrite length_app. simpl. lia.
Qed.

(** One turn: every file on disk stays where it is, or it is the file
    of the turn and is now at the destination of a rename that
    succeeded. *)
Lemma organize_file_safe t f w :
  ready w f →
  ∃ js,
    journal (turn t f w).2 = journal w ++ js
    ∧ Forall (λ m, mv_src m = fpath f
                   ∧ mv_dst m ≠ targetDir ++ [LOG_FILE_NAME]
                   ∧ Path.dirname (mv_dst m) = subdir f
                   ∧ Path.extname (mv_dst m) = Path.extname_of (name f)) js
    ∧ ∀ q body mtime,
        disk w !! q = Some (File body mtime) →
        disk (turn t f w).2 !! q = Some (File body mtime)
        ∨ (q = fpath f
           ∧ ∃ m, m ∈ js ∧ mv_done m = true ∧ mv_src m = q
                  ∧ disk w !! mv_dst m = None
                  ∧ disk (turn t f w).2 !! mv_dst m = Some (File body mtime)).
Proof.
  intros (Hnm & Hlog & body0 & Hsrc).
  destruct (organize_file_run prompt targetDir categories options t f w)
    as (n & Hfree & ->).
  destruct (destination_free f n w Hnm Hlog Hfree)
    as (Hnotlog & Hdir & Hext & Hnone & Hnone1).
  set (dst := candidate (Path.join (subdir f) (name f)) n) in *.
  destruct (dryRun options).
  { exists []. rewrite app_nil_r. split_and!; [done|constructor|]. by left. }
  destruct (interactive options && negb _).
  { exists []. rewrite app_nil_r. split_and!; [done|constructor|]. by left. }
  pose proof (mkdir_walk_lookup [] (subdir f) (disk w)) as Hkept.
  destruct (Fs.mkdir_walk [] (subdir f) (disk w)) as [made σ1] eqn:Hmk.
  simpl in *. destruct made.
  2:{ exists []. rewrite app_nil_r. split_and!; [done|constructor|].
      intros q body mtime Hq. left. by apply Hkept. }
  destruct (Fs.rename_disk (locked w) (fpath f) dst σ1) as [e|σ2] eqn:Hmv;
    simpl.
  - eexists [_]. split_and!; [done|by repeat constructor|].
    intros q body mtime Hq. left. by apply Hkept.
  - eexists [_]. split_and!; [done|by repeat constructor|].
    intros q body mtime Hq. simpl.
    assert (Fs.exists_at σ1 dst = false) as Hfree1.
    { apply exists_at_false. destruct dst; [done|]. done. }
    destruct (rename_disk_file_fresh _ _ _ _ _ _ _ (Hkept _ _ Hsrc) Hfree1 Hmv)
      as (Hdst & _ & Hother).
    destruct (decide (q = fpath f)) as [->|Hq'].
    + right. split; [done|]. eexists. split; [by left|]. simpl.
      split_and!; [done..|]. congruence.
    + left. rewrite Hother; [by apply Hkept|done|].
      intros ->. apply Hkept in Hq. congruence.
Qed.

(** The same for the whole loop, on files that are all there and all
    different. *)
Lemma organize_loop_safe files t w :
  Forall (ready w) files →
  NoDup (fpath <$> files) →
  ∃ js,
    journal (for_of files t turn w).2 = journal w ++ js
    ∧ Forall (λ m, ∃ f, f ∈ files
                   ∧ mv_src m = fpath f
                   ∧ mv_dst m ≠ targetDir ++ [LOG_FILE_NAME]
                   ∧ Path.dirname (mv_dst m) = subdir f
                   ∧ Path.extname (mv_dst m) = Path.extname_of (name f)) js
    ∧ ∀ q body mtime,
        disk w !! q = Some (File body mtime) →
        disk (for_of files t turn w).2 !! q = Some (File body mtime)
        ∨ ∃ m, m ∈ js ∧ mv_done m = true ∧ mv_src m = q
               ∧ disk (for_of files t turn w).2 !! mv_dst m
                 = Some (File body mtime).
Proof.
  revert t w. induction files as [|f files IH]; intros t w Hready Hnd.
  { exists []. rewrite app_nil_r. split_and!; [done|constructor|]. by left. }
  apply Forall_cons in Hready as [Hf Hready].
  rewrite fmap_cons in Hnd. apply NoDup_cons in Hnd as [Hfresh Hnd].
  destruct (organize_file_safe t f w Hf) as (js1 & Hj1 & Hmoves1 & Hsafe1).
  assert (Forall (λ m, ∃ f', f' ∈ f :: files
                   ∧ mv_src m = fpath f'
                   ∧ mv_dst m ≠ targetDir ++ [LOG_FILE_NAME]
                   ∧ Path.dirname (mv_dst m) = subdir f'
                   ∧ Path.extname (mv_dst m) = Path.extname_of (name f')) js1)
    as Hmoves1'.
  { eapply Forall_impl; [done|]. intros m Hm. exists f. split; [left|done]. }
  simpl. rewrite bind_run.
  destruct (turn t f w) as [[t1|e|] w1] eqn:Hturn; simpl in *.
  2,3: exists js1; split_and!; [done|done|];
       intros q body mtime Hq;
       (destruct (Hsafe1 q body mtime Hq) as [?|(_ & m & ? & ? & ? & _ & ?)];
        [by left|right; by exists m]).
  assert (Forall (ready w1) files) as Hready1.
  { rewrite Forall_forall in Hready |- *. intros f' Hf'.
    destruct (Hready f' Hf') as (? & ? & body & Hthere).
    split_and!; [done..|]. exists body.
    destruct (Hsafe1 _ _ _ Hthere) as [?|[Heq _]]; [done|].
    destruct Hfresh. rewrite <-Heq. apply list_elem_of_fmap. by exists f'. }
  destruct (IH t1 w1 Hready1 Hnd) as (js2 & Hj2 & Hmoves2 & Hsafe2).
  exists (js1 ++ js2). split_and!.
  - by rewrite Hj2, Hj1, app_assoc.
  - apply Forall_app. split; [done|].
    eapply Forall_impl; [done|]. intros m (f' & ? & ?). exists f'.
    split; [by right|done].
  - intros q body mtime Hq.
    destruct (Hsafe1 q body mtime Hq)
      as [Hstays|(-> & m & Hm & Hdone & Hm_src & Hwas_free & Hthere)].
    + destruct (Hsafe2 q body mtime Hstays) as [?|(m & ? & ?)]; [by left|].
      right. exists m. split; [|done]. apply elem_of_app. by right.
    + right. exists m. split; [apply elem_of_app; by left|].
      split_and!; [done..|].
      destruct (Hsafe2 _ _ _ Hthere) as [?|(m' & Hm' & _ & Hsrc' & _)]; [done|].
      exfalso. rewrite Forall_forall in Hmoves2.
      destruct (Hmoves2 m' Hm') as (f' & Hf' & Hsrc'' & _).
      rewrite Forall_forall in Hready.
      destruct (Hready f' Hf') as (_ & _ & body' & Hbefore). congruence.
Qed.

(** The rest of the run: the log and the pruning lose no file either,
    the log file apart. *)
Lemma process_files_safe files w :
  Forall (ready w) files →
  NoDup (fpath <$> files) →
  let after := (process_files prompt targetDir categories options files w).2 in
  ∃ js,
    journal after = journal w ++ js
    ∧ Forall (λ m, ∃ f, f ∈ files
                   ∧ mv_src m = fpath f
                   ∧ Path.dirname (mv_dst m) = subdir f
                   ∧ Path.extname (mv_dst m) = Path.extname_of (name f)) js
    ∧ ∀ q body mtime,
        disk w !! q = Some (File body mtime) →
        q ≠ targetDir ++ [LOG_FILE_NAME] →
        disk after !! q = Some (File body mtime)
        ∨ ∃ m, m ∈ js ∧ mv_done m = true ∧ mv_src m = q
               ∧ disk after !! mv_dst m = Some (File body mtime).
Proof.
  intros Hready Hnd. simpl. unfold process_files.
  case_bool_decide as Hnone.
  { exists []. rewrite app_nil_r. split_and!; [done|constructor|]. by left. }
  set (start := {| moved := []; processedCount := 0; skippedCount := 0 |}).
  destruct (organize_loop_safe files start w Hready Hnd)
    as (js & Hj & Hmoves & Hsafe).
  exists js.
  assert (Forall (λ m, ∃ f, f ∈ files
                   ∧ mv_src m = fpath f
                   ∧ Path.dirname (mv_dst m) = subdir f
                   ∧ Path.extname (mv_dst m) = Path.extname_of (name f)) js)
    as Hlands.
  { eapply Forall_impl; [done|]. intros m (f & ? & ? & _ & ? & ?). by exists f. }
  assert (∀ w' : World,
            journal w' = journal (for_of files start turn w).2 →
            (∀ q body mtime,
               q ≠ targetDir ++ [LOG_FILE_NAME] →
               disk (for_of files start turn w).2 !! q = Some (File body mtime) →
               disk w' !! q = Some (File body mtime)) →
            journal w' = journal w ++ js
            ∧ ∀ q body mtime,
                disk w !! q = Some (File body mtime) →
                q ≠ targetDir ++ [LOG_FILE_NAME] →
                disk w' !! q = Some (File body mtime)
                ∨ ∃ m, m ∈ js ∧ mv_done m = true ∧ mv_src m = q
                       ∧ disk w' !! mv_dst m = Some (File body mtime)) as Hend.
  { intros w' Hj' Hkept. split; [congruence|].
    intros q body mtime Hq Hnotlog.
    destruct (Hsafe q body mtime Hq) as [?|(m & Hm & ? & ? & ?)].
    - left. by apply Hkept.
    - right. exists m. split_and!; [done..|]. apply Hkept; [|done].
      rewrite Forall_forall in Hmoves.
      by destruct (Hmoves m Hm) as (_ & _ & _ & ? & _). }
  rewrite bind_run.
  destruct (for_of files start turn w) as [[t|e|] w1]; simpl in *.
  2,3: destruct (Hend w1) as [? ?]; by auto.
  rewrite bind_run.
  set (save := if bool_decide (0 < length (moved t)) && negb (dryRun options)
               then saveLog targetDir (moved t) else mret ()).
  assert (journal (save w1).2 = journal w1
          ∧ ∀ q, q ≠ targetDir ++ [LOG_FILE_NAME] →
                 disk (save w1).2 !! q = disk w1 !! q) as [Hj2 Hsaved].
  { subst save. destruct (_ && _); [|done].
    rewrite saveLog_cases. destruct (writable_log _ _); [|done].
    split; [done|]. intros q Hq. simpl. by rewrite lookup_insert_ne. }
  destruct (save w1) as [[[]|e|] w2]; simpl in *.
  2,3: destruct (Hend w2) as [? ?]; [done|intros; by rewrite Hsaved|by auto].
  rewrite bind_run.
  set (prune := if recursive options && negb (dryRun options)
                   && bool_decide (0 < length (moved t))
                then _ else _).
  assert (only_dirs_removed w2 (prune w2).2) as (Hj3 & _ & Hpruned).
  { subst prune. destruct (_ && _ && _); [|done].
    rewrite bind_run. simpl.
    exact (keeps_cleanup_dirs (S (depth (disk w2))) targetDir
             (Object_keys categories) w2). }
  assert (journal (prune w2).2 = journal w1) as Hj4 by congruence.
  assert (∀ q body mtime,
            q ≠ targetDir ++ [LOG_FILE_NAME] →
            disk w1 !! q = Some (File body mtime) →
            disk (prune w2).2 !! q = Some (File body mtime)) as Hkept.
  { intros q body mtime Hq Hthere. apply Hpruned. by rewrite Hsaved. }
  destruct (prune w2) as [[[]|e|] w3]; simpl in *;
    destruct (Hend w3) as [? ?]; by auto.
Qed.

End loop.

Lemma wanted_ready σ baseDir cf ip deep f :
  tree_shaped σ →
  wanted σ baseDir cf ip deep f →
  plain (name f) ∧ name f ≠ LOG_FILE_NAME
  ∧ (∃ body, σ !! fpath f = Some (File body (mtime_of f)))
  ∧ Path.extname (fpath f) = Path.extname_of (name f).
Proof.
  intros Hσ (mid & Hp & _ & [body Hbody] & Hlog & _).
  split_and!; [|done|by eauto|].
  - rewrite Hp, app_assoc in Hbody.
    by apply (tree_shaped_entry _ _ _ _ Hσ) in Hbody as [?%valid_name_plain _].
  - rewrite Hp, app_assoc. unfold Path.extname, Path.lastname.
    by rewrite last_last.
Qed.

(** What a whole run does with the files it renames, and with all the
    others. *)
Lemma organizeDirectory_safe prompt arg options w :
  tree_shaped (disk w) →
  let targetDir := Path.resolve (cwd w) (arg_string arg) in
  let categories := chosen_categories options w in
  let after := (organizeDirectory prompt arg options w).2 in
  ∃ js,
    journal after = journal w ++ js
    ∧ Forall (λ m, ∃ f,
                wanted (disk w) targetDir (Object_keys categories)
                  (chosen_patterns options) (recursive options) f
                ∧ mv_src m = fpath f
                ∧ Path.dirname (mv_dst m)
                  = targetSubDir_of targetDir categories options f
                ∧ Path.extname (mv_dst m) = Path.extname (mv_src m)) js
    ∧ ∀ q body mtime,
        disk w !! q = Some (File body mtime) →
        q ≠ targetDir ++ [LOG_FILE_NAME] →
        disk after !! q = Some (File body mtime)
        ∨ ∃ m, m ∈ js ∧ mv_done m = true ∧ mv_src m = q
               ∧ disk after !! mv_dst m = Some (File body mtime).
Proof.
  intros Hσ targetDir categories after. subst after.
  destruct (organizeDirectory_phases prompt arg options w)
    as [[-> _]|(files & Hdir & Hfound & ->)].
  { exists []. rewrite app_nil_r. split_and!; [done|constructor|]. by left. }
  fold targetDir categories in Hdir, Hfound |- *.
  destruct (discover_exact targetDir (Object_keys categories)
              (chosen_patterns options) options w Hσ Hdir)
    as (files' & Hrun & Hnd & Hin).
  rewrite Hfound in Hrun. simplify_eq.
  destruct (process_files_safe prompt targetDir categories options files' w)
    as (js & Hj & Hmoves & Hsafe); [|done|].
  { apply Forall_forall. intros f Hf%Hin.
    destruct (wanted_ready _ _ _ _ _ _ Hσ Hf) as (? & ? & ? & _). done. }
  exists js. split_and!; [done| |done].
  eapply Forall_impl; [done|]. intros m (f & Hf%Hin & Hsrc & Hdst & Hext).
  exists f. split_and!; [done..|].
  destruct (wanted_ready _ _ _ _ _ _ Hσ Hf) as (_ & _ & _ & Hname).
  by rewrite Hext, Hsrc, Hname.
Qed.

(** X14. On a tree-shaped disk, every rename of a run of organize takes a
    file that was on disk to the folder of its own category, or of the
    year and month of its modification time when the run is by date,
    and keeps its extension. *)
Theorem moved_files_land_in_their_folder prompt arg options w :
  tree_shaped (disk w) →
  let targetDir := Path.resolve (cwd w) (arg_string arg) in
  ∃ js,
    journal (organizeDirectory prompt arg options w).2 = journal w ++ js
    ∧ Forall (λ m, ∃ body mtime,
                disk w !! mv_src m = Some (File body mtime)
                ∧ Path.extname (mv_dst m) = Path.extname (mv_src m)
                ∧ Path.dirname (mv_dst m)
                  = if byDate options
                    then Path.join (Path.join targetDir (pretty (fullYear mtime)))
                           (getMonthName mtime)
                    else Path.join targetDir
                           (getCategory (Some (Path.extname (mv_src m)))
                              (chosen_categories options w))) js.
Proof.
  intros Hσ targetDir.
  destruct (organizeDirectory_safe prompt arg options w Hσ)
    as (js & Hj & Hmoves & _).
  exists js. split; [done|].
  eapply Forall_impl; [done|]. intros m (f & Hf & Hsrc & Hdst & Hext).
  destruct (wanted_ready _ _ _ _ _ _ Hσ Hf) as (_ & _ & [body Hbody] & Hname).
  exists body, (mtime_of f). split_and!; [by rewrite Hsrc|done|].
  rewrite Hdst. unfold targetSubDir_of. destruct (byDate options); [done|].
  by rewrite getCategory_lower, Hsrc, Hname.
Qed.

Lemma moved_files_land_in_their_folder_witness :
  ∃ js,
    journal (organizeDirectory Sample.yes (Str "/home") Sample.plainly
               Sample.desk).2 = journal Sample.desk ++ js
    ∧ Forall (λ m, ∃ body mtime,
                disk Sample.desk !! mv_src m = Some (File body mtime)
                ∧ Path.extname (mv_dst m) = Path.extname (mv_src m)
                ∧ Path.dirname (mv_dst m)
                  = Path.join ["home"]
                      (getCategory (Some (Path.extname (mv_src m)))
                         defaultCategories)) js.
Proof.
  apply (moved_files_land_in_their_folder Sample.yes (Str "/home")
           Sample.plainly Sample.desk).
  reflexivity.
Defined.

(** X15. On a tree-shaped disk, a run of organize loses no file, however it
    ends: every file that was on disk, the log file apart, is either
    where it was, unchanged, or at the destination of a rename of the
    run that took it from there. *)
Theorem organize_loses_no_file prompt arg options w :
  tree_shaped (disk w) →
  let after := (organizeDirectory prompt arg options w).2 in
  ∃ js,
    journal after = journal w ++ js
    ∧ ∀ q body mtime,
        disk w !! q = Some (File body mtime) →
        q ≠ Path.resolve (cwd w) (arg_string arg) ++ [LOG_FILE_NAME] →
        disk after !! q = Some (File body mtime)
        ∨ ∃ m, m ∈ js ∧ mv_done m = true ∧ mv_src m = q
               ∧ disk after !! mv_dst m = Some (File body mtime).
Proof.
  intros Hσ after.
  destruct (organizeDirectory_safe prompt arg options w Hσ)
    as (js & Hj & _ & Hsafe).
  by exists js.
Qed.

Lemma organize_loses_no_file_witness :
  let after := (organizeDirectory Sample.yes (Str "/home") Sample.recursively
                  Sample.nested).2 in
  ∃ js,
    journal after = journal Sample.nested ++ js
    ∧ ∀ q body mtime,
        disk Sample.nested !! q = Some (File body mtime) →
        q ≠ Path.resolve (cwd Sample.nested) (arg_string (Str "/home"))
              ++ [LOG_FILE_NAME] →
        disk after !! q = Some (File body mtime)
        ∨ ∃ m, m ∈ js ∧ mv_done m = true ∧ mv_src m = q
               ∧ disk after !! mv_dst m = Some (File body mtime).
Proof.
  apply (organize_loses_no_file Sample.yes (Str "/home") Sample.recursively
           Sample.nested).
  reflexivity.
Defined.

End whole_run.

(** ** Organize, then undo, in a flat run by category *)

Section relocation.

Context {V : Type}.
Implicit Types F : gmap path V.





End relocation.

Section files.

Implicit Types σ : gmap path node.








End files.

Section flat_run.

Context (prompt : path → path → bool) (targetDir : path)
        (categories : CategoryMap) (options : Options).
Context (Hmode : byDate options = false) (Hwet : dryRun options = false).
Context (Hkeys : Forall plain (Object_keys categories)).
Context (Hothers : "Others" ∈ Object_keys categories).

Local Abbreviation turn := (organize_file prompt targetDir categories options).
Local Abbreviation subdir := (targetSubDir_of targetDir categories options).
Local Abbreviation cf := (Object_keys categories).
Local Abbreviation logPath := (targetDir ++ [LOG_FILE_NAME]).







End flat_run.

Section undo_flat.

Context (targetDir : path) (cf : list string).

Local Abbreviation logPath := (targetDir ++ [LOG_FILE_NAME]).





End undo_flat.




(** ** The folder of a run by date *)

Section by_date.

Lemma length_pretty_N_go (x : N) s :
  String.length s ≤ String.length (pretty_N_go x s).
Proof.
  revert s. induction (N.lt_wf_0 x) as [x _ IH]; intros s.
  assert (x = 0 ∨ 0 < x)%N as [->|?] by lia; [by rewrite pretty_N_go_0|].
  rewrite pretty_N_go_step by done.
  etrans; [|by eapply IH, N.div_lt]. simpl. lia.
Qed.

Lemma pretty_N_plain (x : N) :
  pretty x ≠ "" ∧ has_char "." (pretty x) = false.
Proof.
  unfold pretty, pretty_N. case_decide as Hx; [done|]. split.
  - rewrite pretty_N_go_step by lia. intros Heq.
    pose proof (length_pretty_N_go (x `div` 10)
                  (String (pretty_N_char (x `mod` 10)) "")) as Hlen.
    rewrite Heq in Hlen. simpl in Hlen. lia.
  - apply has_char_digits; [apply digit_not_dot|done].
Qed.

Lemma pretty_Z_plain (z : Z) : plain (pretty z).
Proof.
  assert (pretty z ≠ "" ∧ has_char "." (pretty z) = false) as [Hne Hdot].
  { destruct z as [|p|p]; [done|apply (pretty_N_plain (Npos p))|].
    split; [done|]. unfold pretty, pretty_Z.
    change ("-" +:+ ?s) with (String "-"%char s). cbn [has_char].
    apply (pretty_N_plain (Npos p)). }
  split_and!; [done| |]; intros Heq; by rewrite Heq in Hdot.
Qed.

(** X17. In a run by date, the folder of a file is
    [targetDir/<year>/<month>], two levels below the target directory:
    the year of the modification time in decimal, and the month as one
    of the twelve three-letter abbreviations. *)
Theorem by_date_folder targetDir categories options f :
  byDate options = true →
  monthIndex (mtime_of f) < 12 →
  ∃ mon,
    months !! monthIndex (mtime_of f) = Some mon
    ∧ String.length mon = 3
    ∧ targetSubDir_of targetDir categories options f
      = targetDir ++ [pretty (fullYear (mtime_of f)); mon].
Proof.
  intros Hmode Hmonth.
  destruct (lookup_lt_is_Some_2 months (monthIndex (mtime_of f))) as [mon Hmon];
    [done|].
  exists mon. split; [done|].
  assert (mon ∈ months) as Hin by (by eapply list_elem_of_lookup_2).
  assert (String.length mon = 3 ∧ plain mon) as [Hlen Hplain].
  { unfold months in Hin.
    repeat (apply elem_of_cons in Hin as [->|Hin];
            [split; [done|by split_and!]|]).
    by apply elem_of_nil in Hin. }
  split; [done|].
  unfold targetSubDir_of, getMonthName. rewrite Hmode, Hmon. simpl.
  rewrite (join_plain targetDir) by apply pretty_Z_plain.
  rewrite join_plain by done. by rewrite <-app_assoc.
Qed.

Lemma by_date_folder_witness :
  ∃ mon,
    months !! monthIndex (mtime_of Sample.doc) = Some mon
    ∧ String.length mon = 3
    ∧ targetSubDir_of ["home"] defaultCategories
        {| config := None; dryRun := false; interactive := false;
           byDate := true; ignore := None; verbose := false;
           recursive := false |} Sample.doc
      = ["home"] ++ [pretty (fullYear (mtime_of Sample.doc)); mon].
Proof.
  apply (by_date_folder ["home"] defaultCategories
           {| config := None; dryRun := false; interactive := false;
              byDate := true; ignore := None; verbose := false;
              recursive := false |} Sample.doc).
  - reflexivity.
  - simpl. lia.
Defined.

End by_date.

(** ** A run in which every move is declined *)

Section declined.

Context (prompt : path → path → bool) (targetDir : path)
        (categories : CategoryMap) (options : Options).
Context (Hasks : interactive options = true) (Hwet : dryRun options = false).
Context (Hno : ∀ src dst, prompt src dst = false).

Lemma declined_loop files t w :
  for_of files t (organize_file prompt targetDir categories options) w
  = (Ok {| moved := moved t; processedCount := processedCount t;
           skippedCount := skippedCount t + length files |}, w).
Proof.
  revert t. induction files as [|f files IH]; intros t.
  { simpl. destruct t. simpl. by rewrite Nat.add_0_r. }
  simpl. rewrite bind_run. unfold organize_file at 1.
  destruct (getUniqueFilePath_first
              (Path.join (targetSubDir_of targetDir categories options f)
                 (name f)) w) as (n & Hrun & _).
  rewrite (bind_ok _ _ _ _ _ Hrun), Hwet, Hasks, Hno. simpl.
  rewrite IH. simpl. do 3 f_equal. lia.
Qed.

Lemma declined_rest files w :
  process_files prompt targetDir categories options files w
  = (Ok {| filesToProcess := files;
           tally := {| moved := []; processedCount := 0;
                       skippedCount := length files |} |}, w).
Proof.
  unfold process_files. case_bool_decide as Hnone.
  { by rewrite Hnone. }
  rewrite bind_run, declined_loop. simpl.
  by rewrite andb_false_r.
Qed.

End declined.

(** X18. When the run is interactive and every move is declined, the run
    leaves the world exactly as it was: no directory is made, nothing
    is renamed, no log is written; and when it returns, nothing is
    recorded or counted as processed and every file found is counted as
    skipped. *)
Theorem declined_run_changes_nothing prompt arg options w :
  interactive options = true →
  dryRun options = false →
  (∀ src dst, prompt src dst = false) →
  (organizeDirectory prompt arg options w).2 = w
  ∧ ∀ rep, (organizeDirectory prompt arg options w).1 = Ok rep →
      moved (tally rep) = []
      ∧ processedCount (tally rep) = 0
      ∧ skippedCount (tally rep) = length (filesToProcess rep).
Proof.
  intros Hasks Hwet Hno.
  destruct (organizeDirectory_phases prompt arg options w)
    as [[Hsame Hnot]|(files & _ & _ & ->)].
  { split; [done|]. intros rep Hrep. by destruct (Hnot rep). }
  rewrite declined_rest by done. split; [done|]. by intros rep [= <-].
Qed.

Lemma declined_run_changes_nothing_witness :
  (organizeDirectory (λ _ _, false) (Str "/home")
     {| config := None; dryRun := false; interactive := true;
        byDate := false; ignore := None; verbose := false;
        recursive := false |} Sample.desk).2 = Sample.desk.
Proof.
  apply (declined_run_changes_nothing (λ _ _, false) (Str "/home")
           {| config := None; dryRun := false; interactive := true;
              byDate := false; ignore := None; verbose := false;
              recursive := false |} Sample.desk); reflexivity.
Defined.

(** ** What undo does to the log *)

Section undo_log.

(** X19. When [undoOrganize] reports counts, the log file it started from
    held a list of batches, and it has removed exactly the last one,
    whatever the restore loop did: the log file now holds the earlier
    batches, and is gone when there were none. *)
Theorem undo_pops_one_batch arg w r e :
  let targetDir := Path.resolve (cwd w) (arg_string arg) in
  let logPath := targetDir ++ [LOG_FILE_NAME] in
  let after := (undoOrganize arg w).2 in
  (undoOrganize arg w).1 = Ok (Undone r e) →
  ∃ earlier lastBatch mtime,
    disk w !! logPath = Some (File (LogJson (earlier ++ [lastBatch])) mtime)
    ∧ match earlier with
      | [] => disk after !! logPath = None
      | _ => ∃ mtime', disk after !! logPath
                       = Some (File (LogJson earlier) mtime')
      end.
Proof.
  intros targetDir logPath after. subst after.
  unfold undoOrganize. destruct (blank arg); [done|].
  generalize (Object_keys defaultCategories). intros swept.
  rewrite try_catch_rethrow, bind_run. simpl. fold targetDir.
  rewrite bind_run, readLog_run. fold logPath.
  destruct (disk w !! logPath) as [[[text|log|cfg] mtime|]|]; simpl; try done.
  destruct (last log) as [lastBatch|] eqn:Hlast; [|done].
  assert (log = removelast log ++ [lastBatch]) as Hlog.
  { destruct log as [|b log] using rev_ind; [done|].
    rewrite last_snoc in Hlast. rewrite removelast_last. congruence. }
  set (earlier := removelast log) in *.
  rewrite bind_run.
  destruct (for_of (operations lastBatch) (0, 0) undo_operation w)
    as [[counts|?|] w1]; [|done..].
  rewrite bind_run.
  assert (∀ w2, updateLog targetDir earlier w1 = (Ok (), w2) →
            match earlier with
            | [] => disk w2 !! logPath = None
            | _ => ∃ mtime', disk w2 !! logPath
                             = Some (File (LogJson earlier) mtime')
            end) as Hupdated.
  { intros w2. unfold updateLog. rewrite logPath_eq. fold logPath.
    destruct earlier as [|b earlier']; simpl.
    - unfold Fs.unlink. destruct (Fs.node_at (disk w1) logPath) as [[]|];
        [|done..]. intros [= <-]. simpl. apply lookup_delete_eq.
    - unfold Fs.writeFile. destruct (negb _); [done|].
      destruct (Fs.node_at (disk w1) logPath) as [[]|]; [|done|];
        intros [= <-]; simpl; eexists; apply lookup_insert_eq. }
  destruct (updateLog targetDir earlier w1) as [[[]|?|] w2]; [|done..].
  specialize (Hupdated w2 eq_refl).
  rewrite bind_run.
  assert (keeps only_dirs_removed (for_of swept () (sweep_category targetDir)))
    as Hkeeps.
  { apply keeps_for_of; [apply _|]. intros [] category.
    apply keeps_sweep_dirs. }
  destruct (Hkeeps w2) as (_ & Hsub & Hpruned).
  destruct (for_of swept () (sweep_category targetDir) w2) as [[[]|?|] w3];
    [|done..].
  simpl in *. intros _. exists earlier, lastBatch, mtime.
  split; [by rewrite <-Hlog|].
  destruct earlier as [|b earlier'].
  - destruct (disk w3 !! logPath) as [n|] eqn:Hn; [|done].
    pose proof (lookup_weaken _ _ _ _ Hn Hsub). congruence.
  - destruct Hupdated as [mtime' Hthere]. exists mtime'. by apply Hpruned.
Qed.

Lemma undo_pops_one_batch_witness :
  ∃ earlier lastBatch mtime,
    disk Sample.logged !! (Path.resolve (cwd Sample.logged)
                             (arg_string (Str "/home")) ++ [LOG_FILE_NAME])
      = Some (File (LogJson (earlier ++ [lastBatch])) mtime)
    ∧ match earlier with
      | [] => disk (undoOrganize (Str "/home") Sample.logged).2
                !! (Path.resolve (cwd Sample.logged)
                      (arg_string (Str "/home")) ++ [LOG_FILE_NAME]) = None
      | _ => ∃ mtime',
               disk (undoOrganize (Str "/home") Sample.logged).2
                 !! (Path.resolve (cwd Sample.logged)
                       (arg_string (Str "/home")) ++ [LOG_FILE_NAME])
               = Some (File (LogJson earlier) mtime')
      end.
Proof.
  by apply (undo_pops_one_batch (Str "/home") Sample.logged 1 0).
Defined.

(** The undo of an operation whose original directory is gone, on the
    sample with a log: the file stays under [Documents]. *)
Lemma undo_operation_without_directory_witness :
  let op := {| original := ["home"; "sub"; "old.txt"];
               movedTo := ["home"; "Documents"; "doc.pdf"] |} in
  (undo_operation (0, 0) op Sample.logged).1 = Ok (0, 1)
  ∧ disk (undo_operation (0, 0) op Sample.logged).2 = disk Sample.logged.
Proof.
  apply (undo_operation_without_directory (0, 0)
           {| original := ["home"; "sub"; "old.txt"];
              movedTo := ["home"; "Documents"; "doc.pdf"] |}
           Sample.logged ["home"; "sub"] "old.txt"); reflexivity.
Defined.

End undo_log.

(** ** A configuration that cannot be loaded *)

Section broken_config.




End broken_config.
